(** * Verification of esbuild's [internal/logging] package

    A shallow embedding of [src/internal/logging/logging.go] together with
    the properties its specification states about it.

    Go strings are byte sequences: [len], indexing and slicing count bytes,
    while [for i, c := range s] decodes UTF-8 and yields byte offsets and
    code points.  Run-time panics (slice bounds out of range, nil
    dereference, division by zero, negative [strings.Repeat] count) are
    modelled by [None] in the option monad. *)

From Stdlib Require Import ZArith List Bool Lia.
From Stdlib Require String DecimalString.
From coqutil Require Import Byte.
Import ListNotations.
Import String.StringSyntax.
Delimit Scope string_scope with string.
Local Open Scope Z_scope.

(* ================================================================= *)
(** * Part I: the embedding *)
(* ================================================================= *)

(** ** Panics as an option monad *)

Definition bind {A B : Type} (m : option A) (f : A -> option B) : option B :=
  match m with
  | Some a => f a
  | None => None
  end.

Notation "x <- m ;; k" := (bind m (fun x => k))
  (at level 61, m at next level, right associativity).
Notation "' p <- m ;; k" := (bind m (fun p => k))
  (at level 61, p pattern, m at next level, right associativity).

(** Inversion of a bind that succeeded. *)
Ltac bind_inv H :=
  match type of H with
  | bind ?m _ = Some _ =>
    let E := fresh "E" in destruct m eqn:E; [cbn [bind] in H|discriminate H]
  end.

(** ** Go strings *)

Definition gostring : Type := list byte.

(** [len(s)] *)
Definition len (s : gostring) : Z := Z.of_nat (length s).

(** A string literal of the source. *)
Definition str (s : String.string) : gostring := String.list_byte_of_string s.
Arguments str s%_string.

(** [s[lo:hi]]; panics unless [0 <= lo <= hi <= len(s)]. *)
Definition slice (s : gostring) (lo hi : Z) : option gostring :=
  if (0 <=? lo) && (lo <=? hi) && (hi <=? len s)
  then Some (firstn (Z.to_nat (hi - lo)) (skipn (Z.to_nat lo) s))
  else None.

(** [s[lo:]] and [s[:hi]] *)
Definition sliceFrom (s : gostring) (lo : Z) : option gostring := slice s lo (len s).
Definition sliceTo (s : gostring) (hi : Z) : option gostring := slice s 0 hi.

(** [strings.Repeat(s, count)]; panics on a negative count. *)
Definition Repeat (s : gostring) (count : Z) : option gostring :=
  if count <? 0 then None else Some (concat (repeat s (Z.to_nat count))).

(** Conversion to [int32], with its wrap-around. *)
Definition int32 (z : Z) : Z := (z + 2 ^ 31) mod 2 ^ 32 - 2 ^ 31.

(** [fmt.Sprintf("%d", n)] *)
Definition fmt_d (n : Z) : gostring := str (DecimalString.NilZero.string_of_int (Z.to_int n)).

(** Byte constants used by the source. *)
Definition byteTab : byte := Byte.x09.
Definition byteSpace : byte := Byte.x20.
Definition byteDQuote : byte := Byte.x22.
Definition byteSQuote : byte := Byte.x27.
Definition byteBackslash : byte := Byte.x5c.

Definition byte_eqb (a b : byte) : bool := byte.unsigned a =? byte.unsigned b.

(** ** UTF-8, as the Go language decodes and encodes it

    [decodeRune] is what one iteration of [for _, c := range s] does at the
    head of [s] (and what [utf8.DecodeRuneInString] returns): the code point
    and the number of bytes consumed, or [(RuneError, 1)] for an invalid or
    truncated encoding.  The masks and shifts of the Go library are written
    as the arithmetic they perform on bytes in the accepted ranges:
    [b & 0x3F = b - 0x80] for a continuation byte and [x << 6 | y = 64x + y]
    for [y < 64]. *)

Definition rune : Type := Z.
Definition RuneError : rune := 0xFFFD.

Definition inRange (lo hi : Z) (b : byte) : bool :=
  (lo <=? byte.unsigned b) && (byte.unsigned b <=? hi).

(** Accepted range of the second byte, by first byte (Go's [acceptRanges]). *)
Definition secondLo (x0 : Z) : Z :=
  if x0 =? 0xE0 then 0xA0 else if x0 =? 0xF0 then 0x90 else 0x80.
Definition secondHi (x0 : Z) : Z :=
  if x0 =? 0xED then 0x9F else if x0 =? 0xF4 then 0x8F else 0xBF.

Definition decodeRune (s : gostring) : rune * nat :=
  match s with
  | [] => (RuneError, 1%nat)
  | b0 :: t =>
    let x0 := byte.unsigned b0 in
    if x0 <? 0x80 then (x0, 1%nat)
    else if x0 <? 0xC2 then (RuneError, 1%nat)
    else if x0 <? 0xE0 then
      match t with
      | b1 :: _ =>
        if inRange 0x80 0xBF b1
        then ((x0 - 0xC0) * 64 + (byte.unsigned b1 - 0x80), 2%nat)
        else (RuneError, 1%nat)
      | _ => (RuneError, 1%nat)
      end
    else if x0 <? 0xF0 then
      match t with
      | b1 :: b2 :: _ =>
        if inRange (secondLo x0) (secondHi x0) b1 && inRange 0x80 0xBF b2
        then ((x0 - 0xE0) * 4096 + (byte.unsigned b1 - 0x80) * 64
              + (byte.unsigned b2 - 0x80), 3%nat)
        else (RuneError, 1%nat)
      | _ => (RuneError, 1%nat)
      end
    else if x0 <? 0xF5 then
      match t with
      | b1 :: b2 :: b3 :: _ =>
        if inRange (secondLo x0) (secondHi x0) b1 && inRange 0x80 0xBF b2
           && inRange 0x80 0xBF b3
        then ((x0 - 0xF0) * 262144 + (byte.unsigned b1 - 0x80) * 4096
              + (byte.unsigned b2 - 0x80) * 64 + (byte.unsigned b3 - 0x80), 4%nat)
        else (RuneError, 1%nat)
      | _ => (RuneError, 1%nat)
      end
    else (RuneError, 1%nat)
  end.

(** Bytes written by [strings.Builder.WriteRune(r)] ([utf8.AppendRune]):
    code points outside the Unicode range and surrogates are written as
    U+FFFD. *)
Definition encode3 (r : rune) : gostring :=
  [byte.of_Z (0xE0 + r / 4096); byte.of_Z (0x80 + (r / 64) mod 64);
   byte.of_Z (0x80 + r mod 64)].

Definition encodeRune (r : rune) : gostring :=
  if r <? 0 then encode3 RuneError
  else if r <=? 0x7F then [byte.of_Z r]
  else if r <=? 0x7FF then [byte.of_Z (0xC0 + r / 64); byte.of_Z (0x80 + r mod 64)]
  else if (0x10FFFF <? r) || ((0xD800 <=? r) && (r <=? 0xDFFF)) then encode3 RuneError
  else if r <=? 0xFFFF then encode3 r
  else [byte.of_Z (0xF0 + r / 262144); byte.of_Z (0x80 + (r / 4096) mod 64);
        byte.of_Z (0x80 + (r / 64) mod 64); byte.of_Z (0x80 + r mod 64)].

(** The pairs [(i, codePoint)] produced by [for i, codePoint := range s],
    starting at byte offset [i].  Every iteration consumes at least one
    byte, so [length s] iterations are always enough. *)
Fixpoint rangeFrom (fuel : nat) (i : Z) (s : gostring) : list (Z * rune) :=
  match fuel, s with
  | S fuel', _ :: _ =>
    let '(r, n) := decodeRune s in
    (i, r) :: rangeFrom fuel' (i + Z.of_nat n) (skipn n s)
  | _, _ => []
  end.

Definition go_range (s : gostring) : list (Z * rune) := rangeFrom (length s) 0 s.

(** The code points alone: [for _, c := range s]. *)
Definition runes (s : gostring) : list rune := map snd (go_range s).

(** [utf8.ValidString]: no iteration of the range loop hits an invalid
    encoding.  An invalid encoding is reported as [(RuneError, 1)], which no
    valid encoding produces (U+FFFD itself takes three bytes). *)
Definition validAt (s : gostring) : bool :=
  let '(r, n) := decodeRune s in negb ((r =? RuneError) && (Nat.eqb n 1)).

Fixpoint validFrom (fuel : nat) (s : gostring) : bool :=
  match fuel, s with
  | S fuel', _ :: _ => validAt s && validFrom fuel' (skipn (snd (decodeRune s)) s)
  | _, _ => true
  end.

Definition ValidString (s : gostring) : bool := validFrom (length s) s.

(** [strings.ContainsRune(s, r)] for an ASCII [r]: a byte search. *)
Definition ContainsByte (s : gostring) (b : byte) : bool := existsb (byte_eqb b) s.

(** ** The message model (logging.go, lines 20-53) *)

Inductive LogLevel : Type := LevelNone | LevelInfo | LevelWarning | LevelError.

(** The [iota] values of the constants; [<=] on [LogLevel] compares them. *)
Definition LogLevel_int (l : LogLevel) : Z :=
  match l with
  | LevelNone => 0
  | LevelInfo => 1
  | LevelWarning => 2
  | LevelError => 3
  end.

Definition LogLevel_le (a b : LogLevel) : bool := LogLevel_int a <=? LogLevel_int b.

Inductive MsgKind : Type := Error | Warning.

Record Source : Type := mkSource {
  Index : Z;
  AbsolutePath : gostring;
  PrettyPath : gostring;
  Contents : gostring
}.

(** [Source] is a pointer in the source: [None] is [nil].  [Start] and
    [Length] are [int32]. *)
Record Msg : Type := mkMsg {
  MsgSource : option Source;
  Start : Z;
  Length : Z;
  Text : gostring;
  Kind : MsgKind
}.

(** [ast.Loc] and [ast.Range], whose declarations live in package [ast]:
    a byte offset, and an offset with a length, both [int32]. *)
Record Loc : Type := mkLoc { LocStart : Z }.
Record Range : Type := mkRange { RangeLoc : Loc; Len : Z }.

(** [Source.TextForRange] *)
Definition TextForRange (s : Source) (r : Range) : option gostring :=
  slice (Contents s) (LocStart (RangeLoc r)) (int32 (LocStart (RangeLoc r) + Len r)).

(** ** [Source.RangeOfString] (lines 55-75)

    [scanQuote quote rest i] is the [for] loop in the state where the loop
    variable is [i] and [rest = text[i:]]: it answers [Some (i' + 1)] when the
    loop returns at index [i'], and [None] when the loop runs off the end of
    [text].  A backslash performs [i += 1] before the loop's own [i++], so
    the byte after it is never inspected. *)
Fixpoint scanQuote (quote : byte) (rest : gostring) (i : Z) : option Z :=
  match rest with
  | [] => None
  | c :: rest' =>
    if byte_eqb c quote then Some (i + 1)
    else if byte_eqb c byteBackslash then
      match rest' with
      | [] => None
      | _ :: rest'' => scanQuote quote rest'' (i + 1 + 1)
      end
    else scanQuote quote rest' (i + 1)
  end.

Definition RangeOfString (s : Source) (loc : Loc) : option Range :=
  text <- sliceFrom (Contents s) (LocStart loc) ;;
  match text with
  | [] => Some (mkRange loc 0)
  | quote :: rest =>
    if byte_eqb quote byteDQuote || byte_eqb quote byteSQuote then
      match scanQuote quote rest 1 with
      | Some n => Some (mkRange loc (int32 n))
      | None => Some (mkRange loc 0)
      end
    else Some (mkRange loc 0)
  end.

(** ** Counters and the summary text (lines 77-107) *)

Record stderrLogInfo : Type := mkInfo {
  msgs : list Msg;
  errors : Z;
  warnings : Z;
  errorLimitWasHit : bool
}.

Definition plural (prefix : gostring) (count : Z) : gostring :=
  if count =? 1 then fmt_d count ++ str " " ++ prefix
  else fmt_d count ++ str " " ++ prefix ++ str "s".

(** [stderrLogInfo.String] *)
Definition info_String (counts : stderrLogInfo) : gostring :=
  if errors counts =? 0 then
    if warnings counts =? 0 then str "no errors"
    else plural (str "warning") (warnings counts)
  else
    if warnings counts =? 0 then plural (str "error") (errors counts)
    else plural (str "warning") (warnings counts) ++ str " and "
         ++ plural (str "error") (errors counts).

(** ** Terminal description and options (lines 109-113, 219-239) *)

Record TerminalInfo : Type := mkTerminalInfo {
  IsTTY : bool;
  UseColorEscapes : bool;
  Width : Z
}.

Definition ESC : byte := Byte.x1b.
Definition colorReset : gostring := ESC :: str "[0m".
Definition colorRed : gostring := ESC :: str "[31m".
Definition colorGreen : gostring := ESC :: str "[32m".
Definition colorMagenta : gostring := ESC :: str "[35m".
Definition colorBold : gostring := ESC :: str "[1m".
Definition colorResetBold : gostring := ESC :: str "[0;1m".

Inductive StderrColor : Type := ColorIfTerminal | ColorNever | ColorAlways.

Record StderrOptions : Type := mkOptions {
  IncludeSource : bool;
  ErrorLimit : Z;
  Color : StderrColor;
  LogLevelOpt : LogLevel
}.

Record MsgDetail : Type := mkDetail {
  Path : gostring;
  Line : Z;
  Column : Z;
  DKind : gostring;
  Message : gostring;
  DSource : gostring;
  SourceBefore : gostring;
  SourceMarked : gostring;
  SourceAfter : gostring;
  Indent : gostring;
  Marker : gostring
}.

(** ** [renderTabStops] (lines 440-462) *)

(** The inner loop [for i := 0; i < spaces; i++]: one space and one column
    per iteration. *)
Fixpoint writeSpaces (n : nat) (withoutTabs : gostring) (count : Z) : gostring * Z :=
  match n with
  | O => (withoutTabs, count)
  | S n' => writeSpaces n' (withoutTabs ++ [byteSpace]) (count + 1)
  end.

(** The loop over the code points of [withTabs], in the state
    [(withoutTabs, count)].  [count % spacesPerTab] panics when
    [spacesPerTab] is zero; Go's [%] truncates like [Z.rem]. *)
Fixpoint tabLoop (spacesPerTab : Z) (cs : list rune) (withoutTabs : gostring) (count : Z)
  : option gostring :=
  match cs with
  | [] => Some withoutTabs
  | c :: cs' =>
    if c =? 9 then
      if spacesPerTab =? 0 then None
      else
        let spaces := spacesPerTab - Z.rem count spacesPerTab in
        let '(withoutTabs, count) := writeSpaces (Z.to_nat spaces) withoutTabs count in
        tabLoop spacesPerTab cs' withoutTabs count
    else tabLoop spacesPerTab cs' (withoutTabs ++ encodeRune c) (count + 1)
  end.

(** The general loop alone, without the early return. *)
Definition renderTabStops_loop (withTabs : gostring) (spacesPerTab : Z) : option gostring :=
  tabLoop spacesPerTab (runes withTabs) [] 0.

Definition renderTabStops (withTabs : gostring) (spacesPerTab : Z) : option gostring :=
  if negb (ContainsByte withTabs byteTab) then Some withTabs
  else renderTabStops_loop withTabs spacesPerTab.

(** ** [ComputeLineAndColumn] (lines 308-326) *)

(** One iteration of the loop body, on the state
    [(lineCount, lastLineStart, prevCodePoint)]. *)
Definition lineStep (st : Z * Z * rune) (ic : Z * rune) : Z * Z * rune :=
  let '(lineCount, lastLineStart, prevCodePoint) := st in
  let '(i, codePoint) := ic in
  if codePoint =? 0x0A then
    (if negb (prevCodePoint =? 0x0D) then lineCount + 1 else lineCount, i + 1, codePoint)
  else if (codePoint =? 0x0D) || (codePoint =? 0x2028) || (codePoint =? 0x2029) then
    (lineCount, i + 1, codePoint)
  else (lineCount, lastLineStart, codePoint).

(** Returns [(lineCount, columnCount, lastLineStart)]. *)
Definition lineStart0 : Z * Z * rune := (0, 0, 0).

Definition ComputeLineAndColumn (text : gostring) : Z * Z * Z :=
  let '(lineCount, lastLineStart, _) := fold_left lineStep (go_range text) lineStart0 in
  (lineCount, len text - lastLineStart, lastLineStart).

(** ** [detailStruct] (lines 328-438) *)

Definition isLineBreak (codePoint : rune) : bool :=
  (codePoint =? 0x0D) || (codePoint =? 0x0A) || (codePoint =? 0x2028) || (codePoint =? 0x2029).

(** The labelled loop of lines 333-340 over [contents[lineStart:]]:
    [lineEnd] is moved to the first line break, if there is one. *)
Fixpoint findLineEnd (rs : list (Z * rune)) (lineStart lineEnd : Z) : Z :=
  match rs with
  | [] => lineEnd
  | (i, codePoint) :: rs' =>
    if isLineBreak codePoint then lineStart + i else findLineEnd rs' lineStart lineEnd
  end.

(** The block of lines 367-410, entered when the line is wider than the
    terminal: it returns the new [(lineText, indent, markerStart, markerEnd)].
    Go's [/] on [int] truncates like [Z.quot]. *)
Definition trimToWidth (Width : Z) (lineText : gostring) (markerStart markerEnd : Z)
  : option (gostring * gostring * Z * Z) :=
  let sliceStart := Z.quot (markerStart + markerEnd - Width) 2 in
  let sliceStart :=
    if sliceStart >? markerStart - Z.quot Width 5
    then markerStart - Z.quot Width 5 else sliceStart in
  let sliceStart := if sliceStart <? 0 then 0 else sliceStart in
  let sliceStart :=
    if sliceStart >? len lineText - Width then len lineText - Width else sliceStart in
  let sliceEnd := sliceStart + Width in
  slicedLine <- slice lineText sliceStart sliceEnd ;;
  let markerStart := markerStart - sliceStart in
  let markerEnd := markerEnd - sliceStart in
  let markerStart := if markerStart <? 0 then 0 else markerStart in
  let markerEnd := if markerEnd >? len slicedLine then len slicedLine else markerEnd in
  ' (slicedLine, markerStart) <-
    (if (len slicedLine >? 3) && (sliceStart >? 0) then
       rest <- sliceFrom slicedLine 3 ;;
       Some (str "..." ++ rest, if markerStart <? 3 then 3 else markerStart)
     else Some (slicedLine, markerStart)) ;;
  ' (slicedLine, markerEnd) <-
    (if (len slicedLine >? 3) && (sliceEnd <? len lineText) then
       front <- sliceTo slicedLine (len slicedLine - 3) ;;
       let slicedLine := front ++ str "..." in
       let markerEnd :=
         if markerEnd >? len slicedLine - 3 then len slicedLine - 3 else markerEnd in
       let markerEnd := if markerEnd <? markerStart then markerStart else markerEnd in
       Some (slicedLine, markerEnd)
     else Some (slicedLine, markerEnd)) ;;
  indent <- Repeat (str " ") markerStart ;;
  Some (slicedLine, indent, markerStart, markerEnd).

Definition kindName (k : MsgKind) : gostring :=
  match k with
  | Error => str "error"
  | Warning => str "warning"
  end.

Definition detailStruct (msg : Msg) (terminalInfo : TerminalInfo) : option MsgDetail :=
  source <- MsgSource msg ;;
  let contents := Contents source in
  before <- slice contents 0 (Start msg) ;;
  let '(lineCount, columnCount, lineStart) := ComputeLineAndColumn before in
  let lineEnd := len contents in
  rest <- sliceFrom contents lineStart ;;
  let lineEnd := findLineEnd (go_range rest) lineStart lineEnd in
  let spacesPerTab := 2 in
  line <- slice contents lineStart lineEnd ;;
  lineText <- renderTabStops line spacesPerTab ;;
  toStart <- slice contents lineStart (Start msg) ;;
  expandedToStart <- renderTabStops toStart spacesPerTab ;;
  indent <- Repeat (str " ") (len expandedToStart) ;;
  let marker := str "^" in
  let markerStart := len indent in
  let markerEnd := len indent in
  markerEnd <-
    (if Length msg >? 0 then
       toEnd <- slice contents lineStart (int32 (Start msg + Length msg)) ;;
       expandedToEnd <- renderTabStops toEnd spacesPerTab ;;
       Some (len expandedToEnd)
     else Some markerEnd) ;;
  let markerStart := if markerStart >? len lineText then len lineText else markerStart in
  let markerEnd := if markerEnd >? len lineText then len lineText else markerEnd in
  let markerEnd := if markerEnd <? markerStart then markerStart else markerEnd in
  ' (lineText, indent, markerStart, markerEnd) <-
    (if (Width terminalInfo >? 0) && (len lineText >? Width terminalInfo)
     then trimToWidth (Width terminalInfo) lineText markerStart markerEnd
     else Some (lineText, indent, markerStart, markerEnd)) ;;
  marker <-
    (if markerEnd - markerStart >? 1
     then Repeat (str "~") (markerEnd - markerStart) else Some marker) ;;
  sourceBefore <- sliceTo lineText markerStart ;;
  sourceMarked <- slice lineText markerStart markerEnd ;;
  sourceAfter <- sliceFrom lineText markerEnd ;;
  Some {| Path := PrettyPath source;
          Line := lineCount + 1;
          Column := columnCount;
          DKind := kindName (Kind msg);
          Message := Text msg;
          DSource := lineText;
          SourceBefore := sourceBefore;
          SourceMarked := sourceMarked;
          SourceAfter := sourceAfter;
          Indent := indent;
          Marker := marker |}.

(** ** [Msg.String] (lines 241-289) *)

Definition newline : gostring := [Byte.x0a].

Definition Msg_String (msg : Msg) (options : StderrOptions) (terminalInfo : TerminalInfo)
  : option gostring :=
  let kind := kindName (Kind msg) in
  let kindColor := match Kind msg with Warning => colorMagenta | Error => colorRed end in
  match MsgSource msg with
  | None =>
    if UseColorEscapes terminalInfo then
      Some (colorBold ++ kindColor ++ kind ++ str ": " ++ colorResetBold ++ Text msg
            ++ colorReset ++ newline)
    else Some (kind ++ str ": " ++ Text msg ++ newline)
  | Some source =>
    if negb (IncludeSource options) then
      if UseColorEscapes terminalInfo then
        Some (colorBold ++ PrettyPath source ++ str ": " ++ kindColor ++ kind ++ str ": "
              ++ colorResetBold ++ Text msg ++ colorReset ++ newline)
      else Some (PrettyPath source ++ str ": " ++ kind ++ str ": " ++ Text msg ++ newline)
    else
      d <- detailStruct msg terminalInfo ;;
      if UseColorEscapes terminalInfo then
        Some (colorBold ++ Path d ++ str ":" ++ fmt_d (Line d) ++ str ":"
              ++ fmt_d (Column d) ++ str ": " ++ kindColor ++ DKind d ++ str ": "
              ++ colorResetBold ++ Message d ++ newline
              ++ colorReset ++ SourceBefore d ++ colorGreen ++ SourceMarked d
              ++ colorReset ++ SourceAfter d ++ newline
              ++ colorGreen ++ Indent d ++ Marker d ++ colorReset ++ newline)
      else
        Some (Path d ++ str ":" ++ fmt_d (Line d) ++ str ":" ++ fmt_d (Column d)
              ++ str ": " ++ DKind d ++ str ": " ++ Message d ++ newline
              ++ DSource d ++ newline
              ++ Indent d ++ Marker d ++ newline)
  end.

(** ** [NewStderrLog] (lines 115-173)

    The sink owns one worker goroutine that receives the messages from an
    unbuffered channel one at a time; whatever the producers do, the worker
    sees one sequence of messages, the order in which it accepted them.  The
    model runs the worker on that sequence and records every write to
    [os.Stderr], in order.  A panic while rendering ends the process: [None].

    [GetTerminalInfo] and the constant [SupportsColorEscapes] are declared in
    the platform files of the package; they are parameters here. *)

Section StderrLog.

Variable SupportsColorEscapes : bool.
(** The value of [GetTerminalInfo(os.Stderr)]. *)
Variable GetTerminalInfo : TerminalInfo.

(** Lines 119-126: the terminal description after the [switch] on
    [options.Color]. *)
Definition sinkTerminalInfo (options : StderrOptions) : TerminalInfo :=
  let terminalInfo := GetTerminalInfo in
  match Color options with
  | ColorNever =>
    {| IsTTY := IsTTY terminalInfo; UseColorEscapes := false; Width := Width terminalInfo |}
  | ColorAlways =>
    {| IsTTY := IsTTY terminalInfo; UseColorEscapes := SupportsColorEscapes;
       Width := Width terminalInfo |}
  | ColorIfTerminal => terminalInfo
  end.

Definition limitNotice (result : stderrLogInfo) : gostring :=
  info_String result ++ str " reached (disable error limit with --error-limit=0)" ++ newline.

(** [result := stderrLogInfo{}] with nothing written yet. *)
Definition startState : stderrLogInfo * list gostring :=
  ({| msgs := []; errors := 0; warnings := 0; errorLimitWasHit := false |}, []).

(** The body of [for msg := range msgs] (lines 131-157), on the worker's
    [result] and the writes made so far. *)
Definition workerStep (options : StderrOptions) (terminalInfo : TerminalInfo)
  (st : stderrLogInfo * list gostring) (msg : Msg)
  : option (stderrLogInfo * list gostring) :=
  let '(result, stderr) := st in
  let result := {| msgs := msgs result ++ [msg]; errors := errors result;
                   warnings := warnings result;
                   errorLimitWasHit := errorLimitWasHit result |} in
  if errorLimitWasHit result then Some (result, stderr)
  else
    ' (result, stderr) <-
      match Kind msg with
      | Error =>
        let result := {| msgs := msgs result; errors := errors result + 1;
                         warnings := warnings result;
                         errorLimitWasHit := errorLimitWasHit result |} in
        if LogLevel_le (LogLevelOpt options) LevelError then
          text <- Msg_String msg options terminalInfo ;;
          Some (result, stderr ++ [text])
        else Some (result, stderr)
      | Warning =>
        let result := {| msgs := msgs result; errors := errors result;
                         warnings := warnings result + 1;
                         errorLimitWasHit := errorLimitWasHit result |} in
        if LogLevel_le (LogLevelOpt options) LevelWarning then
          text <- Msg_String msg options terminalInfo ;;
          Some (result, stderr ++ [text])
        else Some (result, stderr)
      end ;;
    if negb (ErrorLimit options =? 0) && (errors result >=? ErrorLimit options) then
      let result := {| msgs := msgs result; errors := errors result;
                       warnings := warnings result; errorLimitWasHit := true |} in
      if LogLevel_le (LogLevelOpt options) LevelError
      then Some (result, stderr ++ [limitNotice result])
      else Some (result, stderr)
    else Some (result, stderr).

(** The worker goroutine on the sequence of messages it receives before the
    channel is closed; its final state is what it sends on [done]. *)
Fixpoint worker (options : StderrOptions) (terminalInfo : TerminalInfo)
  (st : stderrLogInfo * list gostring) (received : list Msg)
  : option (stderrLogInfo * list gostring) :=
  match received with
  | [] => Some st
  | msg :: received' =>
    st' <- workerStep options terminalInfo st msg ;;
    worker options terminalInfo st' received'
  end.

(** The returned closure (lines 162-172), once the worker has sent [result]:
    the writes after it, and the returned messages. *)
Definition join (options : StderrOptions) (st : stderrLogInfo * list gostring)
  : list gostring * list Msg :=
  let '(result, stderr) := st in
  let stderr :=
    if negb (errorLimitWasHit result) && LogLevel_le (LogLevelOpt options) LevelInfo
       && (negb (warnings result =? 0) || negb (errors result =? 0))
    then stderr ++ [info_String result ++ newline]
    else stderr in
  (stderr, msgs result).

(** A whole life of the sink: construction, the messages [received] by the
    worker, then the call of the returned closure.  The result is everything
    written to [os.Stderr] and the list the closure returns. *)
Definition NewStderrLog (options : StderrOptions) (received : list Msg)
  : option (list gostring * list Msg) :=
  let terminalInfo := sinkTerminalInfo options in
  st <- worker options terminalInfo startState received ;;
  Some (join options st).

End StderrLog.

(** [Log.AddError] and its siblings (lines 464-478): the message each of them
    sends. *)
Definition AddError (source : option Source) (loc : Loc) (text : gostring) : Msg :=
  mkMsg source (LocStart loc) 0 text Error.
Definition AddWarning (source : option Source) (loc : Loc) (text : gostring) : Msg :=
  mkMsg source (LocStart loc) 0 text Warning.
Definition AddRangeError (source : option Source) (r : Range) (text : gostring) : Msg :=
  mkMsg source (LocStart (RangeLoc r)) (Len r) text Error.
Definition AddRangeWarning (source : option Source) (r : Range) (text : gostring) : Msg :=
  mkMsg source (LocStart (RangeLoc r)) (Len r) text Warning.

(** ** [NewDeferLog] (lines 200-217)

    The worker only appends what it receives; nothing is written.  The
    result is what was written to [os.Stderr] (nothing) and the list the
    closure returns. *)
Fixpoint deferWorker (result : list Msg) (received : list Msg) : list Msg :=
  match received with
  | [] => result
  | msg :: received' => deferWorker (result ++ [msg]) received'
  end.

Definition NewDeferLog (received : list Msg) : list gostring * list Msg :=
  ([], deferWorker [] received).

(** ** [PrintErrorToStderr] (lines 175-198) *)

(** [==] on strings. *)
Fixpoint gostring_eqb (a b : gostring) : bool :=
  match a, b with
  | [], [] => true
  | x :: a', y :: b' => byte_eqb x y && gostring_eqb a' b'
  | _, _ => false
  end.

(** The [switch arg] of the argument loop. *)
Definition argStep (options : StderrOptions) (arg : gostring) : StderrOptions :=
  if gostring_eqb arg (str "--color=false") then
    {| IncludeSource := IncludeSource options; ErrorLimit := ErrorLimit options;
       Color := ColorNever; LogLevelOpt := LogLevelOpt options |}
  else if gostring_eqb arg (str "--color=true") then
    {| IncludeSource := IncludeSource options; ErrorLimit := ErrorLimit options;
       Color := ColorAlways; LogLevelOpt := LogLevelOpt options |}
  else if gostring_eqb arg (str "--log-level=info") then
    {| IncludeSource := IncludeSource options; ErrorLimit := ErrorLimit options;
       Color := Color options; LogLevelOpt := LevelInfo |}
  else if gostring_eqb arg (str "--log-level=warning") then
    {| IncludeSource := IncludeSource options; ErrorLimit := ErrorLimit options;
       Color := Color options; LogLevelOpt := LevelWarning |}
  else if gostring_eqb arg (str "--log-level=error") then
    {| IncludeSource := IncludeSource options; ErrorLimit := ErrorLimit options;
       Color := Color options; LogLevelOpt := LevelError |}
  else options.

(** [options := StderrOptions{}] after the loop over [osArgs]. *)
Definition argOptions (osArgs : list gostring) : StderrOptions :=
  fold_left argStep osArgs
    {| IncludeSource := false; ErrorLimit := 0; Color := ColorIfTerminal;
       LogLevelOpt := LevelNone |}.

(** Everything the call writes to [os.Stderr]; [None] if it panics. *)
Definition PrintErrorToStderr (SupportsColorEscapes : bool) (GetTerminalInfo : TerminalInfo)
  (osArgs : list gostring) (text : gostring) : option (list gostring) :=
  st <- NewStderrLog SupportsColorEscapes GetTerminalInfo (argOptions osArgs)
          [AddError None (mkLoc 0) text] ;;
  Some (fst st).

(* ================================================================= *)
(** * Part II: what the specification says, as definitions *)
(* ================================================================= *)

(** ** The closing quote of a string literal

    [ClosingQuote q rest k]: in the text [rest] that follows an opening quote
    [q], the first quote [q] that is not escaped sits at offset [k].  A
    backslash escapes exactly the byte after it, whatever that byte is. *)
Inductive ClosingQuote (q : byte) : gostring -> Z -> Prop :=
| ClosingQuote_here : forall rest, ClosingQuote q (q :: rest) 0
| ClosingQuote_escaped : forall c rest k,
    ClosingQuote q rest k -> ClosingQuote q (byteBackslash :: c :: rest) (k + 2)
| ClosingQuote_plain : forall c rest k,
    c <> q -> c <> byteBackslash ->
    ClosingQuote q rest k -> ClosingQuote q (c :: rest) (k + 1).

Definition isQuote (b : byte) : Prop := b = byteDQuote \/ b = byteSQuote.

(** ** Tab expansion, column by column

    A tab at column [col] moves to the next multiple of [2]; any other code
    point is copied and moves one column. *)
Definition nextTabStop (col : Z) : Z := 2 * (col / 2 + 1).

Fixpoint expandTabs (col : Z) (cs : list rune) : gostring :=
  match cs with
  | [] => []
  | c :: cs' =>
    if c =? 9 then
      repeat byteSpace (Z.to_nat (nextTabStop col - col)) ++ expandTabs (nextTabStop col) cs'
    else encodeRune c ++ expandTabs (col + 1) cs'
  end.

(** ** When color is enabled, in the specification's words

    Enabled when the capability descriptor reports support and the mode is
    not [Never], or when the mode is [Always], whatever the descriptor
    reports. *)
Definition isNever (mode : StderrColor) : bool :=
  match mode with ColorNever => true | _ => false end.
Definition isAlways (mode : StderrColor) : bool :=
  match mode with ColorAlways => true | _ => false end.

Definition specColorEnabled (reportsSupport : bool) (mode : StderrColor) : bool :=
  (reportsSupport && negb (isNever mode)) || isAlways mode.

(** The color the sink really uses, mode by mode. *)
Definition sinkColorEnabled (SupportsColorEscapes : bool) (probed : TerminalInfo)
  (mode : StderrColor) : bool :=
  match mode with
  | ColorNever => false
  | ColorAlways => SupportsColorEscapes
  | ColorIfTerminal => UseColorEscapes probed
  end.

(** ** Where the slice of a trimmed line starts

    Centred on the marker, capped at [w / 5] columns before the marker start,
    then clamped to [[0, lineLen - w]] and to [>= 0]. *)
Definition specSliceStart (w lineLen markerStart markerEnd : Z) : Z :=
  let centred := Z.quot (markerStart + markerEnd - w) 2 in
  let capped := Z.min centred (markerStart - Z.quot w 5) in
  Z.max 0 (Z.max 0 (Z.min capped (lineLen - w))).

(** An escape byte occurs in the text. *)
Definition hasEscape (s : gostring) : bool := ContainsByte s ESC.

(** ** The line count the specification describes

    Every line break counts once, and a line feed that directly follows a
    carriage return belongs to the break the carriage return started. *)
Fixpoint countLineBreaks (prev : rune) (cs : list rune) : Z :=
  match cs with
  | [] => 0
  | c :: cs' =>
    (if isLineBreak c && negb ((c =? 0x0A) && (prev =? 0x0D)) then 1 else 0)
    + countLineBreaks c cs'
  end.

(** The line feeds that do not follow a carriage return: what
    [ComputeLineAndColumn] counts. *)
Fixpoint countBareLineFeeds (prev : rune) (cs : list rune) : Z :=
  match cs with
  | [] => 0
  | c :: cs' =>
    (if (c =? 0x0A) && negb (prev =? 0x0D) then 1 else 0) + countBareLineFeeds c cs'
  end.

(** ** Counting and filtering messages *)

Definition isError (msg : Msg) : bool :=
  match Kind msg with Error => true | Warning => false end.

Definition countErrors (l : list Msg) : Z := Z.of_nat (length (filter isError l)).
Definition countWarnings (l : list Msg) : Z :=
  Z.of_nat (length (filter (fun msg => negb (isError msg)) l)).

(** The messages a sink at [level] prints while no limit is hit. *)
Definition printedAt (level : LogLevel) (msg : Msg) : bool :=
  match Kind msg with
  | Error => LogLevel_le level LevelError
  | Warning => LogLevel_le level LevelWarning
  end.

(** ** Text without its escape sequences

    An escape sequence runs from the escape byte through the next [m]. *)
Fixpoint stripEscapes (inEscape : bool) (s : gostring) : gostring :=
  match s with
  | [] => []
  | b :: t =>
    if inEscape then stripEscapes (negb (byte_eqb b Byte.x6d)) t
    else if byte_eqb b ESC then stripEscapes true t
    else b :: stripEscapes false t
  end.

(** The column reached after expanding [cs] from column [col]. *)
Fixpoint columnAfter (col : Z) (cs : list rune) : Z :=
  match cs with
  | [] => col
  | c :: cs' => columnAfter (if c =? 9 then nextTabStop col else col + 1) cs'
  end.

(** ** What the worker keeps true of its counters and writes

    after [n] messages. *)
Definition workerInv (options : StderrOptions) (n : Z)
  (st : stderrLogInfo * list gostring) : Prop :=
  let result := fst st in
  0 <= errors result /\ 0 <= warnings result
  /\ errors result + warnings result <= n
  /\ Z.of_nat (length (snd st))
     <= errors result + warnings result + (if errorLimitWasHit result then 1 else 0)
  /\ (ErrorLimit options = 0 -> errorLimitWasHit result = false)
  /\ (0 < ErrorLimit options ->
      errors result <= ErrorLimit options
      /\ (errorLimitWasHit result = true <-> errors result = ErrorLimit options)).

(** ** A message whose range lies inside its source

    The range is inside the contents, and the contents are short enough for
    the [int32] offsets of a [Loc] to address them.  A message without a
    source has no range to place. *)
Definition locatedIn (msg : Msg) : Prop :=
  match MsgSource msg with
  | None => True
  | Some source =>
    0 <= Start msg /\ 0 <= Length msg
    /\ Start msg + Length msg <= len (Contents source)
    /\ len (Contents source) < 2 ^ 31
  end.

(* ================================================================= *)
(** * Part III: lemmas on strings and UTF-8 *)
(* ================================================================= *)

Lemma len_nonneg (s : gostring) : 0 <= len s.
Proof. unfold len. lia. Qed.

Lemma len_app (s t : gostring) : len (s ++ t) = len s + len t.
Proof. unfold len. rewrite length_app. lia. Qed.

Lemma len_cons (b : byte) (s : gostring) : len (b :: s) = len s + 1.
Proof. unfold len. simpl length. lia. Qed.

Lemma len_nil : len [] = 0.
Proof. reflexivity. Qed.

Lemma byte_eqb_eq (a b : byte) : byte_eqb a b = true <-> a = b.
Proof.
  unfold byte_eqb. rewrite Z.eqb_eq. split.
  - apply byte.unsigned_inj.
  - intros ->. reflexivity.
Qed.

Lemma byte_eqb_neq (a b : byte) : byte_eqb a b = false <-> a <> b.
Proof.
  rewrite <- byte_eqb_eq. destruct (byte_eqb a b); split; congruence.
Qed.

Lemma byte_eqb_refl (a : byte) : byte_eqb a a = true.
Proof. apply byte_eqb_eq. reflexivity. Qed.

Lemma slice_Some (s : gostring) (lo hi : Z) :
  0 <= lo -> lo <= hi -> hi <= len s ->
  slice s lo hi = Some (firstn (Z.to_nat (hi - lo)) (skipn (Z.to_nat lo) s)).
Proof.
  intros H1 H2 H3. unfold slice.
  destruct (0 <=? lo) eqn:E1; [|lia].
  destruct (lo <=? hi) eqn:E2; [|lia].
  destruct (hi <=? len s) eqn:E3; [|lia].
  reflexivity.
Qed.

Lemma slice_inv (s t : gostring) (lo hi : Z) :
  slice s lo hi = Some t ->
  0 <= lo /\ lo <= hi /\ hi <= len s /\
  t = firstn (Z.to_nat (hi - lo)) (skipn (Z.to_nat lo) s).
Proof.
  unfold slice.
  destruct (0 <=? lo) eqn:E1; [|discriminate].
  destruct (lo <=? hi) eqn:E2; [|discriminate].
  destruct (hi <=? len s) eqn:E3; [|discriminate].
  simpl. intros [= <-]. repeat split; lia.
Qed.

Lemma slice_len (s t : gostring) (lo hi : Z) :
  slice s lo hi = Some t -> len t = hi - lo.
Proof.
  intros H. apply slice_inv in H. destruct H as (H1 & H2 & H3 & ->).
  unfold len in *. rewrite length_firstn, length_skipn. lia.
Qed.

Lemma sliceFrom_Some (s : gostring) (lo : Z) :
  0 <= lo <= len s -> sliceFrom s lo = Some (skipn (Z.to_nat lo) s).
Proof.
  intros H. unfold sliceFrom. rewrite slice_Some by lia.
  f_equal. apply firstn_all2. rewrite length_skipn. unfold len. lia.
Qed.

Lemma sliceTo_Some (s : gostring) (hi : Z) :
  0 <= hi <= len s -> sliceTo s hi = Some (firstn (Z.to_nat hi) s).
Proof.
  intros H. unfold sliceTo. rewrite slice_Some by lia.
  rewrite Z.sub_0_r. reflexivity.
Qed.

Lemma Repeat_space (n : Z) :
  0 <= n -> Repeat (str " ") n = Some (repeat byteSpace (Z.to_nat n)).
Proof.
  intros H. unfold Repeat. destruct (n <? 0) eqn:E; [lia|].
  f_equal. induction (Z.to_nat n) as [|k IH]; simpl; [reflexivity|].
  rewrite IH. reflexivity.
Qed.

Lemma int32_small (z : Z) : - 2 ^ 31 <= z < 2 ^ 31 -> int32 z = z.
Proof.
  intros H. unfold int32. rewrite Z.mod_small; lia.
Qed.

(** ** Decoding, case by case *)

Lemma inRange_spec (lo hi : Z) (b : byte) :
  inRange lo hi b = true <-> lo <= byte.unsigned b <= hi.
Proof. unfold inRange. rewrite andb_true_iff, !Z.leb_le. tauto. Qed.

Lemma decodeRune_cases (s : gostring) (r : rune) (n : nat) :
  decodeRune s = (r, n) ->
  (r = RuneError /\ n = 1%nat)
  \/ (exists b0 t, s = b0 :: t /\ n = 1%nat /\ r = byte.unsigned b0 /\ 0 <= r < 0x80)
  \/ (exists b0 b1 t, s = b0 :: b1 :: t /\ n = 2%nat /\
        0xC2 <= byte.unsigned b0 < 0xE0 /\ 0x80 <= byte.unsigned b1 <= 0xBF /\
        r = (byte.unsigned b0 - 0xC0) * 64 + (byte.unsigned b1 - 0x80))
  \/ (exists b0 b1 b2 t, s = b0 :: b1 :: b2 :: t /\ n = 3%nat /\
        0xE0 <= byte.unsigned b0 < 0xF0 /\
        secondLo (byte.unsigned b0) <= byte.unsigned b1 <= secondHi (byte.unsigned b0) /\
        0x80 <= byte.unsigned b2 <= 0xBF /\
        r = (byte.unsigned b0 - 0xE0) * 4096 + (byte.unsigned b1 - 0x80) * 64
            + (byte.unsigned b2 - 0x80))
  \/ (exists b0 b1 b2 b3 t, s = b0 :: b1 :: b2 :: b3 :: t /\ n = 4%nat /\
        0xF0 <= byte.unsigned b0 < 0xF5 /\
        secondLo (byte.unsigned b0) <= byte.unsigned b1 <= secondHi (byte.unsigned b0) /\
        0x80 <= byte.unsigned b2 <= 0xBF /\ 0x80 <= byte.unsigned b3 <= 0xBF /\
        r = (byte.unsigned b0 - 0xF0) * 262144 + (byte.unsigned b1 - 0x80) * 4096
            + (byte.unsigned b2 - 0x80) * 64 + (byte.unsigned b3 - 0x80)).
Proof.
  unfold decodeRune. destruct s as [|b0 t]; [intros [= <- <-]; auto|].
  pose proof (byte.unsigned_range b0) as R0.
  destruct (byte.unsigned b0 <? 0x80) eqn:E1.
  { intros [= <- <-]. right; left. exists b0, t. repeat split; lia. }
  destruct (byte.unsigned b0 <? 0xC2) eqn:E2; [intros [= <- <-]; auto|].
  destruct (byte.unsigned b0 <? 0xE0) eqn:E3.
  { destruct t as [|b1 t]; [intros [= <- <-]; auto|].
    destruct (inRange 0x80 0xBF b1) eqn:I1; [|intros [= <- <-]; auto].
    apply inRange_spec in I1. intros [= <- <-].
    right; right; left. exists b0, b1, t. repeat split; lia. }
  destruct (byte.unsigned b0 <? 0xF0) eqn:E4.
  { destruct t as [|b1 [|b2 t]]; try (intros [= <- <-]; auto; fail).
    destruct (inRange (secondLo (byte.unsigned b0)) (secondHi (byte.unsigned b0)) b1) eqn:I1;
      [|intros [= <- <-]; auto].
    destruct (inRange 0x80 0xBF b2) eqn:I2; [|intros [= <- <-]; auto].
    apply inRange_spec in I1, I2. simpl. intros [= <- <-].
    right; right; right; left. exists b0, b1, b2, t. repeat split; lia. }
  destruct (byte.unsigned b0 <? 0xF5) eqn:E5; [|intros [= <- <-]; auto].
  destruct t as [|b1 [|b2 [|b3 t]]]; try (intros [= <- <-]; auto; fail).
  destruct (inRange (secondLo (byte.unsigned b0)) (secondHi (byte.unsigned b0)) b1) eqn:I1;
    [|intros [= <- <-]; auto].
  destruct (inRange 0x80 0xBF b2) eqn:I2; [|intros [= <- <-]; auto].
  destruct (inRange 0x80 0xBF b3) eqn:I3; [|intros [= <- <-]; auto].
  apply inRange_spec in I1, I2, I3. simpl. intros [= <- <-].
  right; right; right; right. exists b0, b1, b2, b3, t. repeat split; lia.
Qed.

Lemma second_range (x0 x1 : Z) :
  secondLo x0 <= x1 <= secondHi x0 ->
  0x80 <= x1 <= 0xBF /\ (x0 = 0xE0 -> 0xA0 <= x1) /\ (x0 = 0xF0 -> 0x90 <= x1)
  /\ (x0 = 0xED -> x1 <= 0x9F) /\ (x0 = 0xF4 -> x1 <= 0x8F).
Proof.
  unfold secondLo, secondHi.
  destruct (Z.eqb_spec x0 0xE0), (Z.eqb_spec x0 0xF0), (Z.eqb_spec x0 0xED),
    (Z.eqb_spec x0 0xF4); lia.
Qed.

Lemma decodeRune_size (s : gostring) (r : rune) (n : nat) :
  decodeRune s = (r, n) -> s <> [] -> (1 <= n <= length s)%nat.
Proof.
  intros H Hs. apply decodeRune_cases in H.
  destruct H as [[_ ->]|[(b0 & t & -> & -> & _)|[(b0 & b1 & t & -> & -> & _)|
    [(b0 & b1 & b2 & t & -> & -> & _)|(b0 & b1 & b2 & b3 & t & -> & -> & _)]]]];
    simpl; try lia.
  destruct s; [congruence|simpl; lia].
Qed.

(** A decoded code point below [0x80] is the first byte itself. *)
Lemma decodeRune_ascii (s : gostring) (r : rune) (n : nat) :
  decodeRune s = (r, n) -> r < 0x80 ->
  exists b0 t, s = b0 :: t /\ n = 1%nat /\ r = byte.unsigned b0.
Proof.
  intros H Hr. apply decodeRune_cases in H.
  destruct H as [[-> _]|[(b0 & t & -> & -> & -> & _)|[(b0 & b1 & t & -> & -> & ? & ? & ->)|
    [(b0 & b1 & b2 & t & -> & -> & ? & ? & ? & ->)|
     (b0 & b1 & b2 & b3 & t & -> & -> & ? & ? & ? & ? & ->)]]]].
  - unfold RuneError in Hr. lia.
  - eauto.
  - lia.
  - match goal with H : secondLo _ <= _ <= _ |- _ => apply second_range in H end. lia.
  - match goal with H : secondLo _ <= _ <= _ |- _ => apply second_range in H end. lia.
Qed.

(** ** Encoding undoes decoding on a valid encoding *)

Lemma of_Z_eq (z : Z) (b : byte) : z = byte.unsigned b -> byte.of_Z z = b.
Proof. intros ->. apply byte.of_Z_unsigned. Qed.

Lemma encode_decode (s : gostring) (r : rune) (n : nat) :
  decodeRune s = (r, n) -> validAt s = true -> encodeRune r = firstn n s.
Proof.
  intros H V. unfold validAt in V. rewrite H in V.
  apply decodeRune_cases in H.
  destruct H as [[-> ->]|[(b0 & t & -> & -> & -> & Hr)|[(b0 & b1 & t & -> & -> & H0 & H1 & ->)|
    [(b0 & b1 & b2 & t & -> & -> & H0 & H1 & H2 & ->)|
     (b0 & b1 & b2 & b3 & t & -> & -> & H0 & H1 & H2 & H3 & ->)]]]].
  - discriminate.
  - unfold encodeRune.
    destruct (byte.unsigned b0 <? 0) eqn:E1; [lia|].
    destruct (byte.unsigned b0 <=? 0x7F) eqn:E2; [|lia].
    simpl. f_equal. apply byte.of_Z_unsigned.
  - unfold encodeRune.
    match goal with |- context [if ?r <? 0 then _ else _] => set (cp := r) end.
    assert (Hcp : cp = (byte.unsigned b0 - 0xC0) * 64 + (byte.unsigned b1 - 0x80)) by reflexivity.
    clearbody cp.
    destruct (cp <? 0) eqn:E1; [lia|].
    destruct (cp <=? 0x7F) eqn:E2; [lia|].
    destruct (cp <=? 0x7FF) eqn:E3; [|lia].
    cbn [firstn]. repeat f_equal; apply of_Z_eq; Z.to_euclidean_division_equations; lia.
  - apply second_range in H1. clear V. unfold encodeRune, encode3.
    match goal with |- context [if ?r <? 0 then _ else _] => set (cp := r) end.
    assert (Hcp : cp = (byte.unsigned b0 - 0xE0) * 4096 + (byte.unsigned b1 - 0x80) * 64
                       + (byte.unsigned b2 - 0x80)) by reflexivity.
    clearbody cp.
    destruct (cp <? 0) eqn:E1; [lia|].
    destruct (cp <=? 0x7F) eqn:E2; [lia|].
    destruct (cp <=? 0x7FF) eqn:E3; [lia|].
    destruct (0x10FFFF <? cp) eqn:E4; [lia|].
    destruct ((0xD800 <=? cp) && (cp <=? 0xDFFF)) eqn:E5.
    { apply andb_true_iff in E5. destruct E5 as [E5 E6].
      apply Z.leb_le in E5, E6. lia. }
    destruct (cp <=? 0xFFFF) eqn:E6; [|lia].
    cbn [firstn orb].
    repeat f_equal; apply of_Z_eq; Z.to_euclidean_division_equations; lia.
  - apply second_range in H1. clear V. unfold encodeRune.
    match goal with |- context [if ?r <? 0 then _ else _] => set (cp := r) end.
    assert (Hcp : cp = (byte.unsigned b0 - 0xF0) * 262144 + (byte.unsigned b1 - 0x80) * 4096
                       + (byte.unsigned b2 - 0x80) * 64 + (byte.unsigned b3 - 0x80))
      by reflexivity.
    clearbody cp.
    destruct (cp <? 0) eqn:E1; [lia|].
    destruct (cp <=? 0x7F) eqn:E2; [lia|].
    destruct (cp <=? 0x7FF) eqn:E3; [lia|].
    destruct (0x10FFFF <? cp) eqn:E4; [lia|].
    destruct ((0xD800 <=? cp) && (cp <=? 0xDFFF)) eqn:E5.
    { apply andb_true_iff in E5. destruct E5 as [E5 E6].
      apply Z.leb_le in E5, E6. lia. }
    destruct (cp <=? 0xFFFF) eqn:E6; [lia|].
    cbn [firstn orb].
    repeat f_equal; apply of_Z_eq; Z.to_euclidean_division_equations; lia.
Qed.

(** ** The range loop *)

Lemma rangeFrom_fuel (fuel fuel' : nat) (i : Z) (s : gostring) :
  (length s <= fuel)%nat -> (length s <= fuel')%nat ->
  rangeFrom fuel i s = rangeFrom fuel' i s.
Proof.
  revert fuel' i s. induction fuel as [|fuel IH]; intros fuel' i s H H'.
  - destruct s; [|simpl in H; lia]. destruct fuel'; reflexivity.
  - destruct s as [|b t]; [destruct fuel'; reflexivity|].
    destruct fuel' as [|fuel']; [simpl in H'; lia|].
    cbn [rangeFrom]. destruct (decodeRune (b :: t)) as [r n] eqn:D.
    f_equal. pose proof (decodeRune_size _ _ _ D ltac:(discriminate)) as Hn.
    apply IH; rewrite length_skipn; cbn [length] in *; lia.
Qed.

Lemma rangeFrom_nil (fuel : nat) (i : Z) : rangeFrom fuel i [] = [].
Proof. destruct fuel; reflexivity. Qed.

Lemma rangeFrom_step (i : Z) (s : gostring) (r : rune) (n : nat) :
  s <> [] -> decodeRune s = (r, n) ->
  rangeFrom (length s) i s
  = (i, r) :: rangeFrom (length (skipn n s)) (i + Z.of_nat n) (skipn n s).
Proof.
  intros Hs D. destruct s as [|b t]; [congruence|].
  cbn [length rangeFrom]. rewrite D. f_equal.
  pose proof (decodeRune_size _ _ _ D Hs) as Hn.
  apply rangeFrom_fuel; rewrite ?length_skipn; cbn [length] in *; lia.
Qed.

(** Induction along the iterations of a range loop. *)
Lemma range_ind (P : Z -> gostring -> Prop) :
  (forall i, P i []) ->
  (forall i s r n, s <> [] -> decodeRune s = (r, n) ->
     (1 <= n <= length s)%nat ->
     P (i + Z.of_nat n) (skipn n s) -> P i s) ->
  forall s i, P i s.
Proof.
  intros Hnil Hstep.
  assert (H : forall k s, (length s <= k)%nat -> forall i, P i s).
  { induction k as [|k IH]; intros s Hk i.
    - destruct s; [apply Hnil|cbn [length] in Hk; lia].
    - destruct s as [|b t]; [apply Hnil|].
      destruct (decodeRune (b :: t)) as [r n] eqn:D.
      pose proof (decodeRune_size _ _ _ D ltac:(discriminate)) as Hn.
      apply (Hstep i (b :: t) r n); [discriminate|exact D|exact Hn|].
      apply IH. rewrite length_skipn. cbn [length] in *. lia. }
  intros s i. apply (H (length s)). lia.
Qed.

Lemma validFrom_fuel (fuel fuel' : nat) (s : gostring) :
  (length s <= fuel)%nat -> (length s <= fuel')%nat ->
  validFrom fuel s = validFrom fuel' s.
Proof.
  revert fuel' s. induction fuel as [|fuel IH]; intros fuel' s H H'.
  - destruct s; [|simpl in H; lia]. destruct fuel'; reflexivity.
  - destruct s as [|b t]; [destruct fuel'; reflexivity|].
    destruct fuel' as [|fuel']; [simpl in H'; lia|].
    cbn [validFrom]. f_equal.
    destruct (decodeRune (b :: t)) as [r n] eqn:D.
    pose proof (decodeRune_size _ _ _ D ltac:(discriminate)) as Hn.
    cbn [snd]. apply IH; rewrite length_skipn; cbn [length] in *; lia.
Qed.

Lemma ValidString_step (s : gostring) (r : rune) (n : nat) :
  s <> [] -> decodeRune s = (r, n) ->
  ValidString s = validAt s && ValidString (skipn n s).
Proof.
  intros Hs D. destruct s as [|b t]; [congruence|].
  unfold ValidString. cbn [length validFrom]. rewrite D. cbn [snd]. f_equal.
  pose proof (decodeRune_size _ _ _ D Hs) as Hn.
  apply validFrom_fuel; rewrite ?length_skipn; cbn [length] in *; lia.
Qed.

(** On valid UTF-8, writing back every decoded code point gives the string. *)
Lemma encode_runes_valid (s : gostring) (i : Z) :
  ValidString s = true ->
  concat (map encodeRune (map snd (rangeFrom (length s) i s))) = s.
Proof.
  revert s i. apply (range_ind (fun i s => ValidString s = true ->
    concat (map encodeRune (map snd (rangeFrom (length s) i s))) = s)).
  - reflexivity.
  - intros i s r n Hs D Hn IH V.
    rewrite (ValidString_step s r n Hs D) in V. apply andb_true_iff in V.
    destruct V as [V1 V2].
    rewrite (rangeFrom_step i s r n Hs D). cbn [map snd concat].
    rewrite (encode_decode s r n D V1), (IH V2). apply firstn_skipn.
Qed.

Lemma ContainsByte_skipn (s : gostring) (b : byte) (n : nat) :
  ContainsByte s b = false -> ContainsByte (skipn n s) b = false.
Proof.
  unfold ContainsByte. revert s. induction n as [|n IH]; intros s H; [exact H|].
  destruct s as [|c t]; [reflexivity|]. simpl in H. apply orb_false_iff in H.
  simpl. apply IH. tauto.
Qed.

(** A string without the byte [b < 0x80] has no code point [b]. *)
Lemma runes_without_byte (b : byte) (s : gostring) (i : Z) :
  byte.unsigned b < 0x80 ->
  ContainsByte s b = false ->
  Forall (fun c => c <> byte.unsigned b) (map snd (rangeFrom (length s) i s)).
Proof.
  intros Hb. revert s i. apply (range_ind (fun i s => ContainsByte s b = false ->
    Forall (fun c => c <> byte.unsigned b) (map snd (rangeFrom (length s) i s)))).
  - intros i _. constructor.
  - intros i s r n Hs D Hn IH C.
    rewrite (rangeFrom_step i s r n Hs D). cbn [map snd]. constructor.
    + intros ->. destruct (decodeRune_ascii _ _ _ D Hb) as (b0 & t & -> & _ & E).
      unfold ContainsByte in C. simpl in C. apply orb_false_iff in C.
      destruct C as [C _]. unfold byte_eqb in C. apply Z.eqb_neq in C. congruence.
    + apply IH. apply ContainsByte_skipn. exact C.
Qed.

(** The offsets a range loop yields lie inside the string. *)
Lemma rangeFrom_offsets (s : gostring) (i : Z) :
  Forall (fun ic => i <= fst ic < i + len s) (rangeFrom (length s) i s).
Proof.
  revert s i. apply (range_ind (fun i s =>
    Forall (fun ic => i <= fst ic < i + len s) (rangeFrom (length s) i s))).
  - intros i. constructor.
  - intros i s r n Hs D Hn IH.
    rewrite (rangeFrom_step i s r n Hs D). constructor.
    + simpl. unfold len. lia.
    + eapply Forall_impl; [|exact IH]. intros [j c]. simpl.
      unfold len. rewrite length_skipn. lia.
Qed.

(* ================================================================= *)
(** * Part IV: the summary text *)
(* ================================================================= *)

(** C6: [plural] of a count of 1 is "1 <noun>" and of any other count [n] is
    "<n> <noun>s"; the summary is "no errors" when both counters are zero,
    the errors phrase when only warnings are zero, the warnings phrase when
    only errors are zero, and "<warnings> and <errors>" otherwise; so 2
    errors and 1 warning give "1 warning and 2 errors".  (The source takes
    the noun first and the count second.) *)
Theorem plural_and_summary (noun : gostring) (n e w : Z) (l : list Msg) (hit : bool) :
  plural noun 1 = str "1 " ++ noun
  /\ (n <> 1 -> plural noun n = fmt_d n ++ str " " ++ noun ++ str "s")
  /\ (e = 0 -> w = 0 -> info_String (mkInfo l e w hit) = str "no errors")
  /\ (e <> 0 -> w = 0 -> info_String (mkInfo l e w hit) = plural (str "error") e)
  /\ (e = 0 -> w <> 0 -> info_String (mkInfo l e w hit) = plural (str "warning") w)
  /\ (e <> 0 -> w <> 0 ->
      info_String (mkInfo l e w hit)
      = plural (str "warning") w ++ str " and " ++ plural (str "error") e)
  /\ plural (str "error") 2 = str "2 errors"
  /\ info_String (mkInfo l 0 0 hit) = str "no errors"
  /\ info_String (mkInfo l 1 0 hit) = str "1 error"
  /\ info_String (mkInfo l 2 1 hit) = str "1 warning and 2 errors".
Proof.
  repeat split; try reflexivity.
  - intros Hn. unfold plural. apply Z.eqb_neq in Hn. rewrite Hn. reflexivity.
  - intros -> ->. reflexivity.
  - intros He ->. unfold info_String. cbn [errors warnings].
    apply Z.eqb_neq in He. rewrite He. reflexivity.
  - intros -> Hw. unfold info_String. cbn [errors warnings].
    apply Z.eqb_neq in Hw. rewrite Hw. reflexivity.
  - intros He Hw. unfold info_String. cbn [errors warnings].
    apply Z.eqb_neq in He, Hw. rewrite He, Hw. reflexivity.
Qed.

Lemma plural_and_summary_witness :
  plural (str "warning") 3 = str "3 warnings"
  /\ info_String (mkInfo [] 0 0 false) = str "no errors"
  /\ info_String (mkInfo [] 5 0 false) = str "5 errors"
  /\ info_String (mkInfo [] 0 1 true) = str "1 warning"
  /\ info_String (mkInfo [] 1 3 false) = str "3 warnings and 1 error".
Proof.
  split; [|split; [|split; [|split]]].
  - destruct (plural_and_summary (str "warning") 3 0 0 [] false) as (_ & H & _).
    rewrite H by lia. reflexivity.
  - destruct (plural_and_summary [] 0 0 0 [] false) as (_ & _ & H & _).
    apply H; reflexivity.
  - destruct (plural_and_summary [] 0 5 0 [] false) as (_ & _ & _ & H & _).
    rewrite H by lia. reflexivity.
  - destruct (plural_and_summary [] 0 0 1 [] true) as (_ & _ & _ & _ & H & _).
    rewrite H by lia. reflexivity.
  - destruct (plural_and_summary [] 0 1 3 [] false) as (_ & _ & _ & _ & _ & H & _).
    rewrite H by lia. reflexivity.
Defined.

(* ================================================================= *)
(** * Part V: the interactive sink *)
(* ================================================================= *)

(** Every step appends exactly the received message to the worker's list. *)
Lemma workerStep_msgs (options : StderrOptions) (ti : TerminalInfo)
  (st st' : stderrLogInfo * list gostring) (msg : Msg) :
  workerStep options ti st msg = Some st' ->
  msgs (fst st') = msgs (fst st) ++ [msg].
Proof.
  destruct st as [result stderr]. unfold workerStep. cbn [errorLimitWasHit msgs fst].
  destruct (errorLimitWasHit result); [intros [= <-]; reflexivity|].
  destruct (Kind msg).
  - destruct (LogLevel_le (LogLevelOpt options) LevelError).
    + destruct (Msg_String msg options ti); [|discriminate]. cbn [bind errors msgs].
      destruct (negb (ErrorLimit options =? 0) && (errors result + 1 >=? ErrorLimit options));
        intros [= <-]; reflexivity.
    + cbn [bind errors msgs].
      destruct (negb (ErrorLimit options =? 0) && (errors result + 1 >=? ErrorLimit options));
        intros [= <-]; reflexivity.
  - destruct (LogLevel_le (LogLevelOpt options) LevelWarning).
    + destruct (Msg_String msg options ti); [|discriminate]. cbn [bind errors msgs].
      destruct (negb (ErrorLimit options =? 0) && (errors result >=? ErrorLimit options));
        destruct (LogLevel_le (LogLevelOpt options) LevelError);
        intros [= <-]; reflexivity.
    + cbn [bind errors msgs].
      destruct (negb (ErrorLimit options =? 0) && (errors result >=? ErrorLimit options));
        destruct (LogLevel_le (LogLevelOpt options) LevelError);
        intros [= <-]; reflexivity.
Qed.

Lemma worker_msgs (options : StderrOptions) (ti : TerminalInfo) (received : list Msg) :
  forall st st', worker options ti st received = Some st' ->
  msgs (fst st') = msgs (fst st) ++ received.
Proof.
  induction received as [|msg received IH]; intros st st' H.
  - injection H as <-. rewrite app_nil_r. reflexivity.
  - cbn [worker] in H. destruct (workerStep options ti st msg) as [st1|] eqn:E;
      [|discriminate]. cbn [bind] in H.
    rewrite (IH _ _ H), (workerStep_msgs _ _ _ _ _ E), <- app_assoc. reflexivity.
Qed.

(** Once the limit is hit the worker only records. *)
Lemma worker_after_limit (options : StderrOptions) (ti : TerminalInfo)
  (received : list Msg) :
  forall l e w stderr,
  worker options ti (mkInfo l e w true, stderr) received
  = Some (mkInfo (l ++ received) e w true, stderr).
Proof.
  induction received as [|msg received IH]; intros l e w stderr.
  - rewrite app_nil_r. reflexivity.
  - cbn [worker workerStep errorLimitWasHit bind msgs errors warnings].
    rewrite IH, <- app_assoc. reflexivity.
Qed.

Lemma worker_cons (options : StderrOptions) (ti : TerminalInfo)
  (st : stderrLogInfo * list gostring) (msg : Msg) (received : list Msg) :
  worker options ti st (msg :: received)
  = bind (workerStep options ti st msg) (fun st' => worker options ti st' received).
Proof. reflexivity. Qed.

(** An error that is printed, before the limit is hit. *)
Lemma workerStep_error (options : StderrOptions) (ti : TerminalInfo)
  (l : list Msg) (e w : Z) (stderr : list gostring) (msg : Msg) (text : gostring) :
  Kind msg = Error ->
  LogLevel_le (LogLevelOpt options) LevelError = true ->
  Msg_String msg options ti = Some text ->
  workerStep options ti (mkInfo l e w false, stderr) msg
  = Some (if negb (ErrorLimit options =? 0) && (e + 1 >=? ErrorLimit options)
          then (mkInfo (l ++ [msg]) (e + 1) w true,
                (stderr ++ [text]) ++ [limitNotice (mkInfo (l ++ [msg]) (e + 1) w true)])
          else (mkInfo (l ++ [msg]) (e + 1) w false, stderr ++ [text])).
Proof.
  intros K HE S. unfold workerStep.
  cbn [errorLimitWasHit msgs errors warnings]. rewrite K, HE, S.
  cbn [bind errorLimitWasHit msgs errors warnings].
  destruct (negb (ErrorLimit options =? 0) && (e + 1 >=? ErrorLimit options)); reflexivity.
Qed.

(** C2: with [ErrorLimit = 2] and a log level that prints errors, five
    errors make the sink write the first two rendered errors and one limit
    notice, nothing for the last three, and the closure still returns all
    five messages; and whatever the options, every message the worker
    received is in the returned list, in order. *)
Theorem error_limit_two_of_five (SupportsColorEscapes : bool) (probed : TerminalInfo)
  (options : StderrOptions) (m1 m2 m3 m4 m5 : Msg) (text1 text2 : gostring) :
  ErrorLimit options = 2 ->
  LogLevel_le (LogLevelOpt options) LevelError = true ->
  Kind m1 = Error -> Kind m2 = Error -> Kind m3 = Error ->
  Kind m4 = Error -> Kind m5 = Error ->
  Msg_String m1 options (sinkTerminalInfo SupportsColorEscapes probed options) = Some text1 ->
  Msg_String m2 options (sinkTerminalInfo SupportsColorEscapes probed options) = Some text2 ->
  NewStderrLog SupportsColorEscapes probed options [m1; m2; m3; m4; m5]
  = Some ([text1; text2;
           str "2 errors reached (disable error limit with --error-limit=0)" ++ newline],
          [m1; m2; m3; m4; m5])
  /\ (forall (opts : StderrOptions) (received returned : list Msg) (out : list gostring),
        NewStderrLog SupportsColorEscapes probed opts received = Some (out, returned) ->
        returned = received).
Proof.
  intros HL HE K1 K2 K3 K4 K5 S1 S2. split.
  - unfold NewStderrLog, startState.
    rewrite worker_cons, (workerStep_error _ _ _ _ _ _ _ _ K1 HE S1), HL. cbn [bind].
    change (negb (2 =? 0) && (0 + 1 >=? 2)) with false. cbv iota.
    rewrite worker_cons, (workerStep_error _ _ _ _ _ _ _ _ K2 HE S2), HL. cbn [bind].
    change (negb (2 =? 0) && (0 + 1 + 1 >=? 2)) with true. cbv iota.
    rewrite (worker_after_limit options _ [m3; m4; m5]).
    cbn [bind join errorLimitWasHit negb andb msgs]. reflexivity.
  - intros opts received returned out H. unfold NewStderrLog in H.
    destruct (worker opts (sinkTerminalInfo SupportsColorEscapes probed opts)
                startState received) as [[result stderr]|] eqn:W; [|discriminate].
    cbn [bind join] in H. injection H as _ <-.
    apply worker_msgs in W. exact W.
Qed.

Lemma error_limit_two_of_five_witness :
  NewStderrLog true (mkTerminalInfo true true 80)
    (mkOptions true 2 ColorNever LevelWarning)
    (map (AddError None (mkLoc 0)) [str "a"; str "b"; str "c"; str "d"; str "e"])
  = Some ([str "error: a" ++ newline; str "error: b" ++ newline;
           str "2 errors reached (disable error limit with --error-limit=0)" ++ newline],
          map (AddError None (mkLoc 0)) [str "a"; str "b"; str "c"; str "d"; str "e"]).
Proof.
  apply (error_limit_two_of_five true (mkTerminalInfo true true 80)
           (mkOptions true 2 ColorNever LevelWarning)); reflexivity.
Defined.

(** C7: once the worker has drained, the closure writes the summary line
    "<summary>\n" exactly when the error limit was never hit, the log level
    is at most [LevelInfo] and some error or warning was counted; otherwise
    it writes nothing more. *)
Theorem summary_line_iff (SupportsColorEscapes : bool) (probed : TerminalInfo)
  (options : StderrOptions) (received : list Msg)
  (result : stderrLogInfo) (stderr : list gostring) :
  worker options (sinkTerminalInfo SupportsColorEscapes probed options) startState received
  = Some (result, stderr) ->
  let wanted :=
    errorLimitWasHit result = false
    /\ LogLevel_le (LogLevelOpt options) LevelInfo = true
    /\ (errors result <> 0 \/ warnings result <> 0) in
  (wanted ->
   NewStderrLog SupportsColorEscapes probed options received
   = Some (stderr ++ [info_String result ++ newline], msgs result))
  /\ (~ wanted ->
      NewStderrLog SupportsColorEscapes probed options received
      = Some (stderr, msgs result)).
Proof.
  intros W wanted. unfold NewStderrLog. rewrite W. cbn [bind join]. subst wanted.
  split.
  - intros (H1 & H2 & H3). rewrite H1, H2. cbn [negb andb].
    destruct (Z.eqb_spec (warnings result) 0), (Z.eqb_spec (errors result) 0);
      cbn [negb orb]; try reflexivity. lia.
  - intros N.
    destruct (errorLimitWasHit result) eqn:H1; [reflexivity|].
    destruct (LogLevel_le (LogLevelOpt options) LevelInfo) eqn:H2; [|reflexivity].
    destruct (Z.eqb_spec (warnings result) 0), (Z.eqb_spec (errors result) 0);
      cbn [negb orb andb]; try reflexivity; exfalso; apply N; repeat split; lia.
Qed.

Lemma summary_line_iff_witness :
  NewStderrLog false (mkTerminalInfo false false 0)
    (mkOptions false 0 ColorIfTerminal LevelInfo)
    [AddWarning None (mkLoc 0) (str "w"); AddError None (mkLoc 0) (str "e")]
  = Some ([str "warning: w" ++ newline; str "error: e" ++ newline;
           str "1 warning and 1 error" ++ newline],
          [AddWarning None (mkLoc 0) (str "w"); AddError None (mkLoc 0) (str "e")]).
Proof.
  refine (proj1 (summary_line_iff false (mkTerminalInfo false false 0)
           (mkOptions false 0 ColorIfTerminal LevelInfo)
           [AddWarning None (mkLoc 0) (str "w"); AddError None (mkLoc 0) (str "e")]
           (mkInfo [AddWarning None (mkLoc 0) (str "w"); AddError None (mkLoc 0) (str "e")]
                   1 1 false)
           [str "warning: w" ++ newline; str "error: e" ++ newline] _) _).
  - reflexivity.
  - cbn [errorLimitWasHit errors warnings LogLevelOpt]. repeat split. left. lia.
Defined.

(* ================================================================= *)
(** * Part VI: lines and columns *)
(* ================================================================= *)

Lemma lineStep_count (l : list (Z * rune)) (st : Z * Z * rune) :
  fst (fst (fold_left lineStep l st))
  = fst (fst st) + countBareLineFeeds (snd st) (map snd l).
Proof.
  revert st. induction l as [|[i c] l IH]; intros [[lineCount lastLineStart] prev].
  - simpl. lia.
  - cbn [fold_left]. rewrite IH. unfold lineStep.
    cbn [map snd fst countBareLineFeeds].
    destruct (c =? 10) eqn:E1.
    + destruct (prev =? 13); cbn [negb andb fst snd]; lia.
    + destruct ((c =? 13) || (c =? 8232) || (c =? 8233)); cbn [andb fst snd]; lia.
Qed.

(** What the loop counts: the line feeds that do not follow a carriage
    return, and nothing else. *)
Lemma ComputeLineAndColumn_lineCount (text : gostring) :
  fst (fst (ComputeLineAndColumn text)) = countBareLineFeeds 0 (runes text).
Proof.
  unfold ComputeLineAndColumn, runes.
  pose proof (lineStep_count (go_range text) lineStart0) as H. revert H.
  destruct (fold_left lineStep (go_range text) lineStart0) as [[lc ls] p].
  cbn [fst snd lineStart0]. lia.
Qed.

(** The last line start lies inside the scanned text. *)
Lemma lineStep_start (l : list (Z * rune)) (n : Z) :
  Forall (fun ic => 0 <= fst ic < n) l ->
  forall st : Z * Z * rune,
  0 <= snd (fst st) <= n ->
  0 <= snd (fst (fold_left lineStep l st)) <= n.
Proof.
  induction 1 as [|[i c] l Hi Hl IH]; intros [[lineCount lastLineStart] prev] Hs.
  - exact Hs.
  - cbn [fold_left]. apply IH. unfold lineStep. cbn [fst snd] in *.
    destruct (c =? 10); [cbn [fst snd]; lia|].
    destruct ((c =? 13) || (c =? 8232) || (c =? 8233)); cbn [fst snd]; lia.
Qed.

Lemma ComputeLineAndColumn_bounds (text : gostring) (lineCount columnCount lineStart : Z) :
  ComputeLineAndColumn text = (lineCount, columnCount, lineStart) ->
  0 <= lineStart <= len text /\ columnCount = len text - lineStart.
Proof.
  unfold ComputeLineAndColumn.
  pose proof (lineStep_start (go_range text) (len text) (rangeFrom_offsets text 0)
                lineStart0 ltac:(pose proof (len_nonneg text); cbn; lia)) as H.
  revert H.
  destruct (fold_left lineStep (go_range text) lineStart0) as [[lc ls] p].
  cbn [fst snd]. intros H [= <- <- <-]. split; [exact H|reflexivity].
Qed.

(** C1 (the source breaks it): in "a\r\nb" the offset of 'b' is reported on
    line 1.  The loop adds to [lineCount] only in the case of a line feed,
    and there only when the previous code point is not a carriage return; the
    cases of carriage return, U+2028 and U+2029 move [lastLineStart] and
    count nothing.  So "\r\n" counts no line at all, where the
    specification counts one, and a lone "\r", U+2028 or U+2029 counts none
    either. *)
Theorem ComputeLineAndColumn_crlf_not_counted :
  let a_cr_lf := str "a" ++ [Byte.x0d; Byte.x0a] in
  let source := mkSource 0 (str "/a.js") (str "a.js") (a_cr_lf ++ str "b") in
  ComputeLineAndColumn a_cr_lf = (0, 0, 3)
  /\ countLineBreaks 0 (runes a_cr_lf) = 1
  /\ option_map Line
       (detailStruct (mkMsg (Some source) 3 0 (str "x") Error) (mkTerminalInfo false false 0))
     = Some 1
  /\ ComputeLineAndColumn (str "a" ++ [Byte.x0d] ++ str "b") = (0, 1, 2)
  /\ fst (fst (ComputeLineAndColumn (str "a" ++ [Byte.xe2; Byte.x80; Byte.xa8] ++ str "b"))) = 0
  /\ fst (fst (ComputeLineAndColumn (str "a" ++ [Byte.xe2; Byte.x80; Byte.xa9] ++ str "b"))) = 0
  /\ ComputeLineAndColumn (str "a" ++ [Byte.x0a] ++ str "b") = (1, 1, 2).
Proof. vm_compute. repeat split. Qed.

(* ================================================================= *)
(** * Part VII: the range of a quoted string *)
(* ================================================================= *)

Lemma ClosingQuote_bound (q : byte) (rest : gostring) (k : Z) :
  ClosingQuote q rest k -> 0 <= k < len rest.
Proof.
  induction 1; rewrite ?len_cons; try pose proof (len_nonneg rest); lia.
Qed.

(** The closing quote is a quote. *)
Lemma ClosingQuote_nth (q : byte) (rest : gostring) (k : Z) :
  ClosingQuote q rest k -> nth_error rest (Z.to_nat k) = Some q.
Proof.
  induction 1 as [rest|c rest k H IH|c rest k Hq Hb H IH].
  - reflexivity.
  - pose proof (ClosingQuote_bound _ _ _ H).
    replace (Z.to_nat (k + 2)) with (S (S (Z.to_nat k))) by lia. exact IH.
  - pose proof (ClosingQuote_bound _ _ _ H).
    replace (Z.to_nat (k + 1)) with (S (Z.to_nat k)) by lia. exact IH.
Qed.

(** The loop finds the closing quote the specification describes. *)
Lemma scanQuote_sound (q : byte) (rest : gostring) (k : Z) :
  q <> byteBackslash -> ClosingQuote q rest k ->
  forall i, scanQuote q rest i = Some (i + k + 1).
Proof.
  intros Hq. induction 1 as [rest|c rest k H IH|c rest k Hc Hb H IH]; intros i.
  - cbn [scanQuote]. rewrite byte_eqb_refl. f_equal. lia.
  - cbn [scanQuote].
    assert (E : byte_eqb byteBackslash q = false) by (apply byte_eqb_neq; congruence).
    rewrite E, byte_eqb_refl, IH. f_equal. lia.
  - cbn [scanQuote].
    apply byte_eqb_neq in Hc, Hb. rewrite Hc, Hb, IH. f_equal. lia.
Qed.

(** And it finds nothing else. *)
Lemma scanQuote_complete (q : byte) (rest : gostring) :
  (forall i n, scanQuote q rest i = Some n ->
     exists k, ClosingQuote q rest k /\ n = i + k + 1)
  /\ (forall c i n, scanQuote q (c :: rest) i = Some n ->
        exists k, ClosingQuote q (c :: rest) k /\ n = i + k + 1).
Proof.
  induction rest as [|d rest [IH1 IH2]].
  - split; [discriminate|].
    intros c i n. cbn [scanQuote].
    destruct (byte_eqb c q) eqn:E1.
    + apply byte_eqb_eq in E1. subst c. intros [= <-].
      exists 0. split; [constructor|lia].
    + destruct (byte_eqb c byteBackslash); discriminate.
  - split; [apply IH2|].
    intros c i n. cbn [scanQuote].
    destruct (byte_eqb c q) eqn:E1.
    + apply byte_eqb_eq in E1. subst c. intros [= <-].
      exists 0. split; [constructor|lia].
    + destruct (byte_eqb c byteBackslash) eqn:E2.
      * apply byte_eqb_eq in E2. subst c. intros H.
        destruct (IH1 _ _ H) as (k & Hk & ->).
        exists (k + 2). split; [constructor; exact Hk|lia].
      * intros H. change (scanQuote q (d :: rest) (i + 1) = Some n) in H.
        destruct (IH2 _ _ _ H) as (k & Hk & ->).
        apply byte_eqb_neq in E1, E2.
        exists (k + 1). split; [constructor; assumption|lia].
Qed.

Lemma isQuote_test (q : byte) :
  byte_eqb q byteDQuote || byte_eqb q byteSQuote = true <-> isQuote q.
Proof.
  unfold isQuote. rewrite orb_true_iff, !byte_eqb_eq. tauto.
Qed.

Lemma isQuote_not_backslash (q : byte) : isQuote q -> q <> byteBackslash.
Proof. intros [-> | ->]; discriminate. Qed.

(** C5: at a location inside the contents (of a source that [int32] offsets
    can address), [RangeOfString] returns the range from the opening quote
    through the matching unescaped closing quote when the byte at the
    location is a double or single quote and a match exists, a backslash
    making the scan skip the next byte untested; and it returns a range of
    length zero when the remaining text is empty, does not start with a
    quote, or has no matching quote.  For the six bytes of the literal made
    of a quote, a, a backslash, a quote, b and a quote, the range covers all
    six. *)
Theorem RangeOfString_spec (s : Source) (loc : Loc) :
  0 <= LocStart loc <= len (Contents s) ->
  len (Contents s) < 2 ^ 31 ->
  let text := skipn (Z.to_nat (LocStart loc)) (Contents s) in
  (text = [] -> RangeOfString s loc = Some (mkRange loc 0))
  /\ (forall q rest, text = q :: rest -> ~ isQuote q ->
        RangeOfString s loc = Some (mkRange loc 0))
  /\ (forall q rest k, text = q :: rest -> isQuote q -> ClosingQuote q rest k ->
        RangeOfString s loc = Some (mkRange loc (k + 2))
        /\ nth_error text (Z.to_nat (k + 1)) = Some q
        /\ LocStart loc + (k + 2) <= len (Contents s))
  /\ (forall q rest, text = q :: rest -> isQuote q ->
        (forall k, ~ ClosingQuote q rest k) ->
        RangeOfString s loc = Some (mkRange loc 0))
  /\ RangeOfString
       (mkSource 0 [] [] (str "x = " ++ [byteDQuote] ++ str "a" ++ [byteBackslash; byteDQuote]
                          ++ str "b" ++ [byteDQuote] ++ str ";"))
       (mkLoc 4)
     = Some (mkRange (mkLoc 4) 6).
Proof.
  intros Hloc Hlen text. unfold RangeOfString.
  rewrite (sliceFrom_Some _ _ Hloc). fold text. cbn [bind].
  assert (Htext : len text = len (Contents s) - LocStart loc).
  { unfold text, len. rewrite length_skipn. unfold len in Hloc. lia. }
  repeat split.
  - intros ->. reflexivity.
  - intros q rest -> Hq. rewrite <- isQuote_test in Hq.
    destruct (byte_eqb q byteDQuote || byte_eqb q byteSQuote); [congruence|reflexivity].
  - rewrite H. apply isQuote_test in H0. rewrite H0.
    rewrite (scanQuote_sound q rest k (isQuote_not_backslash q (proj1 (isQuote_test q) H0)) H1).
    pose proof (ClosingQuote_bound _ _ _ H1) as B.
    rewrite H, len_cons in Htext.
    rewrite int32_small by lia. do 2 f_equal. lia.
  - rewrite H. pose proof (ClosingQuote_bound _ _ _ H1) as B.
    replace (Z.to_nat (k + 1)) with (S (Z.to_nat k)) by lia.
    cbn [nth_error]. apply ClosingQuote_nth. exact H1.
  - pose proof (ClosingQuote_bound _ _ _ H1) as B.
    rewrite H, len_cons in Htext. lia.
  - intros q rest -> Hq Hno. apply isQuote_test in Hq. rewrite Hq.
    destruct (scanQuote q rest 1) as [n|] eqn:E; [|reflexivity].
    destruct (proj1 (scanQuote_complete q rest) _ _ E) as (k & Hk & _).
    destruct (Hno k Hk).
Qed.

Lemma RangeOfString_spec_witness :
  RangeOfString (mkSource 0 [] [] (str "f('it\'s', 1)")) (mkLoc 2)
  = Some (mkRange (mkLoc 2) 7).
Proof.
  refine (proj1 (proj1 (proj2 (proj2
    (RangeOfString_spec (mkSource 0 [] [] (str "f('it\'s', 1)")) (mkLoc 2) _ _)))
    byteSQuote (str "it\'s', 1)") 5 eq_refl (or_intror eq_refl) _)).
  - cbn. lia.
  - cbn. lia.
  - apply (ClosingQuote_plain _ _ _ 4); [discriminate|discriminate|].
    apply (ClosingQuote_plain _ _ _ 3); [discriminate|discriminate|].
    apply (ClosingQuote_escaped _ _ _ 1).
    apply (ClosingQuote_plain _ _ _ 0); [discriminate|discriminate|].
    apply ClosingQuote_here.
Defined.

(* ================================================================= *)
(** * Part VIII: tab stops *)
(* ================================================================= *)

Lemma writeSpaces_spec (n : nat) :
  forall withoutTabs count,
  writeSpaces n withoutTabs count
  = (withoutTabs ++ repeat byteSpace n, count + Z.of_nat n).
Proof.
  induction n as [|n IH]; intros withoutTabs count.
  - cbn [writeSpaces repeat]. rewrite app_nil_r. f_equal. lia.
  - cbn [writeSpaces repeat]. rewrite IH, <- app_assoc. cbn [app]. f_equal. lia.
Qed.

(** From a column that is not negative the next tab stop is one or two
    columns away and is a multiple of two. *)
Lemma nextTabStop_spec (col : Z) :
  0 <= col ->
  (nextTabStop col - col = 1 \/ nextTabStop col - col = 2)
  /\ nextTabStop col mod 2 = 0
  /\ nextTabStop col - col = 2 - Z.rem col 2.
Proof.
  intros H. unfold nextTabStop. rewrite Z.rem_mod_nonneg by lia.
  Z.to_euclidean_division_equations. lia.
Qed.

(** With tab width 2 the loop of [renderTabStops] is the column-by-column
    expansion. *)
Lemma tabLoop_expandTabs (cs : list rune) :
  forall withoutTabs count, 0 <= count ->
  tabLoop 2 cs withoutTabs count = Some (withoutTabs ++ expandTabs count cs).
Proof.
  induction cs as [|c cs IH]; intros withoutTabs count Hc.
  - cbn [tabLoop expandTabs]. rewrite app_nil_r. reflexivity.
  - cbn [tabLoop expandTabs]. destruct (c =? 9).
    + change (2 =? 0) with false. cbv iota.
      destruct (nextTabStop_spec count Hc) as (H12 & _ & E).
      rewrite <- E, writeSpaces_spec, IH by lia.
      rewrite Z2Nat.id by lia.
      replace (count + (nextTabStop count - count)) with (nextTabStop count) by lia.
      rewrite <- app_assoc. reflexivity.
    + rewrite IH by lia. rewrite <- app_assoc. reflexivity.
Qed.

(** Without a tab among the code points the loop only re-encodes, whatever
    the tab width. *)
Lemma tabLoop_no_tab (spacesPerTab : Z) (cs : list rune) :
  Forall (fun c => c <> 9) cs ->
  forall withoutTabs count,
  tabLoop spacesPerTab cs withoutTabs count
  = Some (withoutTabs ++ concat (map encodeRune cs)).
Proof.
  induction 1 as [|c cs Hc Hcs IH]; intros withoutTabs count.
  - cbn [tabLoop map concat]. rewrite app_nil_r. reflexivity.
  - cbn [tabLoop map concat]. apply Z.eqb_neq in Hc. rewrite Hc, IH, <- app_assoc.
    reflexivity.
Qed.

(** With a tab width that is not zero the loop never panics. *)
Lemma tabLoop_total (spacesPerTab : Z) (cs : list rune) :
  spacesPerTab <> 0 ->
  forall withoutTabs count, exists out, tabLoop spacesPerTab cs withoutTabs count = Some out.
Proof.
  intros Hs. induction cs as [|c cs IH]; intros withoutTabs count.
  - eexists. reflexivity.
  - cbn [tabLoop]. apply Z.eqb_neq in Hs. rewrite Hs. destruct (c =? 9).
    + destruct (writeSpaces _ withoutTabs count) as [w c']. apply IH.
    + apply IH.
Qed.

Lemma renderTabStops_loop_no_tab (s : gostring) (spacesPerTab : Z) :
  ContainsByte s byteTab = false ->
  renderTabStops_loop s spacesPerTab = Some (concat (map encodeRune (runes s))).
Proof.
  intros H. unfold renderTabStops_loop.
  rewrite tabLoop_no_tab; [reflexivity|].
  apply (runes_without_byte byteTab s 0); [reflexivity|exact H].
Qed.

(** C10, as far as it holds: without a tab [renderTabStops] returns its
    input unchanged; on an input that is valid UTF-8 this is what the
    general loop alone computes, so the function and the plain loop agree on
    every valid UTF-8 input, for every tab width from 1 on, and then neither
    panics.  On other inputs the loop alone re-encodes what it decoded. *)
Theorem renderTabStops_fast_path (s : gostring) (spacesPerTab : Z) :
  (ContainsByte s byteTab = false -> renderTabStops s spacesPerTab = Some s)
  /\ (ContainsByte s byteTab = false ->
      renderTabStops_loop s spacesPerTab = Some (concat (map encodeRune (runes s))))
  /\ (ValidString s = true -> 1 <= spacesPerTab ->
      renderTabStops s spacesPerTab = renderTabStops_loop s spacesPerTab
      /\ exists out, renderTabStops s spacesPerTab = Some out).
Proof.
  split; [|split].
  - intros H. unfold renderTabStops. rewrite H. reflexivity.
  - apply renderTabStops_loop_no_tab.
  - intros V Hs. unfold renderTabStops.
    destruct (ContainsByte s byteTab) eqn:C; cbn [negb].
    + split; [reflexivity|]. apply tabLoop_total. lia.
    + rewrite (renderTabStops_loop_no_tab s spacesPerTab C).
      unfold runes, go_range. rewrite encode_runes_valid by exact V.
      split; [reflexivity|eexists; reflexivity].
Qed.

Lemma renderTabStops_fast_path_witness :
  renderTabStops (str "a" ++ [Byte.xc3; Byte.xa9] ++ str "b") 4
  = renderTabStops_loop (str "a" ++ [Byte.xc3; Byte.xa9] ++ str "b") 4
  /\ renderTabStops (str "ab") 4 = Some (str "ab").
Proof.
  split.
  - refine (proj1 (proj2 (proj2 (renderTabStops_fast_path
      (str "a" ++ [Byte.xc3; Byte.xa9] ++ str "b") 4)) _ _)).
    + reflexivity.
    + lia.
  - refine (proj1 (renderTabStops_fast_path (str "ab") 4) _). reflexivity.
Defined.

(** C10 as stated fails: on the single byte 0xFF, which is not UTF-8 and
    holds no tab, [renderTabStops] returns the byte and the loop alone
    writes U+FFFD. *)
Lemma renderTabStops_loop_differs :
  ~ (forall (s : gostring) (spacesPerTab : Z), 1 <= spacesPerTab ->
       renderTabStops s spacesPerTab = renderTabStops_loop s spacesPerTab).
Proof.
  intros H. specialize (H [Byte.xff] 2 ltac:(lia)). vm_compute in H. discriminate H.
Qed.

Lemma expandTabs_no_tab (cs : list rune) :
  Forall (fun c => c <> 9) cs ->
  forall col, expandTabs col cs = concat (map encodeRune cs).
Proof.
  induction 1 as [|c cs Hc Hcs IH]; intros col; [reflexivity|].
  cbn [expandTabs map concat]. apply Z.eqb_neq in Hc. rewrite Hc, IH. reflexivity.
Qed.

Lemma renderTabStops_two (line : gostring) :
  exists lineText, renderTabStops line 2 = Some lineText
  /\ (ContainsByte line byteTab = false -> lineText = line)
  /\ (ContainsByte line byteTab = true -> lineText = expandTabs 0 (runes line)).
Proof.
  unfold renderTabStops, renderTabStops_loop.
  destruct (ContainsByte line byteTab); cbn [negb].
  - rewrite tabLoop_expandTabs by lia. eexists. split; [reflexivity|].
    split; [discriminate|reflexivity].
  - eexists. split; [reflexivity|]. split; [reflexivity|discriminate].
Qed.

(** Without trimming, the fields of the detail in terms of the raw column
    and of the expanded texts. *)
Lemma detailStruct_untrimmed (msg : Msg) (terminalInfo : TerminalInfo) (d : MsgDetail) :
  Width terminalInfo = 0 ->
  detailStruct msg terminalInfo = Some d ->
  exists source toStart expandedToStart line,
    MsgSource msg = Some source
    /\ 0 <= Column d <= Start msg
    /\ slice (Contents source) (Start msg - Column d) (Start msg) = Some toStart
    /\ renderTabStops toStart 2 = Some expandedToStart
    /\ Indent d = repeat byteSpace (Z.to_nat (len expandedToStart))
    /\ renderTabStops line 2 = Some (DSource d)
    /\ len (SourceBefore d) = Z.min (len expandedToStart) (len (DSource d))
    /\ (0 < Length msg ->
        exists toEnd expandedToEnd,
          slice (Contents source) (Start msg - Column d) (int32 (Start msg + Length msg))
          = Some toEnd
          /\ renderTabStops toEnd 2 = Some expandedToEnd
          /\ len (SourceBefore d) + len (SourceMarked d)
             = Z.max (len (SourceBefore d)) (Z.min (len expandedToEnd) (len (DSource d))))
    /\ SourceBefore d ++ SourceMarked d ++ SourceAfter d = DSource d.
Proof.
  intros HW H. unfold detailStruct in H.
  bind_inv H. rename s into source.
  bind_inv H. rename g into before.
  destruct (ComputeLineAndColumn before) as [[lineCount columnCount] lineStart] eqn:LC.
  bind_inv H. rename g into rest.
  bind_inv H. rename g into line.
  bind_inv H. rename g into lineText.
  bind_inv H. rename g into toStart.
  bind_inv H. rename g into expandedToStart.
  bind_inv H. rename g into indent.
  bind_inv H. rename z into markerEnd0.
  rewrite HW in H. change (0 >? 0) with false in H. cbn [andb bind] in H.
  bind_inv H. rename g into marker.
  bind_inv H. rename g into sourceBefore.
  bind_inv H. rename g into sourceMarked.
  bind_inv H. rename g into sourceAfter.
  injection H as <-. cbn [Column Indent DSource SourceBefore SourceMarked SourceAfter].
  pose proof (ComputeLineAndColumn_bounds _ _ _ _ LC) as [Hls Hcc].
  pose proof (slice_len _ _ _ _ E0) as Hb. rewrite Hb, Z.sub_0_r in Hcc, Hls.
  pose proof (len_nonneg expandedToStart) as He.
  rewrite Repeat_space in E6 by lia. injection E6 as <-.
  assert (Hind : len (repeat byteSpace (Z.to_nat (len expandedToStart)))
                 = len expandedToStart).
  { unfold len at 1. rewrite repeat_length. lia. }
  rewrite Hind in *.
  replace (Start msg - columnCount) with lineStart by lia.
  exists source, toStart, expandedToStart, line.
  split; [reflexivity|]. split; [lia|]. split; [exact E4|].
  split; [exact E5|]. split; [reflexivity|]. split; [exact E3|].
  pose proof (slice_len _ _ _ _ E9) as L1. rewrite Z.sub_0_r in L1.
  pose proof (slice_len _ _ _ _ E10) as L2.
  split; [|split].
  - rewrite L1. destruct (len expandedToStart >? len lineText) eqn:G; lia.
  - intros HLen. destruct (Length msg >? 0) eqn:G; [|lia].
    bind_inv E7. rename g into toEnd. bind_inv E7. rename g into expandedToEnd.
    injection E7 as <-. exists toEnd, expandedToEnd.
    split; [first [exact E6|reflexivity]|]. split; [first [exact E12|reflexivity]|].
    rewrite L1, L2.
    destruct (len expandedToStart >? len lineText) eqn:G1;
      destruct (len expandedToEnd >? len lineText) eqn:G2;
      match goal with |- context [if ?x <? ?y then _ else _] =>
        destruct (x <? y) eqn:G3 end; lia.
  - apply slice_inv in E9, E10, E11.
    destruct E9 as (A1 & A2 & A3 & ->), E10 as (B1 & B2 & B3 & ->),
      E11 as (C1 & C2 & C3 & ->).
    set (a := if len expandedToStart >? len lineText then len lineText
              else len expandedToStart) in *.
    set (b := if (if markerEnd0 >? len lineText then len lineText else markerEnd0) <? a
              then a else if markerEnd0 >? len lineText then len lineText else markerEnd0)
      in *.
    rewrite Z.sub_0_r. cbn [Z.to_nat skipn].
    rewrite (firstn_all2 (skipn (Z.to_nat b) lineText))
      by (rewrite length_skipn; unfold len; lia).
    rewrite <- (firstn_skipn (Z.to_nat a) lineText) at 4. f_equal.
    rewrite <- (firstn_skipn (Z.to_nat (b - a)) (skipn (Z.to_nat a) lineText)) at 2.
    f_equal. rewrite skipn_skipn. f_equal. lia.
Qed.

(** C8: tab expansion uses the fixed width 2.  For every line, each tab
    moves the column to the next multiple of 2, writing one or two spaces,
    and every other code point is written back and moves the column by one;
    on valid UTF-8 the written bytes are the bytes read.  A tab followed by
    x expands to two spaces and x.  In the detail, the indent is as long as
    the expansion of the text between the line start and the location, not
    as the raw column. *)
Theorem tab_expansion_width_two (line : gostring) :
  (exists lineText, renderTabStops line 2 = Some lineText
     /\ (ContainsByte line byteTab = false -> lineText = line)
     /\ (ContainsByte line byteTab = true -> lineText = expandTabs 0 (runes line))
     /\ (ValidString line = true ->
         lineText = expandTabs 0 (runes line)
         /\ concat (map encodeRune (runes line)) = line))
  /\ (forall col, 0 <= col ->
        (nextTabStop col - col = 1 \/ nextTabStop col - col = 2)
        /\ nextTabStop col mod 2 = 0)
  /\ renderTabStops ([byteTab] ++ str "x") 2 = Some (str "  x")
  /\ (forall msg terminalInfo d,
        Width terminalInfo = 0 ->
        detailStruct msg terminalInfo = Some d ->
        exists source toStart expandedToStart rawLine,
          MsgSource msg = Some source
          /\ 0 <= Column d <= Start msg
          /\ slice (Contents source) (Start msg - Column d) (Start msg) = Some toStart
          /\ renderTabStops toStart 2 = Some expandedToStart
          /\ Indent d = repeat byteSpace (Z.to_nat (len expandedToStart))
          /\ renderTabStops rawLine 2 = Some (DSource d)
          /\ len (SourceBefore d) = Z.min (len expandedToStart) (len (DSource d))
          /\ (0 < Length msg ->
              exists toEnd expandedToEnd,
                slice (Contents source) (Start msg - Column d)
                  (int32 (Start msg + Length msg)) = Some toEnd
                /\ renderTabStops toEnd 2 = Some expandedToEnd
                /\ len (SourceBefore d) + len (SourceMarked d)
                   = Z.max (len (SourceBefore d))
                       (Z.min (len expandedToEnd) (len (DSource d))))
          /\ SourceBefore d ++ SourceMarked d ++ SourceAfter d = DSource d)
  /\ option_map (fun d => (Column d, Indent d, SourceBefore d, SourceMarked d, Marker d))
       (detailStruct (mkMsg (Some (mkSource 0 [] (str "a.js") ([byteTab] ++ str "x;")))
                        1 1 (str "m") Error)
          (mkTerminalInfo false false 0))
     = Some (1, str "  ", str "  ", str "x", str "^").
Proof.
  split; [|split; [|split; [|split]]].
  - destruct (renderTabStops_two line) as (lineText & E & H1 & H2).
    exists lineText. repeat split; try assumption.
    + destruct (ContainsByte line byteTab) eqn:C; [apply H2; reflexivity|].
      rewrite (H1 eq_refl).
      rewrite expandTabs_no_tab
        by (apply (runes_without_byte byteTab line 0); [reflexivity|exact C]).
      symmetry. apply encode_runes_valid. exact H.
    + apply encode_runes_valid. exact H.
  - intros col Hc. destruct (nextTabStop_spec col Hc) as (A & B & _). split; assumption.
  - reflexivity.
  - intros msg terminalInfo d HW H. apply (detailStruct_untrimmed msg terminalInfo d HW H).
  - reflexivity.
Qed.

Lemma tab_expansion_width_two_witness :
  ((nextTabStop 3 - 3 = 1 \/ nextTabStop 3 - 3 = 2) /\ nextTabStop 3 mod 2 = 0)
  /\ renderTabStops (str "a" ++ [byteTab] ++ str "b") 2
     = Some (expandTabs 0 (runes (str "a" ++ [byteTab] ++ str "b")))
  /\ exists expandedToStart,
       renderTabStops [byteTab; byteTab] 2 = Some expandedToStart
       /\ len expandedToStart = 4.
Proof.
  destruct (tab_expansion_width_two (str "a" ++ [byteTab] ++ str "b"))
    as ((lineText & E & _ & _ & Hvalid) & Hstop & _ & Hdetail & _).
  split; [apply (Hstop 3); lia|]. split.
  - rewrite E. f_equal. apply (Hvalid eq_refl).
  - destruct (Hdetail
      (mkMsg (Some (mkSource 0 [] (str "a.js") ([byteTab; byteTab] ++ str "x;")))
         2 1 (str "m") Error)
      (mkTerminalInfo false false 0) _ eq_refl eq_refl)
      as (source & toStart & expandedToStart & rawLine & HS & _ & Hs & Hr & Hi & _).
    injection HS as <-. vm_compute in Hs. injection Hs as <-.
    exists expandedToStart. split; [exact Hr|].
    vm_compute in Hr. injection Hr as <-. reflexivity.
Defined.

(* ================================================================= *)
(** * Part IX: trimming to the terminal width *)
(* ================================================================= *)

(** A string of known length is a list of that many bytes. *)
Lemma length_S_inv (s : gostring) (n : nat) :
  length s = S n -> exists b t, s = b :: t /\ length t = n.
Proof.
  destruct s as [|b t]; [discriminate|]. intros [= H]. eauto.
Qed.

Ltac explode_string H :=
  repeat match type of H with
         | length _ = S _ =>
           let b := fresh "b" in
           let t := fresh "t" in
           let E := fresh "E" in
           let H' := fresh "H" in
           apply length_S_inv in H; destruct H as (b & t & E & H'); subst;
           rename H' into H
         | length ?l = O => apply length_zero_iff_nil in H; subst
         end.

(** C3: for an expanded line of 100 columns, marker bounds [50, 52] and a
    terminal of 20 columns, the trimming block shows 20 columns that begin
    and end with three dots; the slice starts at column 41, which is
    (50 + 52 - 20) / 2, not above 50 - 20 / 5 and inside the line; the
    marker bounds become [9, 11] and still select the marked text. *)
Theorem trimToWidth_centres_marker (lineText : gostring) :
  len lineText = 100 ->
  exists shown,
    trimToWidth 20 lineText 50 52 = Some (shown, repeat byteSpace 9, 9, 11)
    /\ len shown = 20
    /\ firstn 3 shown = str "..."
    /\ skipn 17 shown = str "..."
    /\ specSliceStart 20 (len lineText) 50 52 = 41
    /\ slice shown 3 17 = slice lineText (41 + 3) (41 + 17)
    /\ slice shown 9 11 = slice lineText 50 52.
Proof.
  intros H. assert (HL : length lineText = 100%nat) by (unfold len in H; lia).
  clear H. explode_string HL.
  eexists. split; [vm_compute; reflexivity|].
  vm_compute. repeat split.
Qed.

Lemma trimToWidth_centres_marker_witness :
  exists shown,
    trimToWidth 20 (repeat Byte.x61 50 ++ str "if" ++ repeat Byte.x62 48) 50 52
    = Some (shown, repeat byteSpace 9, 9, 11)
    /\ slice shown 9 11 = Some (str "if").
Proof.
  destruct (trimToWidth_centres_marker (repeat Byte.x61 50 ++ str "if" ++ repeat Byte.x62 48)
              eq_refl) as (shown & H1 & _ & _ & _ & _ & _ & H7).
  exists shown. split; [exact H1|]. rewrite H7. reflexivity.
Defined.

(** C9 (the source breaks it): on a terminal 4 columns wide, for the line
    abcde and a point location at offset 3, the trimming block leaves
    [markerStart = 3] and [markerEnd = 2].  The slice is the last four
    columns, so only the left dots are put in; that branch raises
    [markerStart] to 3, and the statement that keeps [markerEnd] from
    falling below [markerStart] stands in the other branch alone, which is
    not entered.  [lineText[markerStart:markerEnd]] then panics: no detail
    is produced, and rendering the message ends the process. *)
Theorem detailStruct_width_four_panics :
  let msg := mkMsg (Some (mkSource 0 [] (str "a.js") (str "abcde"))) 3 0 (str "m") Error in
  let terminalInfo := mkTerminalInfo true false 4 in
  trimToWidth 4 (str "abcde") 3 3 = Some (str "...e", str "   ", 3, 2)
  /\ slice (str "...e") 3 2 = None
  /\ detailStruct msg terminalInfo = None
  /\ Msg_String msg (mkOptions true 0 ColorNever LevelInfo) terminalInfo = None
  /\ NewStderrLog false terminalInfo (mkOptions true 0 ColorNever LevelInfo) [msg] = None.
Proof. vm_compute. repeat split. Qed.

Lemma len_firstn (s : gostring) (n : Z) : 0 <= n <= len s -> len (firstn (Z.to_nat n) s) = n.
Proof. intros H. unfold len in *. rewrite length_firstn. lia. Qed.

Lemma len_skipn (s : gostring) (n : Z) : 0 <= n <= len s -> len (skipn (Z.to_nat n) s) = len s - n.
Proof. intros H. unfold len in *. rewrite length_skipn. lia. Qed.

Lemma len_dots : len (str "...") = 3.
Proof. reflexivity. Qed.

(** Where the slice starts: the value of [sliceStart] after lines 368-377. *)
Lemma sliceStart_facts (W L markerStart markerEnd : Z) :
  0 < W < L -> 0 <= markerStart <= markerEnd -> markerEnd <= L ->
  let sliceStart := Z.quot (markerStart + markerEnd - W) 2 in
  let sliceStart :=
    if sliceStart >? markerStart - Z.quot W 5
    then markerStart - Z.quot W 5 else sliceStart in
  let sliceStart := if sliceStart <? 0 then 0 else sliceStart in
  let sliceStart := if sliceStart >? L - W then L - W else sliceStart in
  sliceStart = specSliceStart W L markerStart markerEnd
  /\ 0 <= sliceStart <= L - W
  /\ sliceStart <= markerStart
  /\ markerStart - sliceStart <= W
  /\ (0 < sliceStart ->
      Z.quot W 5 <= markerStart - sliceStart
      /\ W <= (markerStart - sliceStart) + (markerEnd - sliceStart)).
Proof.
  intros HW HM HE. unfold specSliceStart. cbv zeta.
  remember (Z.quot (markerStart + markerEnd - W) 2) as q eqn:Hq.
  remember (Z.quot W 5) as w5 eqn:Hw5.
  assert (Fq : 0 <= markerStart + markerEnd - W -> 2 * q <= markerStart + markerEnd - W)
    by (subst q; Z.to_euclidean_division_equations; lia).
  assert (Fq' : markerStart + markerEnd - W < 0 -> q <= 0)
    by (subst q; Z.to_euclidean_division_equations; lia).
  assert (Fq'' : 0 <= markerStart + markerEnd - W -> markerStart + markerEnd - W <= 2 * q + 1)
    by (subst q; Z.to_euclidean_division_equations; lia).
  assert (Fw : 0 <= w5 /\ 5 * w5 <= W)
    by (subst w5; Z.to_euclidean_division_equations; lia).
  clear Hq Hw5.
  destruct (q >? markerStart - w5) eqn:C1;
    [destruct (markerStart - w5 <? 0) eqn:C2|destruct (q <? 0) eqn:C2];
    match goal with
    | |- context [if ?x >? L - W then _ else _] => destruct (x >? L - W) eqn:C3
    end; lia.
Qed.

(** The trimming block on a marker inside the line: it never panics, shows
    exactly [W] columns and indents by [markerStart]; and unless [W] is 4 the
    marker bounds it returns are ordered and inside the shown line. *)
Lemma trimToWidth_bounds (W : Z) (lineText : gostring) (markerStart markerEnd : Z) :
  0 < W < len lineText ->
  0 <= markerStart <= markerEnd -> markerEnd <= len lineText ->
  exists shown markerStart' markerEnd',
    trimToWidth W lineText markerStart markerEnd
    = Some (shown, repeat byteSpace (Z.to_nat markerStart'), markerStart', markerEnd')
    /\ len shown = W
    /\ 0 <= markerStart' <= W
    /\ markerEnd' <= W
    /\ (W <> 4 -> markerStart' <= markerEnd').
Proof.
  intros HW HM HE. unfold trimToWidth.
  pose proof (sliceStart_facts W (len lineText) markerStart markerEnd HW HM HE) as F.
  cbv zeta in F.
  set (s := if (if (if Z.quot (markerStart + markerEnd - W) 2 >? markerStart - Z.quot W 5
                    then markerStart - Z.quot W 5
                    else Z.quot (markerStart + markerEnd - W) 2) <? 0
                then 0
                else if Z.quot (markerStart + markerEnd - W) 2 >? markerStart - Z.quot W 5
                     then markerStart - Z.quot W 5
                     else Z.quot (markerStart + markerEnd - W) 2) >? len lineText - W
            then len lineText - W
            else if (if Z.quot (markerStart + markerEnd - W) 2 >? markerStart - Z.quot W 5
                     then markerStart - Z.quot W 5
                     else Z.quot (markerStart + markerEnd - W) 2) <? 0
                 then 0
                 else if Z.quot (markerStart + markerEnd - W) 2 >? markerStart - Z.quot W 5
                      then markerStart - Z.quot W 5
                      else Z.quot (markerStart + markerEnd - W) 2) in *.
  destruct F as (_ & Fs & Fm & Fm' & Fpos). clearbody s.
  assert (Fw : 15 <= W -> 3 <= Z.quot W 5) by (Z.to_euclidean_division_equations; lia).
  remember (Z.quot W 5) as w5 eqn:Hw5. clear Hw5.
  rewrite slice_Some by lia. cbn [bind].
  replace (s + W - s) with W by lia.
  set (sl := firstn (Z.to_nat W) (skipn (Z.to_nat s) lineText)).
  assert (Hsl : len sl = W).
  { unfold sl. apply len_firstn. rewrite len_skipn by lia. lia. }
  clearbody sl. rewrite Hsl.
  set (m1 := if markerStart - s <? 0 then 0 else markerStart - s).
  set (e1 := if markerEnd - s >? W then W else markerEnd - s).
  assert (Hm1 : m1 = markerStart - s) by (unfold m1; destruct (markerStart - s <? 0) eqn:?; lia).
  assert (He1 : e1 = Z.min W (markerEnd - s)) by (unfold e1; destruct (markerEnd - s >? W) eqn:?; lia).
  clearbody m1 e1.
  destruct ((W >? 3) && (s >? 0)) eqn:C1.
  - apply andb_true_iff in C1. destruct C1 as [C1 C1'].
    rewrite sliceFrom_Some by lia. cbn [bind].
    assert (Hl : len (str "..." ++ skipn (Z.to_nat 3) sl) = W).
    { rewrite len_app, len_dots, len_skipn by lia. lia. }
    set (sl2 := str "..." ++ skipn (Z.to_nat 3) sl) in *. clearbody sl2. rewrite Hl.
    set (m2 := if m1 <? 3 then 3 else m1).
    assert (Hm2 : m2 = Z.max 3 m1) by (unfold m2; destruct (m1 <? 3) eqn:?; lia).
    clearbody m2.
    destruct ((W >? 3) && (s + W <? len lineText)) eqn:C2.
    + rewrite sliceTo_Some by lia. cbn [bind].
      rewrite len_app, len_dots, len_firstn by lia.
      replace (W - 3 + 3) with W by lia.
      set (e2 := if (if e1 >? W - 3 then W - 3 else e1) <? m2 then m2
                 else if e1 >? W - 3 then W - 3 else e1).
      assert (He2 : e2 = Z.max m2 (Z.min (W - 3) e1)).
      { unfold e2. destruct (e1 >? W - 3) eqn:?;
          match goal with |- context [if ?x <? m2 then _ else _] =>
            destruct (x <? m2) eqn:? end; lia. }
      clearbody e2. rewrite Repeat_space by lia. cbn [bind].
      eexists _, m2, e2. split; [reflexivity|].
      rewrite len_app, len_dots, len_firstn by lia. lia.
    + cbn [bind]. rewrite Repeat_space by lia. cbn [bind].
      eexists _, m2, e1. split; [reflexivity|]. split; [exact Hl|].
      specialize (Fpos ltac:(lia)). lia.
  - cbn [bind]. rewrite Hsl.
    destruct ((W >? 3) && (s + W <? len lineText)) eqn:C2.
    + apply andb_true_iff in C2. destruct C2 as [C2 C2'].
      rewrite sliceTo_Some by lia. cbn [bind].
      rewrite len_app, len_dots, len_firstn by lia.
      replace (W - 3 + 3) with W by lia.
      set (e2 := if (if e1 >? W - 3 then W - 3 else e1) <? m1 then m1
                 else if e1 >? W - 3 then W - 3 else e1).
      assert (He2 : e2 = Z.max m1 (Z.min (W - 3) e1)).
      { unfold e2. destruct (e1 >? W - 3) eqn:?;
          match goal with |- context [if ?x <? m1 then _ else _] =>
            destruct (x <? m1) eqn:? end; lia. }
      clearbody e2. rewrite Repeat_space by lia. cbn [bind].
      eexists _, m1, e2. split; [reflexivity|].
      rewrite len_app, len_dots, len_firstn by lia. lia.
    + cbn [bind]. rewrite Repeat_space by lia. cbn [bind].
      eexists _, m1, e1. split; [reflexivity|]. split; [exact Hsl|]. lia.
Qed.

(* ================================================================= *)
(** * Part X: color *)
(* ================================================================= *)

Lemma hasEscape_app (a b : gostring) : hasEscape (a ++ b) = hasEscape a || hasEscape b.
Proof. apply existsb_app. Qed.

Lemma hasEscape_cons (b : byte) (s : gostring) :
  hasEscape (b :: s) = byte_eqb ESC b || hasEscape s.
Proof. reflexivity. Qed.

Ltac escape_split := repeat (rewrite hasEscape_app || rewrite hasEscape_cons).

Lemma hasEscape_firstn (s : gostring) (n : nat) :
  hasEscape s = false -> hasEscape (firstn n s) = false.
Proof.
  unfold hasEscape, ContainsByte. revert s. induction n as [|n IH]; intros s H; [reflexivity|].
  destruct s as [|c t]; [reflexivity|]. simpl in H. apply orb_false_iff in H.
  simpl. apply orb_false_iff. split; [tauto|apply IH; tauto].
Qed.

Lemma hasEscape_skipn (s : gostring) (n : nat) :
  hasEscape s = false -> hasEscape (skipn n s) = false.
Proof. apply ContainsByte_skipn. Qed.

Lemma slice_clean (s t : gostring) (lo hi : Z) :
  slice s lo hi = Some t -> hasEscape s = false -> hasEscape t = false.
Proof.
  intros H C. apply slice_inv in H. destruct H as (_ & _ & _ & ->).
  apply hasEscape_firstn, hasEscape_skipn, C.
Qed.

Lemma Repeat_clean (s t : gostring) (n : Z) :
  Repeat s n = Some t -> hasEscape s = false -> hasEscape t = false.
Proof.
  unfold Repeat. destruct (n <? 0); [discriminate|]. intros [= <-] C.
  induction (Z.to_nat n) as [|k IH]; [reflexivity|].
  cbn [repeat concat]. rewrite hasEscape_app, C, IH. reflexivity.
Qed.

Lemma of_Z_not_escape (z : Z) :
  0 <= z < 256 -> z <> 27 -> byte_eqb ESC (byte.of_Z z) = false.
Proof.
  intros H N. unfold byte_eqb. rewrite byte.unsigned_of_Z. unfold byte.wrap.
  rewrite Z.mod_small by lia. apply Z.eqb_neq. change (byte.unsigned ESC) with 27. lia.
Qed.

Lemma encodeRune_clean (r : rune) : r <> 27 -> hasEscape (encodeRune r) = false.
Proof.
  intros N. unfold encodeRune, encode3.
  destruct (r <? 0) eqn:E1; [reflexivity|].
  destruct (r <=? 0x7F) eqn:E2.
  { unfold hasEscape, ContainsByte. cbn [existsb]. rewrite of_Z_not_escape by lia.
    reflexivity. }
  destruct (r <=? 0x7FF) eqn:E3.
  { unfold hasEscape, ContainsByte. cbn [existsb].
    rewrite !of_Z_not_escape by (Z.to_euclidean_division_equations; lia). reflexivity. }
  destruct ((0x10FFFF <? r) || ((0xD800 <=? r) && (r <=? 0xDFFF))) eqn:E4; [reflexivity|].
  apply orb_false_iff in E4. destruct E4 as [E4 _].
  destruct (r <=? 0xFFFF) eqn:E5;
    unfold hasEscape, ContainsByte; cbn [existsb];
    rewrite !of_Z_not_escape by (Z.to_euclidean_division_equations; lia); reflexivity.
Qed.

Lemma spaces_clean (n : nat) : hasEscape (repeat byteSpace n) = false.
Proof. induction n as [|n IH]; [reflexivity|exact IH]. Qed.

Lemma tabLoop_clean (spacesPerTab : Z) (cs : list rune) :
  Forall (fun c => c <> 27) cs ->
  forall withoutTabs count out,
  hasEscape withoutTabs = false ->
  tabLoop spacesPerTab cs withoutTabs count = Some out ->
  hasEscape out = false.
Proof.
  induction 1 as [|c cs Hc Hcs IH]; intros withoutTabs count out C H.
  - injection H as <-. exact C.
  - cbn [tabLoop] in H. destruct (c =? 9).
    + destruct (spacesPerTab =? 0); [discriminate|].
      rewrite writeSpaces_spec in H. apply IH in H; [exact H|].
      rewrite hasEscape_app, C, spaces_clean. reflexivity.
    + apply IH in H; [exact H|]. rewrite hasEscape_app, C, encodeRune_clean by exact Hc.
      reflexivity.
Qed.

Lemma renderTabStops_clean (s t : gostring) (spacesPerTab : Z) :
  renderTabStops s spacesPerTab = Some t -> hasEscape s = false -> hasEscape t = false.
Proof.
  unfold renderTabStops, renderTabStops_loop.
  destruct (ContainsByte s byteTab); cbn [negb]; [|intros [= <-]; tauto].
  intros H C.
  apply (tabLoop_clean spacesPerTab (runes s)
           (runes_without_byte ESC s 0 eq_refl C) [] 0 t eq_refl H).
Qed.

Lemma string_of_uint_clean (d : Decimal.uint) :
  hasEscape (str (DecimalString.NilEmpty.string_of_uint d)) = false.
Proof. induction d; [reflexivity|exact IHd ..]. Qed.

Lemma string_of_uint0_clean (d : Decimal.uint) :
  hasEscape (str (DecimalString.NilZero.string_of_uint d)) = false.
Proof.
  unfold DecimalString.NilZero.string_of_uint.
  destruct d; [reflexivity|apply (string_of_uint_clean (_ d)) ..].
Qed.

Lemma fmt_d_clean (n : Z) : hasEscape (fmt_d n) = false.
Proof.
  unfold fmt_d, DecimalString.NilZero.string_of_int.
  destruct (Z.to_int n) as [d|d]; [apply string_of_uint0_clean|].
  exact (string_of_uint0_clean d).
Qed.

Lemma trimToWidth_clean (W : Z) (lineText : gostring) (markerStart markerEnd : Z)
  (shown indent : gostring) (markerStart' markerEnd' : Z) :
  trimToWidth W lineText markerStart markerEnd = Some (shown, indent, markerStart', markerEnd') ->
  hasEscape lineText = false ->
  hasEscape shown = false /\ hasEscape indent = false.
Proof.
  intros H C. unfold trimToWidth in H.
  bind_inv H. rename g into sl. pose proof (slice_clean _ _ _ _ E C) as C1.
  bind_inv H. destruct p as [sl2 m2].
  assert (C2 : hasEscape sl2 = false).
  { destruct ((len sl >? 3) && _) in E0.
    - bind_inv E0. injection E0 as <- _. exact (slice_clean _ _ _ _ E1 C1).
    - injection E0 as <- _. exact C1. }
  bind_inv H. destruct p as [sl3 e3].
  assert (C3 : hasEscape sl3 = false).
  { destruct ((len sl2 >? 3) && _) in E1.
    - bind_inv E1. injection E1 as <- _. rewrite hasEscape_app.
      rewrite (slice_clean _ _ _ _ E2 C2). reflexivity.
    - injection E1 as <- _. exact C2. }
  bind_inv H. injection H as <- <- _ _.
  split; [exact C3|]. apply (Repeat_clean _ _ _ E2). reflexivity.
Qed.

Lemma kindName_clean (k : MsgKind) : hasEscape (kindName k) = false.
Proof. destruct k; reflexivity. Qed.

Lemma detailStruct_clean (msg : Msg) (terminalInfo : TerminalInfo) (source : Source)
  (d : MsgDetail) :
  detailStruct msg terminalInfo = Some d ->
  MsgSource msg = Some source ->
  hasEscape (Text msg) = false ->
  hasEscape (PrettyPath source) = false ->
  hasEscape (Contents source) = false ->
  hasEscape (Path d) = false /\ hasEscape (DKind d) = false
  /\ hasEscape (Message d) = false /\ hasEscape (DSource d) = false
  /\ hasEscape (Indent d) = false /\ hasEscape (Marker d) = false.
Proof.
  intros H HS CT CP CC. unfold detailStruct in H. rewrite HS in H. cbn [bind] in H.
  bind_inv H. rename g into before.
  destruct (ComputeLineAndColumn before) as [[lineCount columnCount] lineStart].
  bind_inv H. rename g into rest.
  bind_inv H. rename g into line.
  bind_inv H. rename g into lineText.
  bind_inv H. rename g into toStart.
  bind_inv H. rename g into expandedToStart.
  bind_inv H. rename g into indent.
  bind_inv H. rename z into markerEnd0.
  bind_inv H. destruct p as [[[shown indent'] markerStart'] markerEnd'].
  bind_inv H. rename g into marker.
  bind_inv H. bind_inv H. bind_inv H. injection H as <-.
  cbn [Path DKind Message DSource Indent Marker].
  pose proof (renderTabStops_clean _ _ _ E2 (slice_clean _ _ _ _ E1 CC)) as CL.
  pose proof (Repeat_clean _ _ _ E5 eq_refl) as CI.
  assert (CS : hasEscape shown = false /\ hasEscape indent' = false).
  { destruct ((Width terminalInfo >? 0) && _) in E7.
    - apply (trimToWidth_clean _ _ _ _ _ _ _ _ E7 CL).
    - injection E7 as <- <- _ _. split; assumption. }
  assert (CM : hasEscape marker = false).
  { destruct (markerEnd' - markerStart' >? 1) in E8.
    - apply (Repeat_clean _ _ _ E8). reflexivity.
    - injection E8 as <-. reflexivity. }
  repeat split; try tauto. apply kindName_clean.
Qed.

(** The renderer writes escape sequences exactly when told to, as long as
    the message itself carries none. *)
Lemma Msg_String_escapes (msg : Msg) (options : StderrOptions) (terminalInfo : TerminalInfo)
  (out : gostring) :
  Msg_String msg options terminalInfo = Some out ->
  hasEscape (Text msg) = false ->
  (forall source, MsgSource msg = Some source ->
     hasEscape (PrettyPath source) = false /\ hasEscape (Contents source) = false) ->
  hasEscape out = UseColorEscapes terminalInfo.
Proof.
  intros H CT CS. unfold Msg_String in H.
  destruct (UseColorEscapes terminalInfo) eqn:U.
  - destruct (MsgSource msg) as [source|];
      [destruct (negb (IncludeSource options));
       [|destruct (detailStruct msg terminalInfo); [cbn [bind] in H|discriminate H]]|];
      injection H as <-; reflexivity.
  - destruct (MsgSource msg) as [source|] eqn:HS.
    + destruct (CS source eq_refl) as [CP CC].
      destruct (negb (IncludeSource options)).
      * injection H as <-.
        escape_split. rewrite CP, CT, kindName_clean. reflexivity.
      * destruct (detailStruct msg terminalInfo) as [d|] eqn:D; [|discriminate H].
        cbn [bind] in H. injection H as <-.
        destruct (detailStruct_clean _ _ _ _ D HS CT CP CC) as (C1 & C2 & C3 & C4 & C5 & C6).
        escape_split. rewrite C1, C2, C3, C4, C5, C6, !fmt_d_clean. reflexivity.
    + injection H as <-. escape_split. rewrite CT, kindName_clean. reflexivity.
Qed.

Lemma sinkTerminalInfo_color (SupportsColorEscapes : bool) (probed : TerminalInfo)
  (options : StderrOptions) :
  UseColorEscapes (sinkTerminalInfo SupportsColorEscapes probed options)
  = sinkColorEnabled SupportsColorEscapes probed (Color options).
Proof. unfold sinkTerminalInfo, sinkColorEnabled. destruct (Color options); reflexivity. Qed.

(** C4, as far as it holds: a rendered message that carries no escape byte
    of its own comes out with color escape sequences exactly when the sink
    has color on; and the sink has color off in mode [ColorNever], on in mode
    [ColorIfTerminal] exactly when the terminal description reports support,
    and in mode [ColorAlways] exactly when the platform constant
    [SupportsColorEscapes] is true, whatever the terminal description
    reports.  Where that constant is true this is the rule of the
    specification. *)
Theorem color_escapes_iff_enabled (SupportsColorEscapes : bool) (probed : TerminalInfo)
  (options : StderrOptions) (msg : Msg) (out : gostring) :
  Msg_String msg options (sinkTerminalInfo SupportsColorEscapes probed options) = Some out ->
  hasEscape (Text msg) = false ->
  (forall source, MsgSource msg = Some source ->
     hasEscape (PrettyPath source) = false /\ hasEscape (Contents source) = false) ->
  hasEscape out = sinkColorEnabled SupportsColorEscapes probed (Color options)
  /\ (Color options = ColorNever -> hasEscape out = false)
  /\ (Color options = ColorIfTerminal -> hasEscape out = UseColorEscapes probed)
  /\ (Color options = ColorAlways -> hasEscape out = SupportsColorEscapes)
  /\ (SupportsColorEscapes = true ->
      hasEscape out = specColorEnabled (UseColorEscapes probed) (Color options)).
Proof.
  intros H CT CS.
  pose proof (Msg_String_escapes _ _ _ _ H CT CS) as E.
  rewrite sinkTerminalInfo_color in E. rewrite E.
  split; [reflexivity|]. repeat split; try (intros ->; reflexivity).
  intros ->. unfold specColorEnabled, sinkColorEnabled.
  destruct (Color options); cbn [isNever isAlways negb andb orb];
    rewrite ?andb_true_r, ?orb_false_r, ?andb_false_r, ?orb_true_r; reflexivity.
Qed.

Lemma color_escapes_iff_enabled_witness :
  hasEscape (colorBold ++ str "a.js: " ++ colorRed ++ str "error: " ++ colorResetBold
             ++ str "bad" ++ colorReset ++ newline) = true.
Proof.
  refine (proj1 (proj2 (proj2 (proj2 (color_escapes_iff_enabled true
    (mkTerminalInfo false false 0) (mkOptions false 0 ColorAlways LevelInfo)
    (AddError (Some (mkSource 0 [] (str "a.js") (str "x"))) (mkLoc 0) (str "bad"))
    _ eq_refl eq_refl _)))) eq_refl).
  intros source [= <-]. split; reflexivity.
Defined.

(** C4 as stated fails: in mode [ColorAlways], where the platform constant
    [SupportsColorEscapes] is false the output has no escape sequence,
    though the specification enables color in that mode whatever is
    reported. *)
Lemma color_always_can_stay_off :
  ~ (forall (SupportsColorEscapes : bool) (probed : TerminalInfo) (options : StderrOptions)
            (msg : Msg) (out : gostring),
       Msg_String msg options (sinkTerminalInfo SupportsColorEscapes probed options) = Some out ->
       hasEscape (Text msg) = false ->
       MsgSource msg = None ->
       hasEscape out = specColorEnabled (UseColorEscapes probed) (Color options)).
Proof.
  intros H.
  specialize (H false (mkTerminalInfo false false 0) (mkOptions false 0 ColorAlways LevelInfo)
                (AddError None (mkLoc 0) (str "bad")) _ eq_refl eq_refl eq_refl).
  vm_compute in H. discriminate H.
Qed.

(* ================================================================= *)
(** * Part XI: the detail never panics on a range inside the contents,
      except on a terminal 4 columns wide *)
(* ================================================================= *)

Lemma findLineEnd_bounds (rs : list (Z * rune)) (n lineStart lineEnd : Z) :
  Forall (fun ic => 0 <= fst ic < n) rs ->
  lineStart <= lineEnd <= lineStart + n ->
  lineStart <= findLineEnd rs lineStart lineEnd <= lineStart + n.
Proof.
  induction 1 as [|[i c] rs Hi Hrs IH]; intros H; [exact H|].
  cbn [findLineEnd]. cbn [fst] in Hi. destruct (isLineBreak c); [lia|apply IH; exact H].
Qed.

Lemma three_slices (s : gostring) (a b : Z) :
  0 <= a <= b -> b <= len s ->
  exists before marked after,
    sliceTo s a = Some before /\ slice s a b = Some marked /\ sliceFrom s b = Some after
    /\ before ++ marked ++ after = s /\ len before = a /\ len marked = b - a.
Proof.
  intros Ha Hb.
  exists (firstn (Z.to_nat a) s), (firstn (Z.to_nat (b - a)) (skipn (Z.to_nat a) s)),
    (skipn (Z.to_nat b) s).
  rewrite sliceTo_Some, slice_Some, sliceFrom_Some by lia.
  repeat split.
  - rewrite <- (firstn_skipn (Z.to_nat a) s) at 4. f_equal.
    rewrite <- (firstn_skipn (Z.to_nat (b - a)) (skipn (Z.to_nat a) s)) at 2.
    f_equal. rewrite skipn_skipn. f_equal. lia.
  - apply len_firstn. lia.
  - apply len_firstn. rewrite len_skipn by lia. lia.
Qed.

Lemma Repeat_total (s : gostring) (n : Z) : 0 <= n -> exists t, Repeat s n = Some t.
Proof.
  intros H. unfold Repeat. destruct (n <? 0) eqn:E; [lia|]. eexists. reflexivity.
Qed.

(** For a range inside the contents of a source that [int32] offsets can
    address, and a terminal width other than 4, [detailStruct] returns a
    detail whose three parts make up the shown line, which fits the
    terminal when its width is known. *)
Lemma detailStruct_total (msg : Msg) (terminalInfo : TerminalInfo) (source : Source) :
  MsgSource msg = Some source ->
  0 <= Start msg -> 0 <= Length msg ->
  Start msg + Length msg <= len (Contents source) ->
  len (Contents source) < 2 ^ 31 ->
  Width terminalInfo <> 4 ->
  exists d,
    detailStruct msg terminalInfo = Some d
    /\ SourceBefore d ++ SourceMarked d ++ SourceAfter d = DSource d
    /\ (0 < Width terminalInfo -> len (DSource d) <= Width terminalInfo)
    /\ (Indent d = repeat byteSpace (Z.to_nat (len (SourceBefore d)))
        \/ len (DSource d) < len (Indent d)).
Proof.
  intros HS H0 HL HE H31 HW. unfold detailStruct. rewrite HS. cbn [bind].
  set (contents := Contents source) in *.
  rewrite (slice_Some contents 0 (Start msg)) by lia. cbn [bind].
  set (before := firstn (Z.to_nat (Start msg - 0)) (skipn (Z.to_nat 0) contents)).
  assert (Hb : len before = Start msg).
  { unfold before. cbn [Z.to_nat skipn]. rewrite Z.sub_0_r. apply len_firstn. lia. }
  destruct (ComputeLineAndColumn before) as [[lineCount columnCount] lineStart] eqn:LC.
  apply ComputeLineAndColumn_bounds in LC. destruct LC as [Hls _]. rewrite Hb in Hls.
  clearbody before.
  rewrite sliceFrom_Some by lia. cbn [bind].
  set (rest := skipn (Z.to_nat lineStart) contents).
  assert (Hrest : len rest = len contents - lineStart) by (apply len_skipn; lia).
  pose proof (findLineEnd_bounds (go_range rest) (len rest) lineStart (len contents)
                (rangeFrom_offsets rest 0) ltac:(lia)) as Hle.
  set (lineEnd := findLineEnd (go_range rest) lineStart (len contents)) in *.
  clearbody lineEnd. clearbody rest.
  rewrite (slice_Some contents lineStart lineEnd) by lia. cbn [bind].
  destruct (renderTabStops_two (firstn (Z.to_nat (lineEnd - lineStart))
                                  (skipn (Z.to_nat lineStart) contents)))
    as (lineText & -> & _). cbn [bind].
  rewrite (slice_Some contents lineStart (Start msg)) by lia. cbn [bind].
  destruct (renderTabStops_two (firstn (Z.to_nat (Start msg - lineStart))
                                  (skipn (Z.to_nat lineStart) contents)))
    as (expandedToStart & -> & _). cbn [bind].
  pose proof (len_nonneg expandedToStart) as He. pose proof (len_nonneg lineText) as Hl.
  rewrite Repeat_space by lia. cbn [bind].
  assert (Hind : len (repeat byteSpace (Z.to_nat (len expandedToStart)))
                 = len expandedToStart).
  { unfold len at 1. rewrite repeat_length. lia. }
  rewrite Hind.
  assert (Hend : exists markerEnd0,
    (if Length msg >? 0
     then toEnd <- slice contents lineStart (int32 (Start msg + Length msg)) ;;
          expandedToEnd <- renderTabStops toEnd 2 ;; Some (len expandedToEnd)
     else Some (len expandedToStart)) = Some markerEnd0 /\ 0 <= markerEnd0).
  { destruct (Length msg >? 0).
    - rewrite int32_small by lia. rewrite slice_Some by lia. cbn [bind].
      destruct (renderTabStops_two (firstn (Z.to_nat (Start msg + Length msg - lineStart))
                                      (skipn (Z.to_nat lineStart) contents)))
        as (expandedToEnd & -> & _). cbn [bind].
      eexists. split; [reflexivity|apply len_nonneg].
    - eexists. split; [reflexivity|lia]. }
  destruct Hend as (markerEnd0 & -> & Hm0). cbn [bind].
  set (a := if len expandedToStart >? len lineText then len lineText
            else len expandedToStart).
  set (b := if (if markerEnd0 >? len lineText then len lineText else markerEnd0) <? a
            then a else if markerEnd0 >? len lineText then len lineText else markerEnd0).
  assert (Hab : 0 <= a <= b /\ b <= len lineText).
  { unfold b, a. destruct (len expandedToStart >? len lineText) eqn:?;
      destruct (markerEnd0 >? len lineText) eqn:?;
      match goal with |- context [if ?x <? ?y then _ else _] =>
        destruct (x <? y) eqn:? end; lia. }
  assert (Ha : a = len expandedToStart \/ len lineText < len expandedToStart).
  { unfold a. destruct (len expandedToStart >? len lineText) eqn:?; lia. }
  clearbody a b.
  assert (Htrim : exists shown markerStart' markerEnd',
    (if (Width terminalInfo >? 0) && (len lineText >? Width terminalInfo)
     then trimToWidth (Width terminalInfo) lineText a b
     else Some (lineText, (repeat byteSpace (Z.to_nat (len expandedToStart)) : gostring),
                a, b))
    = Some (shown,
            if (Width terminalInfo >? 0) && (len lineText >? Width terminalInfo)
            then repeat byteSpace (Z.to_nat markerStart')
            else repeat byteSpace (Z.to_nat (len expandedToStart)),
            markerStart', markerEnd')
    /\ 0 <= markerStart' <= markerEnd' /\ markerEnd' <= len shown
    /\ (0 < Width terminalInfo -> len shown <= Width terminalInfo)
    /\ ((Width terminalInfo >? 0) && (len lineText >? Width terminalInfo) = false ->
        markerStart' = a)).
  { destruct ((Width terminalInfo >? 0) && (len lineText >? Width terminalInfo)) eqn:C.
    - apply andb_true_iff in C. destruct C as [C1 C2].
      destruct (trimToWidth_bounds (Width terminalInfo) lineText a b) as
        (shown & ms & me & -> & Hs & Hms & Hme & Hord); try lia.
      exists shown, ms, me. split; [reflexivity|]. specialize (Hord HW).
      repeat split; try lia.
    - exists lineText, a, b. split; [reflexivity|].
      apply andb_false_iff in C. repeat split; try lia. }
  destruct Htrim as (shown & ms & me & Etrim & Hord & Hme & Hfit & Hun).
  rewrite Etrim. cbn [bind].
  destruct (Repeat_total (str "~") (me - ms) ltac:(lia)) as (tildes & Ht).
  assert (Hmk : exists marker,
    (if me - ms >? 1 then Repeat (str "~") (me - ms) else Some (str "^")) = Some marker).
  { destruct (me - ms >? 1); eauto. }
  destruct Hmk as (marker & ->). cbn [bind].
  destruct (three_slices shown ms me Hord Hme) as
    (sb & sm & sa & -> & -> & -> & Hcat & Lb & Lm). cbn [bind].
  eexists. split; [reflexivity|].
  cbn [SourceBefore SourceMarked SourceAfter DSource Indent].
  split; [exact Hcat|]. split; [exact Hfit|].
  rewrite Lb.
  destruct ((Width terminalInfo >? 0) && (len lineText >? Width terminalInfo)) eqn:C;
    [left; reflexivity|].
  injection Etrim as <- _ _. rewrite (Hun eq_refl).
  destruct Ha as [Ha|Ha]; [left; rewrite Ha; reflexivity|].
  right. rewrite Hind. exact Ha.
Qed.

(* ================================================================= *)
(** * Part XII: further properties of the message model *)
(* ================================================================= *)

Lemma firstn_S_nth (s : gostring) (n : nat) (b : byte) :
  nth_error s n = Some b -> firstn (S n) s = firstn n s ++ [b].
Proof.
  revert s. induction n as [|n IH]; intros [|c t] H; try discriminate.
  - injection H as <-. reflexivity.
  - cbn [nth_error] in H. cbn [firstn app]. f_equal. apply IH. exact H.
Qed.

Lemma slice_parts (s t : gostring) (lo hi : Z) :
  slice s lo hi = Some t ->
  s = firstn (Z.to_nat lo) s ++ t ++ skipn (Z.to_nat hi) s.
Proof.
  intros H. apply slice_inv in H. destruct H as (H1 & H2 & H3 & ->).
  rewrite <- (firstn_skipn (Z.to_nat lo) s) at 1. f_equal.
  rewrite <- (firstn_skipn (Z.to_nat (hi - lo)) (skipn (Z.to_nat lo) s)) at 1.
  f_equal. rewrite skipn_skipn. f_equal. lia.
Qed.

Lemma int32_wraps (z : Z) : 2 ^ 31 <= z < 2 ^ 32 -> int32 z = z - 2 ^ 32.
Proof.
  intros H. unfold int32. change (2 ^ 31) with 2147483648 in *.
  change (2 ^ 32) with 4294967296 in *. Z.to_euclidean_division_equations. lia.
Qed.

(** X1: for a range inside the contents, [TextForRange] returns the [Len]
    bytes that follow the first [Start] bytes of the contents; for a range
    that reaches past the end, or of negative length, it panics.  ([Start]
    and [Len] are [int32]; the contents are shorter than 2^31 bytes.) *)
Theorem TextForRange_in_bounds (s : Source) (r : Range) :
  0 <= LocStart (RangeLoc r) < 2 ^ 31 ->
  - 2 ^ 31 <= Len r < 2 ^ 31 ->
  len (Contents s) < 2 ^ 31 ->
  (0 <= Len r -> LocStart (RangeLoc r) + Len r <= len (Contents s) ->
   exists before text after,
     TextForRange s r = Some text
     /\ Contents s = before ++ text ++ after
     /\ len before = LocStart (RangeLoc r)
     /\ len text = Len r)
  /\ (Len r < 0 \/ len (Contents s) < LocStart (RangeLoc r) + Len r ->
      TextForRange s r = None).
Proof.
  intros H0 HL31 H31. unfold TextForRange. split.
  - intros HL HE. rewrite int32_small by lia.
    destruct (slice (Contents s) (LocStart (RangeLoc r)) (LocStart (RangeLoc r) + Len r))
      as [text|] eqn:E; [|rewrite slice_Some in E by lia; discriminate].
    exists (firstn (Z.to_nat (LocStart (RangeLoc r))) (Contents s)), text,
      (skipn (Z.to_nat (LocStart (RangeLoc r) + Len r)) (Contents s)).
    split; [reflexivity|]. split; [apply (slice_parts _ _ _ _ E)|].
    split; [apply len_firstn; lia|]. rewrite (slice_len _ _ _ _ E). lia.
  - intros HB.
    assert (Hhi : int32 (LocStart (RangeLoc r) + Len r) < LocStart (RangeLoc r)
                  \/ len (Contents s) < int32 (LocStart (RangeLoc r) + Len r)).
    { destruct (Z_lt_le_dec (LocStart (RangeLoc r) + Len r) (2 ^ 31)) as [Hs|Hs].
      - rewrite int32_small by lia. lia.
      - rewrite int32_wraps by lia. lia. }
    unfold slice.
    destruct (0 <=? LocStart (RangeLoc r)); [|reflexivity].
    destruct (LocStart (RangeLoc r) <=? int32 (LocStart (RangeLoc r) + Len r)) eqn:B;
      [|reflexivity].
    destruct (int32 (LocStart (RangeLoc r) + Len r) <=? len (Contents s)) eqn:C;
      [|reflexivity].
    apply Z.leb_le in B, C. lia.
Qed.

Lemma TextForRange_in_bounds_witness :
  TextForRange (mkSource 0 [] [] (str "let x = 1")) (mkRange (mkLoc 4) 1) = Some (str "x")
  /\ TextForRange (mkSource 0 [] [] (str "let x = 1")) (mkRange (mkLoc 4) 6) = None.
Proof.
  split.
  - destruct (proj1 (TextForRange_in_bounds (mkSource 0 [] [] (str "let x = 1"))
                      (mkRange (mkLoc 4) 1) ltac:(cbn; lia) ltac:(cbn; lia) ltac:(cbn; lia))
                ltac:(cbn; lia) ltac:(cbn; lia)) as (b & t & a & H & _).
    rewrite H. vm_compute in H. exact (eq_sym H).
  - apply (proj2 (TextForRange_in_bounds (mkSource 0 [] [] (str "let x = 1"))
                    (mkRange (mkLoc 4) 6) ltac:(cbn; lia) ltac:(cbn; lia) ltac:(cbn; lia))).
    right. cbn. lia.
Defined.

Lemma sliceFrom_None (s : gostring) (lo : Z) :
  sliceFrom s lo = None <-> lo < 0 \/ len s < lo.
Proof.
  unfold sliceFrom, slice. pose proof (len_nonneg s).
  destruct (0 <=? lo) eqn:A; destruct (lo <=? len s) eqn:B;
    destruct (len s <=? len s) eqn:C; cbn [andb]; split; intros H'; try discriminate;
    try lia; reflexivity.
Qed.

(** X2: [RangeOfString] panics exactly for a location outside the contents.
    Otherwise (for contents shorter than 2^31 bytes) the range it returns
    starts at the location, has a length that is not negative and lies inside
    the contents, so that [TextForRange] on it cannot panic; and the text of
    the range is empty or is a quote, a body and the same quote again. *)
Theorem RangeOfString_text (s : Source) (loc : Loc) :
  (RangeOfString s loc = None <-> LocStart loc < 0 \/ len (Contents s) < LocStart loc)
  /\ (0 <= LocStart loc <= len (Contents s) -> len (Contents s) < 2 ^ 31 ->
      exists r text,
        RangeOfString s loc = Some r
        /\ RangeLoc r = loc
        /\ 0 <= Len r
        /\ LocStart loc + Len r <= len (Contents s)
        /\ TextForRange s r = Some text
        /\ len text = Len r
        /\ (Len r = 0 \/ exists q body, isQuote q /\ text = q :: body ++ [q])).
Proof.
  split.
  - unfold RangeOfString. rewrite <- sliceFrom_None.
    destruct (sliceFrom (Contents s) (LocStart loc)) as [text|]; cbn [bind];
      [|tauto].
    split; [|discriminate]. destruct text as [|q rest]; [discriminate|].
    destruct (byte_eqb q byteDQuote || byte_eqb q byteSQuote); [|discriminate].
    destruct (scanQuote q rest 1); discriminate.
  - intros Hloc H31.
    assert (Hzero : exists text,
      TextForRange s (mkRange loc 0) = Some text /\ len text = 0).
    { unfold TextForRange. cbn [RangeLoc Len]. rewrite Z.add_0_r, int32_small by lia.
      rewrite slice_Some by lia. eexists. split; [reflexivity|].
      rewrite Z.sub_diag. reflexivity. }
    destruct Hzero as (empty & Hz & Lz).
    assert (Zero : RangeOfString s loc = Some (mkRange loc 0) ->
      exists r text, RangeOfString s loc = Some r /\ RangeLoc r = loc /\ 0 <= Len r
        /\ LocStart loc + Len r <= len (Contents s) /\ TextForRange s r = Some text
        /\ len text = Len r
        /\ (Len r = 0 \/ exists q body, isQuote q /\ text = q :: body ++ [q])).
    { intros E. exists (mkRange loc 0), empty. cbn [RangeLoc Len].
      repeat split; try assumption; try lia; left; reflexivity. }
    unfold RangeOfString in *. rewrite (sliceFrom_Some _ _ Hloc) in *. cbn [bind] in *.
    set (text0 := skipn (Z.to_nat (LocStart loc)) (Contents s)) in *.
    assert (Htext : len text0 = len (Contents s) - LocStart loc)
      by (apply len_skipn; lia).
    destruct text0 as [|q rest] eqn:T0; [apply Zero; reflexivity|].
    destruct (byte_eqb q byteDQuote || byte_eqb q byteSQuote) eqn:Q;
      [|apply Zero; reflexivity].
    destruct (scanQuote q rest 1) as [n|] eqn:E; [|apply Zero; reflexivity].
    clear Zero.
    destruct (proj1 (scanQuote_complete q rest) _ _ E) as (k & Hk & ->).
    pose proof (ClosingQuote_bound _ _ _ Hk) as B.
    pose proof (ClosingQuote_nth _ _ _ Hk) as N.
    rewrite len_cons in Htext.
    exists (mkRange loc (int32 (1 + k + 1))). rewrite int32_small by lia.
    unfold TextForRange. cbn [RangeLoc Len]. rewrite int32_small by lia.
    rewrite slice_Some by lia. fold text0.
    eexists. split; [reflexivity|]. split; [reflexivity|]. split; [lia|].
    split; [lia|]. split; [reflexivity|].
    assert (Hfirst : firstn (Z.to_nat (LocStart loc + (1 + k + 1) - LocStart loc)) text0
                     = q :: firstn (Z.to_nat k) rest ++ [q]).
    { rewrite T0.
      replace (Z.to_nat (LocStart loc + (1 + k + 1) - LocStart loc))
        with (S (S (Z.to_nat k))) by lia.
      cbn [firstn]. f_equal. apply firstn_S_nth. exact N. }
    rewrite Hfirst. split.
    + rewrite len_cons, len_app, len_firstn by lia.
      change (len [q]) with 1. lia.
    + right. exists q, (firstn (Z.to_nat k) rest). split; [|reflexivity].
      apply isQuote_test. exact Q.
Qed.

Lemma RangeOfString_text_witness :
  exists r, RangeOfString (mkSource 0 [] [] (str "f('it\'s', 1)")) (mkLoc 2) = Some r
            /\ TextForRange (mkSource 0 [] [] (str "f('it\'s', 1)")) r = Some (str "'it\'s'").
Proof.
  destruct (proj2 (RangeOfString_text (mkSource 0 [] [] (str "f('it\'s', 1)")) (mkLoc 2))
              ltac:(cbn; lia) ltac:(cbn; lia)) as (r & text & H1 & _ & _ & _ & H2 & _).
  exists r. split; [exact H1|].
  vm_compute in H1. injection H1 as <-. reflexivity.
Defined.

(* ================================================================= *)
(** * Part XIII: further properties of the sinks *)
(* ================================================================= *)

Lemma worker_app (options : StderrOptions) (ti : TerminalInfo) (a b : list Msg) :
  forall st,
  worker options ti st (a ++ b)
  = bind (worker options ti st a) (fun st' => worker options ti st' b).
Proof.
  induction a as [|msg a IH]; intros st; [reflexivity|].
  cbn [app worker]. destruct (workerStep options ti st msg) as [st1|]; [|reflexivity].
  cbn [bind]. apply IH.
Qed.

(** X3: once the worker has hit the error limit, nothing that follows is
    rendered or written, not even a summary: whatever messages come after,
    the output stays what it was and the closure returns every message. *)
Theorem limit_hit_absorbs (SupportsColorEscapes : bool) (probed : TerminalInfo)
  (options : StderrOptions) (before after : list Msg)
  (result : stderrLogInfo) (stderr : list gostring) :
  worker options (sinkTerminalInfo SupportsColorEscapes probed options) startState before
  = Some (result, stderr) ->
  errorLimitWasHit result = true ->
  NewStderrLog SupportsColorEscapes probed options (before ++ after)
  = Some (stderr, before ++ after).
Proof.
  intros W Hhit. unfold NewStderrLog. rewrite worker_app, W. cbn [bind].
  pose proof (worker_msgs _ _ _ _ _ W) as M. cbn [fst startState msgs app] in M.
  destruct result as [l e w hit]. cbn [errorLimitWasHit msgs] in *. subst hit l.
  rewrite worker_after_limit. cbn [bind join errorLimitWasHit negb andb msgs]. reflexivity.
Qed.

Lemma limit_hit_absorbs_witness :
  NewStderrLog true (mkTerminalInfo true false 80) (mkOptions true 1 ColorNever LevelInfo)
    ([AddError None (mkLoc 0) (str "a")]
     ++ [AddError (Some (mkSource 0 [] [] [])) (mkLoc 7) (str "b")])
  = Some ([str "error: a" ++ newline;
           str "1 error reached (disable error limit with --error-limit=0)" ++ newline],
          [AddError None (mkLoc 0) (str "a")]
          ++ [AddError (Some (mkSource 0 [] [] [])) (mkLoc 7) (str "b")]).
Proof.
  apply (limit_hit_absorbs true (mkTerminalInfo true false 80)
           (mkOptions true 1 ColorNever LevelInfo) [AddError None (mkLoc 0) (str "a")]
           [AddError (Some (mkSource 0 [] [] [])) (mkLoc 7) (str "b")]
           (mkInfo [AddError None (mkLoc 0) (str "a")] 1 0 true)); reflexivity.
Defined.

Ltac limit_facts C :=
  first
    [ apply andb_true_iff in C; destruct C as [C C'];
      apply negb_true_iff, Z.eqb_neq in C; rewrite Z.geb_leb in C'; apply Z.leb_le in C'
    | apply andb_false_iff in C; destruct C as [C|C];
      [apply negb_false_iff, Z.eqb_eq in C|rewrite Z.geb_leb in C; apply Z.leb_gt in C] ].

Ltac inv_close Hlim :=
  cbn [fst snd errors warnings errorLimitWasHit]; rewrite ?length_app; cbn [length];
  split; [lia|]; split; [lia|]; split; [lia|]; split; [lia|];
  split; [intros ?; first [reflexivity|exfalso; lia]|];
  let P := fresh "P" in
  intros P; specialize (Hlim P); split; [lia|];
  split; intros ?; first [reflexivity|discriminate|lia|exfalso; lia].

Lemma workerStep_inv (options : StderrOptions) (ti : TerminalInfo) (n : Z)
  (st st' : stderrLogInfo * list gostring) (msg : Msg) :
  workerInv options n st -> workerStep options ti st msg = Some st' ->
  workerInv options (n + 1) st'.
Proof.
  destruct st as [[l e w hit] stderr]. unfold workerInv, workerStep.
  cbn [fst snd errors warnings errorLimitWasHit msgs].
  intros (He & Hw & Hn & Hout & Hzero & Hpos) H.
  destruct hit.
  { injection H as <-. cbn [fst snd errors warnings errorLimitWasHit].
    repeat split; try lia; try tauto; apply Hpos; assumption. }
  assert (Hlim : 0 < ErrorLimit options -> e < ErrorLimit options).
  { intros P. destruct (Hpos P) as [A [B C]].
    destruct (Z.eq_dec e (ErrorLimit options)) as [E|E]; [|lia].
    specialize (C E). discriminate. }
  clear Hzero Hpos.
  destruct (Kind msg).
  - assert (Hstep : exists out,
      (if LogLevel_le (LogLevelOpt options) LevelError
       then text <- Msg_String msg options ti ;;
            Some (mkInfo (l ++ [msg]) (e + 1) w false, stderr ++ [text])
       else Some (mkInfo (l ++ [msg]) (e + 1) w false, stderr))
      = Some (mkInfo (l ++ [msg]) (e + 1) w false, out)
      /\ Z.of_nat (length out) <= Z.of_nat (length stderr) + 1).
    { destruct (LogLevel_le (LogLevelOpt options) LevelError).
      - destruct (Msg_String msg options ti) as [text|]; [|discriminate H].
        cbn [bind]. eexists. split; [reflexivity|]. rewrite length_app. cbn [length]. lia.
      - eexists. split; [reflexivity|]. lia. }
    destruct Hstep as (out & Hs & Hlen). rewrite Hs in H. cbn [bind errors] in H.
    destruct (negb (ErrorLimit options =? 0) && (e + 1 >=? ErrorLimit options)) eqn:C;
      limit_facts C;
      try destruct (LogLevel_le (LogLevelOpt options) LevelError);
      injection H as <-; inv_close Hlim.
  - assert (Hstep : exists out,
      (if LogLevel_le (LogLevelOpt options) LevelWarning
       then text <- Msg_String msg options ti ;;
            Some (mkInfo (l ++ [msg]) e (w + 1) false, stderr ++ [text])
       else Some (mkInfo (l ++ [msg]) e (w + 1) false, stderr))
      = Some (mkInfo (l ++ [msg]) e (w + 1) false, out)
      /\ Z.of_nat (length out) <= Z.of_nat (length stderr) + 1).
    { destruct (LogLevel_le (LogLevelOpt options) LevelWarning).
      - destruct (Msg_String msg options ti) as [text|]; [|discriminate H].
        cbn [bind]. eexists. split; [reflexivity|]. rewrite length_app. cbn [length]. lia.
      - eexists. split; [reflexivity|]. lia. }
    destruct Hstep as (out & Hs & Hlen). rewrite Hs in H. cbn [bind errors] in H.
    destruct (negb (ErrorLimit options =? 0) && (e >=? ErrorLimit options)) eqn:C;
      limit_facts C;
      try destruct (LogLevel_le (LogLevelOpt options) LevelError);
      injection H as <-; inv_close Hlim.
Qed.

Lemma worker_inv (options : StderrOptions) (ti : TerminalInfo) (received : list Msg) :
  forall n st st',
  workerInv options n st -> worker options ti st received = Some st' ->
  workerInv options (n + Z.of_nat (length received)) st'.
Proof.
  induction received as [|msg received IH]; intros n st st' I H.
  - injection H as <-. cbn [length]. rewrite Z.add_0_r. exact I.
  - cbn [worker] in H. destruct (workerStep options ti st msg) as [st1|] eqn:E;
      [|discriminate H]. cbn [bind] in H.
    replace (n + Z.of_nat (length (msg :: received)))
      with (n + 1 + Z.of_nat (length received)) by (cbn [length]; lia).
    apply (IH _ _ _ (workerStep_inv _ _ _ _ _ _ I E) H).
Qed.

(** X4: whatever the sink received, its counters are not negative and count
    at most the messages received; it has written at most one text per
    counted message, plus the limit notice if the limit was hit; with
    [ErrorLimit = 0] the limit is never hit; with a positive limit the
    error counter never passes it and the limit is hit exactly when the
    counter has reached it. *)
Theorem worker_counters (SupportsColorEscapes : bool) (probed : TerminalInfo)
  (options : StderrOptions) (received : list Msg)
  (result : stderrLogInfo) (stderr : list gostring) :
  worker options (sinkTerminalInfo SupportsColorEscapes probed options) startState received
  = Some (result, stderr) ->
  0 <= errors result /\ 0 <= warnings result
  /\ errors result + warnings result <= Z.of_nat (length received)
  /\ Z.of_nat (length stderr)
     <= errors result + warnings result + (if errorLimitWasHit result then 1 else 0)
  /\ (ErrorLimit options = 0 -> errorLimitWasHit result = false)
  /\ (0 < ErrorLimit options ->
      errors result <= ErrorLimit options
      /\ (errorLimitWasHit result = true <-> errors result = ErrorLimit options)).
Proof.
  intros W.
  assert (I0 : workerInv options 0 startState).
  { unfold workerInv, startState. cbn. repeat split; try lia; discriminate. }
  exact (worker_inv _ _ _ _ _ _ I0 W).
Qed.

Lemma worker_counters_witness :
  0 <= 2 /\ 0 <= 0 /\ 2 + 0 <= 3 /\ 3 <= 2 + 0 + 1
  /\ (2 = 0 -> true = false)
  /\ (0 < 2 -> 2 <= 2 /\ (true = true <-> 2 = 2)).
Proof.
  exact (worker_counters false (mkTerminalInfo false false 0)
           (mkOptions false 2 ColorNever LevelInfo)
           (map (AddError None (mkLoc 0)) [str "a"; str "b"; str "c"])
           (mkInfo (map (AddError None (mkLoc 0)) [str "a"; str "b"; str "c"]) 2 0 true)
           [str "error: a" ++ newline; str "error: b" ++ newline;
            str "2 errors reached (disable error limit with --error-limit=0)" ++ newline]
           eq_refl).
Defined.

Lemma count_kinds (l : list Msg) :
  0 <= countErrors l /\ 0 <= countWarnings l
  /\ countErrors l + countWarnings l = Z.of_nat (length l).
Proof.
  unfold countErrors, countWarnings. induction l as [|m l IH]; [cbn; lia|].
  cbn [filter length]. destruct (isError m); cbn [negb length]; lia.
Qed.

Lemma state_eq (l : list Msg) (e e' w w' : Z) (hit : bool) (out : list gostring) :
  e = e' -> w = w' -> Some (mkInfo l e w hit, out) = Some (mkInfo l e' w' hit, out).
Proof. intros -> ->. reflexivity. Qed.

Lemma count_cons (m : Msg) (l : list Msg) :
  countErrors (m :: l) = (if isError m then 1 else 0) + countErrors l
  /\ countWarnings (m :: l) = (if isError m then 0 else 1) + countWarnings l.
Proof.
  unfold countErrors, countWarnings. cbn [filter].
  destruct (isError m); cbn [negb length]; lia.
Qed.

(** Without a limit the worker goes through every message: it counts each
    one and writes those its level prints. *)
Lemma worker_unlimited (options : StderrOptions) (ti : TerminalInfo) (received : list Msg) :
  ErrorLimit options = 0 ->
  forall texts l e w stderr,
  Forall2 (fun msg text => Msg_String msg options ti = Some text)
    (filter (printedAt (LogLevelOpt options)) received) texts ->
  worker options ti (mkInfo l e w false, stderr) received
  = Some (mkInfo (l ++ received) (e + countErrors received) (w + countWarnings received)
            false, stderr ++ texts).
Proof.
  intros HL. induction received as [|msg received IH]; intros texts l e w stderr F.
  - inversion F. subst. rewrite !app_nil_r, !Z.add_0_r. reflexivity.
  - rewrite worker_cons. unfold workerStep.
    cbn [errorLimitWasHit msgs errors warnings]. rewrite HL.
    change (negb (0 =? 0)) with false. cbn [andb].
    cbn [filter] in F. unfold printedAt at 1 in F.
    destruct (count_cons msg received) as [CE CW]. rewrite CE, CW. unfold isError.
    destruct (Kind msg).
    + destruct (LogLevel_le (LogLevelOpt options) LevelError).
      * inversion F as [|m t ms ts Hm Hms]. subst. rewrite Hm. cbn [bind].
        rewrite (IH ts) by exact Hms.
        rewrite <- !app_assoc. cbn [app]. apply state_eq; lia.
      * cbn [bind]. rewrite (IH texts) by exact F.
        rewrite <- !app_assoc. cbn [app]. apply state_eq; lia.
    + destruct (LogLevel_le (LogLevelOpt options) LevelWarning).
      * inversion F as [|m t ms ts Hm Hms]. subst. rewrite Hm. cbn [bind].
        rewrite (IH ts) by exact Hms.
        rewrite <- !app_assoc. cbn [app]. apply state_eq; lia.
      * cbn [bind]. rewrite (IH texts) by exact F.
        rewrite <- !app_assoc. cbn [app]. apply state_eq; lia.
Qed.

(** X5: a sink without an error limit writes, in the order received, the
    rendering of every error and, unless its level is [LevelError], of every
    warning; then, if its level is at most [LevelInfo] and it received
    anything, one summary line with the numbers of all errors and warnings
    received; and it returns every message. *)
Theorem unlimited_sink_writes_all (SupportsColorEscapes : bool) (probed : TerminalInfo)
  (options : StderrOptions) (received : list Msg) (texts : list gostring) :
  ErrorLimit options = 0 ->
  Forall2 (fun msg text =>
             Msg_String msg options (sinkTerminalInfo SupportsColorEscapes probed options)
             = Some text)
    (filter (printedAt (LogLevelOpt options)) received) texts ->
  NewStderrLog SupportsColorEscapes probed options received
  = Some (texts
          ++ (if LogLevel_le (LogLevelOpt options) LevelInfo
                 && negb (Nat.eqb (length received) 0)
              then [info_String (mkInfo received (countErrors received)
                                   (countWarnings received) false) ++ newline]
              else []),
          received).
Proof.
  intros HL F. unfold NewStderrLog, startState.
  rewrite (worker_unlimited options _ received HL texts [] 0 0 [] F).
  cbn [bind join errorLimitWasHit negb andb msgs errors warnings app Z.add].
  destruct (count_kinds received) as (He & Hw & Hsum).
  destruct (LogLevel_le (LogLevelOpt options) LevelInfo); cbn [andb];
    [|rewrite app_nil_r; reflexivity].
  destruct received as [|m received].
  - cbn. rewrite app_nil_r. reflexivity.
  - cbn [length Nat.eqb negb].
    destruct (Z.eqb_spec (countWarnings (m :: received)) 0);
      destruct (Z.eqb_spec (countErrors (m :: received)) 0);
      cbn [negb orb]; try reflexivity.
    cbn [length] in Hsum. lia.
Qed.

Lemma unlimited_sink_writes_all_witness :
  NewStderrLog false (mkTerminalInfo false false 0)
    (mkOptions false 0 ColorIfTerminal LevelError)
    [AddWarning None (mkLoc 0) (str "w"); AddError None (mkLoc 0) (str "e")]
  = Some ([str "error: e" ++ newline],
          [AddWarning None (mkLoc 0) (str "w"); AddError None (mkLoc 0) (str "e")]).
Proof.
  apply (unlimited_sink_writes_all false (mkTerminalInfo false false 0)
           (mkOptions false 0 ColorIfTerminal LevelError)
           [AddWarning None (mkLoc 0) (str "w"); AddError None (mkLoc 0) (str "e")]
           [str "error: e" ++ newline] eq_refl).
  repeat constructor.
Defined.

Lemma LogLevel_le_Error (level : LogLevel) : LogLevel_le level LevelError = true.
Proof. destruct level; reflexivity. Qed.

(** X6: with a negative [ErrorLimit] the first message hits the limit,
    whatever its kind: it is written if the level prints it, the limit
    notice follows, and every later message is only recorded. *)
Theorem negative_limit_hits_at_once (SupportsColorEscapes : bool) (probed : TerminalInfo)
  (options : StderrOptions) (msg : Msg) (later : list Msg) (rendered : gostring) :
  ErrorLimit options < 0 ->
  (printedAt (LogLevelOpt options) msg = true ->
   Msg_String msg options (sinkTerminalInfo SupportsColorEscapes probed options)
   = Some rendered) ->
  NewStderrLog SupportsColorEscapes probed options (msg :: later)
  = Some ((if printedAt (LogLevelOpt options) msg then [rendered] else [])
          ++ [plural (if isError msg then str "error" else str "warning") 1
              ++ str " reached (disable error limit with --error-limit=0)" ++ newline],
          msg :: later).
Proof.
  intros HL HR. unfold NewStderrLog, startState. rewrite worker_cons.
  unfold workerStep. cbn [errorLimitWasHit msgs errors warnings app].
  unfold printedAt, isError in *.
  assert (C0 : negb (ErrorLimit options =? 0) = true)
    by (apply negb_true_iff, Z.eqb_neq; lia).
  assert (C1 : (0 + 1 >=? ErrorLimit options) = true)
    by (rewrite Z.geb_leb; apply Z.leb_le; lia).
  assert (C2 : (0 >=? ErrorLimit options) = true)
    by (rewrite Z.geb_leb; apply Z.leb_le; lia).
  rewrite (LogLevel_le_Error (LogLevelOpt options)) in *.
  destruct (Kind msg).
  - rewrite (HR eq_refl). cbn [bind errors]. rewrite C0, C1. cbn [andb bind].
    rewrite (worker_after_limit options _ later).
    cbn [bind join errorLimitWasHit negb andb msgs app]. reflexivity.
  - destruct (LogLevel_le (LogLevelOpt options) LevelWarning).
    + rewrite (HR eq_refl). cbn [bind errors]. rewrite C0, C2. cbn [andb bind].
      rewrite (worker_after_limit options _ later).
      cbn [bind join errorLimitWasHit negb andb msgs app]. reflexivity.
    + cbn [bind errors]. rewrite C0, C2. cbn [andb bind].
      rewrite (worker_after_limit options _ later).
      cbn [bind join errorLimitWasHit negb andb msgs app]. reflexivity.
Qed.

Lemma negative_limit_hits_at_once_witness :
  NewStderrLog false (mkTerminalInfo false false 0)
    (mkOptions false (-1) ColorIfTerminal LevelNone)
    [AddWarning None (mkLoc 0) (str "w"); AddError None (mkLoc 0) (str "e")]
  = Some ([str "warning: w" ++ newline;
           str "1 warning reached (disable error limit with --error-limit=0)" ++ newline],
          [AddWarning None (mkLoc 0) (str "w"); AddError None (mkLoc 0) (str "e")]).
Proof.
  apply (negative_limit_hits_at_once false (mkTerminalInfo false false 0)
           (mkOptions false (-1) ColorIfTerminal LevelNone)
           (AddWarning None (mkLoc 0) (str "w")) [AddError None (mkLoc 0) (str "e")]
           (str "warning: w" ++ newline)).
  - cbn. lia.
  - reflexivity.
Defined.

Lemma deferWorker_spec (received : list Msg) :
  forall result, deferWorker result received = result ++ received.
Proof.
  induction received as [|msg received IH]; intros result.
  - rewrite app_nil_r. reflexivity.
  - cbn [deferWorker]. rewrite IH, <- app_assoc. reflexivity.
Qed.

(** X7: the deferred sink returns exactly the messages it received, in
    order, and writes nothing; so handing what it returns to an interactive
    sink gives what the interactive sink would have done with the messages
    themselves. *)
Theorem NewDeferLog_returns_all (received : list Msg) :
  NewDeferLog received = ([], received)
  /\ (forall more, snd (NewDeferLog (received ++ more))
                   = snd (NewDeferLog received) ++ snd (NewDeferLog more))
  /\ (forall SupportsColorEscapes probed options,
        NewStderrLog SupportsColorEscapes probed options (snd (NewDeferLog received))
        = NewStderrLog SupportsColorEscapes probed options received).
Proof.
  unfold NewDeferLog. cbn [snd]. split; [|split].
  - rewrite deferWorker_spec. reflexivity.
  - intros more. rewrite !deferWorker_spec. reflexivity.
  - intros. rewrite deferWorker_spec. reflexivity.
Qed.

Lemma gostring_eqb_eq (a b : gostring) : gostring_eqb a b = true <-> a = b.
Proof.
  revert b. induction a as [|x a IH]; intros [|y b]; cbn [gostring_eqb];
    try (split; [discriminate|discriminate]); [tauto|].
  rewrite andb_true_iff, byte_eqb_eq, IH. split.
  - intros [-> ->]. reflexivity.
  - intros [= -> ->]. tauto.
Qed.

Lemma gostring_eqb_neq (a b : gostring) : a <> b -> gostring_eqb a b = false.
Proof.
  intros H. destruct (gostring_eqb a b) eqn:E; [|reflexivity].
  apply gostring_eqb_eq in E. contradiction.
Qed.

(** What one argument does to each field. *)
Lemma argStep_fields (options : StderrOptions) (arg : gostring) :
  IncludeSource (argStep options arg) = IncludeSource options
  /\ ErrorLimit (argStep options arg) = ErrorLimit options
  /\ (arg <> str "--color=false" -> arg <> str "--color=true" ->
      Color (argStep options arg) = Color options)
  /\ (arg <> str "--log-level=info" -> arg <> str "--log-level=warning" ->
      arg <> str "--log-level=error" ->
      LogLevelOpt (argStep options arg) = LogLevelOpt options).
Proof.
  unfold argStep.
  destruct (gostring_eqb arg (str "--color=false")) eqn:E1;
    [apply gostring_eqb_eq in E1; subst; repeat split; congruence|].
  destruct (gostring_eqb arg (str "--color=true")) eqn:E2;
    [apply gostring_eqb_eq in E2; subst; repeat split; congruence|].
  destruct (gostring_eqb arg (str "--log-level=info")) eqn:E3;
    [apply gostring_eqb_eq in E3; subst; repeat split; congruence|].
  destruct (gostring_eqb arg (str "--log-level=warning")) eqn:E4;
    [apply gostring_eqb_eq in E4; subst; repeat split; congruence|].
  destruct (gostring_eqb arg (str "--log-level=error")) eqn:E5;
    [apply gostring_eqb_eq in E5; subst; repeat split; congruence|].
  repeat split.
Qed.

Lemma fold_argStep_fields (args : list gostring) :
  forall options,
  IncludeSource (fold_left argStep args options) = IncludeSource options
  /\ ErrorLimit (fold_left argStep args options) = ErrorLimit options
  /\ ((forall a, In a args -> a <> str "--color=false" /\ a <> str "--color=true") ->
      Color (fold_left argStep args options) = Color options)
  /\ ((forall a, In a args -> a <> str "--log-level=info"
                              /\ a <> str "--log-level=warning"
                              /\ a <> str "--log-level=error") ->
      LogLevelOpt (fold_left argStep args options) = LogLevelOpt options).
Proof.
  induction args as [|arg args IH]; intros options; [repeat split|].
  cbn [fold_left]. destruct (IH (argStep options arg)) as (I1 & I2 & I3 & I4).
  destruct (argStep_fields options arg) as (S1 & S2 & S3 & S4).
  split; [congruence|]. split; [congruence|]. split.
  - intros H. rewrite I3 by (intros a Ha; apply H; right; exact Ha).
    destruct (H arg (or_introl eq_refl)). apply S3; assumption.
  - intros H. rewrite I4 by (intros a Ha; apply H; right; exact Ha).
    destruct (H arg (or_introl eq_refl)) as (A & B & C). apply S4; assumption.
Qed.

(** X8: the argument scan of [PrintErrorToStderr] never turns the source
    snippet or an error limit on; the last color flag and the last log-level
    flag among the arguments win, and arguments that are none of the five
    flags change nothing: without a color flag the mode stays
    [ColorIfTerminal], without a log-level flag the level stays
    [LevelNone]. *)
Theorem argOptions_last_flag_wins (before after : list gostring) :
  IncludeSource (argOptions before) = false
  /\ ErrorLimit (argOptions before) = 0
  /\ ((forall a, In a after -> a <> str "--color=false" /\ a <> str "--color=true") ->
      Color (argOptions (before ++ str "--color=false" :: after)) = ColorNever
      /\ Color (argOptions (before ++ str "--color=true" :: after)) = ColorAlways
      /\ Color (argOptions after) = ColorIfTerminal)
  /\ ((forall a, In a after -> a <> str "--log-level=info"
                               /\ a <> str "--log-level=warning"
                               /\ a <> str "--log-level=error") ->
      LogLevelOpt (argOptions (before ++ str "--log-level=info" :: after)) = LevelInfo
      /\ LogLevelOpt (argOptions (before ++ str "--log-level=warning" :: after))
         = LevelWarning
      /\ LogLevelOpt (argOptions (before ++ str "--log-level=error" :: after)) = LevelError
      /\ LogLevelOpt (argOptions after) = LevelNone).
Proof.
  unfold argOptions.
  split; [apply fold_argStep_fields|]. split; [apply fold_argStep_fields|]. split.
  - intros H. rewrite !fold_left_app. cbn [fold_left].
    repeat split;
      rewrite (proj1 (proj2 (proj2 (fold_argStep_fields after _))) H); reflexivity.
  - intros H. rewrite !fold_left_app. cbn [fold_left].
    repeat split;
      rewrite (proj2 (proj2 (proj2 (fold_argStep_fields after _))) H); reflexivity.
Qed.

Lemma argOptions_last_flag_wins_witness :
  Color (argOptions ([str "--color=true"; str "build"] ++ str "--color=false"
                     :: [str "--log-level=error"; str "--minify"])) = ColorNever.
Proof.
  refine (proj1 (proj1 (proj2 (proj2 (argOptions_last_flag_wins
    [str "--color=true"; str "build"] [str "--log-level=error"; str "--minify"]))) _)).
  intros a [<-|[<-|[]]]; split; discriminate.
Defined.

(** X9: [PrintErrorToStderr] never panics.  It writes the error, as
    "error: <text>" and a newline, wrapped in the color escapes when the
    sink has color on, and then, if the level the arguments chose is at most
    [LevelInfo], the summary "1 error"; nothing else. *)
Theorem PrintErrorToStderr_output (SupportsColorEscapes : bool) (probed : TerminalInfo)
  (osArgs : list gostring) (text : gostring) :
  PrintErrorToStderr SupportsColorEscapes probed osArgs text
  = Some ((if sinkColorEnabled SupportsColorEscapes probed (Color (argOptions osArgs))
           then colorBold ++ colorRed ++ str "error: " ++ colorResetBold ++ text
                ++ colorReset ++ newline
           else str "error: " ++ text ++ newline)
          :: (if LogLevel_le (LogLevelOpt (argOptions osArgs)) LevelInfo
              then [str "1 error" ++ newline] else [])).
Proof.
  unfold PrintErrorToStderr, NewStderrLog, startState, AddError. rewrite worker_cons.
  unfold workerStep. cbn [errorLimitWasHit msgs errors warnings app Kind].
  rewrite LogLevel_le_Error.
  assert (HL : ErrorLimit (argOptions osArgs) = 0) by apply fold_argStep_fields.
  rewrite HL.
  unfold Msg_String. cbn [MsgSource Kind Text kindName].
  rewrite sinkTerminalInfo_color.
  change (negb (0 =? 0)) with false. cbn [andb].
  destruct (sinkColorEnabled SupportsColorEscapes probed (Color (argOptions osArgs)));
    cbn [bind worker join errorLimitWasHit negb andb msgs errors warnings fst];
    destruct (LogLevel_le (LogLevelOpt (argOptions osArgs)) LevelInfo); reflexivity.
Qed.

(* ================================================================= *)
(** * Part XIV: further properties of the renderer *)
(* ================================================================= *)

Lemma countBareLineFeeds_nonneg (cs : list rune) :
  forall prev, 0 <= countBareLineFeeds prev cs.
Proof.
  induction cs as [|c cs IH]; intros prev; cbn [countBareLineFeeds]; [lia|].
  specialize (IH c). destruct ((c =? 10) && negb (prev =? 13)); lia.
Qed.

Lemma Repeat_tilde (n : Z) (t : gostring) :
  Repeat (str "~") n = Some t -> t = repeat Byte.x7e (Z.to_nat n).
Proof.
  unfold Repeat. destruct (n <? 0); [discriminate|]. intros [= <-].
  induction (Z.to_nat n) as [|k IH]; [reflexivity|].
  cbn [repeat concat]. rewrite IH. reflexivity.
Qed.

(** What a detail that was produced is made of. *)
Lemma detailStruct_parts (msg : Msg) (terminalInfo : TerminalInfo) (d : MsgDetail) :
  detailStruct msg terminalInfo = Some d ->
  exists source markerStart markerEnd,
    MsgSource msg = Some source
    /\ Path d = PrettyPath source /\ Message d = Text msg /\ DKind d = kindName (Kind msg)
    /\ 1 <= Line d /\ 0 <= Column d <= Start msg
    /\ sliceTo (DSource d) markerStart = Some (SourceBefore d)
    /\ slice (DSource d) markerStart markerEnd = Some (SourceMarked d)
    /\ sliceFrom (DSource d) markerEnd = Some (SourceAfter d)
    /\ (if markerEnd - markerStart >? 1
        then Repeat (str "~") (markerEnd - markerStart) else Some (str "^"))
       = Some (Marker d).
Proof.
  intros H. unfold detailStruct in H.
  bind_inv H. rename s into source.
  bind_inv H. rename g into before.
  destruct (ComputeLineAndColumn before) as [[lineCount columnCount] lineStart] eqn:LC.
  pose proof (ComputeLineAndColumn_lineCount before) as HC. rewrite LC in HC.
  cbn [fst] in HC. pose proof (countBareLineFeeds_nonneg (runes before) 0) as HN.
  pose proof (ComputeLineAndColumn_bounds _ _ _ _ LC) as [Hls Hcc].
  pose proof (slice_len _ _ _ _ E0) as Hb.
  do 7 bind_inv H.
  bind_inv H. destruct p as [[[shown indent'] markerStart'] markerEnd'].
  bind_inv H. rename g4 into marker.
  bind_inv H. bind_inv H. bind_inv H. injection H as <-.
  cbn [Path Message DKind Line Column DSource SourceBefore SourceMarked SourceAfter Marker].
  exists source, markerStart', markerEnd'. repeat split; try assumption; try lia.
Qed.

Lemma slices_concat (s before marked after : gostring) (a b : Z) :
  sliceTo s a = Some before -> slice s a b = Some marked -> sliceFrom s b = Some after ->
  before ++ marked ++ after = s /\ len marked = b - a.
Proof.
  intros H1 H2 H3. pose proof (slice_len _ _ _ _ H2) as L.
  apply slice_inv in H1, H2, H3.
  destruct H1 as (A1 & A2 & A3 & ->), H2 as (B1 & B2 & B3 & ->), H3 as (C1 & C2 & C3 & ->).
  split; [|exact L].
  rewrite Z.sub_0_r. cbn [Z.to_nat skipn].
  rewrite (firstn_all2 (skipn (Z.to_nat b) s)) by (rewrite length_skipn; unfold len; lia).
  rewrite <- (firstn_skipn (Z.to_nat a) s) at 4. f_equal.
  rewrite <- (firstn_skipn (Z.to_nat (b - a)) (skipn (Z.to_nat a) s)) at 2.
  f_equal. rewrite skipn_skipn. f_equal. lia.
Qed.

(** X10: whenever [detailStruct] produces a detail, its three parts make up
    the shown line ([Source == SourceBefore + SourceMarked + SourceAfter]),
    and the marker is one caret when the marked part has at most one column
    and otherwise one tilde per marked column; the path, message and kind
    are those of the message, the line is at least 1 and the column lies
    between 0 and [Start]. *)
Theorem detail_parts_and_marker (msg : Msg) (terminalInfo : TerminalInfo) (d : MsgDetail) :
  detailStruct msg terminalInfo = Some d ->
  SourceBefore d ++ SourceMarked d ++ SourceAfter d = DSource d
  /\ Marker d = (if len (SourceMarked d) >? 1
                 then repeat Byte.x7e (Z.to_nat (len (SourceMarked d)))
                 else str "^")
  /\ (exists source, MsgSource msg = Some source /\ Path d = PrettyPath source)
  /\ Message d = Text msg
  /\ DKind d = kindName (Kind msg)
  /\ 1 <= Line d
  /\ 0 <= Column d <= Start msg.
Proof.
  intros H. destruct (detailStruct_parts _ _ _ H) as
    (source & ms & me & HS & HP & HM & HK & HL & HC & S1 & S2 & S3 & HMk).
  destruct (slices_concat _ _ _ _ _ _ S1 S2 S3) as [Hcat Hlen].
  split; [exact Hcat|]. split.
  - rewrite Hlen. destruct (me - ms >? 1).
    + apply Repeat_tilde. exact HMk.
    + injection HMk as <-. reflexivity.
  - split; [exists source; tauto|]. tauto.
Qed.

Lemma detail_parts_and_marker_witness :
  option_map (fun d => (SourceBefore d, SourceMarked d, SourceAfter d, Marker d))
    (detailStruct (mkMsg (Some (mkSource 0 [] (str "a.js") (str "let abc = 1")))
                     4 3 (str "m") Warning)
       (mkTerminalInfo false false 0))
  = Some (str "let ", str "abc", str " = 1", str "~~~").
Proof.
  destruct (detailStruct (mkMsg (Some (mkSource 0 [] (str "a.js") (str "let abc = 1")))
                            4 3 (str "m") Warning)
              (mkTerminalInfo false false 0)) as [d|] eqn:E; [|discriminate E].
  destruct (detail_parts_and_marker _ _ _ E) as (_ & HM & _).
  vm_compute in E. injection E as <-. reflexivity.
Defined.

Lemma ends_app (x y : gostring) :
  (exists body, y = body ++ newline) -> exists body, x ++ y = body ++ newline.
Proof. intros (body & ->). exists (x ++ body). rewrite app_assoc. reflexivity. Qed.

Lemma ends_cons (b : byte) (y : gostring) :
  (exists body, y = body ++ newline) -> exists body, b :: y = body ++ newline.
Proof. intros (body & ->). exists (b :: body). reflexivity. Qed.

Lemma ends_newline : exists body, newline = body ++ newline.
Proof. exists []. reflexivity. Qed.

(** X11: rendering a message that has no source, or with the snippet
    turned off, never panics; and every rendering, in color or not, ends with
    a newline. *)
Theorem Msg_String_line (msg : Msg) (options : StderrOptions) (terminalInfo : TerminalInfo) :
  (MsgSource msg = None \/ IncludeSource options = false ->
   exists out, Msg_String msg options terminalInfo = Some out)
  /\ (forall out, Msg_String msg options terminalInfo = Some out ->
        exists body, out = body ++ newline).
Proof.
  unfold Msg_String. split.
  - intros [H|H]; rewrite H.
    + destruct (UseColorEscapes terminalInfo); eexists; reflexivity.
    + destruct (MsgSource msg); cbn [negb];
        destruct (UseColorEscapes terminalInfo); eexists; reflexivity.
  - intros out H.
    destruct (MsgSource msg) as [source|];
      [destruct (negb (IncludeSource options));
       [|destruct (detailStruct msg terminalInfo) as [d|]; [cbn [bind] in H|discriminate H]]|];
      destruct (UseColorEscapes terminalInfo);
      (assert (E : Some out = Some out) by reflexivity; rewrite <- H in E at 1;
       injection E as <-);
      repeat (first [exact ends_newline|apply ends_app|apply ends_cons]).
Qed.

Lemma Msg_String_line_witness :
  exists out, Msg_String (AddWarning (Some (mkSource 0 [] (str "a.js") [])) (mkLoc 9) (str "w"))
                (mkOptions false 0 ColorNever LevelInfo) (mkTerminalInfo false true 0)
              = Some out.
Proof.
  apply (proj1 (Msg_String_line
    (AddWarning (Some (mkSource 0 [] (str "a.js") [])) (mkLoc 9) (str "w"))
    (mkOptions false 0 ColorNever LevelInfo) (mkTerminalInfo false true 0))).
  right. reflexivity.
Defined.

Lemma Some_inj {A : Type} (x y : A) : Some x = Some y -> x = y.
Proof. intros [= H]. exact H. Qed.

Lemma byte_eqb_sym (a b : byte) : byte_eqb a b = byte_eqb b a.
Proof. unfold byte_eqb. apply Z.eqb_sym. Qed.

Lemma strip_clean (a b : gostring) :
  hasEscape a = false -> stripEscapes false (a ++ b) = a ++ stripEscapes false b.
Proof.
  induction a as [|x a IH]; intros H; [reflexivity|].
  rewrite hasEscape_cons in H. apply orb_false_iff in H. destruct H as [H1 H2].
  cbn [app stripEscapes]. rewrite byte_eqb_sym, H1, (IH H2). reflexivity.
Qed.

Lemma strip_clean_end (a : gostring) : hasEscape a = false -> stripEscapes false a = a.
Proof.
  intros H. rewrite <- (app_nil_r a) at 1. rewrite (strip_clean a [] H).
  apply app_nil_r.
Qed.

Lemma strip_colors (b : gostring) :
  stripEscapes false (colorReset ++ b) = stripEscapes false b
  /\ stripEscapes false (colorRed ++ b) = stripEscapes false b
  /\ stripEscapes false (colorGreen ++ b) = stripEscapes false b
  /\ stripEscapes false (colorMagenta ++ b) = stripEscapes false b
  /\ stripEscapes false (colorBold ++ b) = stripEscapes false b
  /\ stripEscapes false (colorResetBold ++ b) = stripEscapes false b.
Proof. repeat split. Qed.

Ltac strip_step :=
  first
    [ rewrite (proj1 (strip_colors _))
    | rewrite (proj1 (proj2 (strip_colors _)))
    | rewrite (proj1 (proj2 (proj2 (strip_colors _))))
    | rewrite (proj1 (proj2 (proj2 (proj2 (strip_colors _)))))
    | rewrite (proj1 (proj2 (proj2 (proj2 (proj2 (strip_colors _))))))
    | rewrite (proj2 (proj2 (proj2 (proj2 (proj2 (strip_colors _))))))
    | rewrite strip_clean
        by first [assumption|apply fmt_d_clean|apply kindName_clean|reflexivity]
    | rewrite strip_clean_end by reflexivity ].

Lemma detailStruct_width (msg : Msg) (ti1 ti2 : TerminalInfo) :
  Width ti1 = Width ti2 -> detailStruct msg ti1 = detailStruct msg ti2.
Proof. intros H. unfold detailStruct. rewrite H. reflexivity. Qed.

(** X12: color only adds escape sequences.  For a message that carries no
    escape byte of its own, whenever the rendering in color succeeds, the
    rendering without color on the same terminal succeeds too and is the
    colored text with every escape sequence taken out. *)
Theorem color_adds_only_escapes (msg : Msg) (options : StderrOptions)
  (terminalInfo : TerminalInfo) (colored : gostring) :
  UseColorEscapes terminalInfo = true ->
  Msg_String msg options terminalInfo = Some colored ->
  hasEscape (Text msg) = false ->
  (forall source, MsgSource msg = Some source ->
     hasEscape (PrettyPath source) = false /\ hasEscape (Contents source) = false) ->
  Msg_String msg options
    {| IsTTY := IsTTY terminalInfo; UseColorEscapes := false; Width := Width terminalInfo |}
  = Some (stripEscapes false colored).
Proof.
  intros U H CT CS. unfold Msg_String in *. cbn [UseColorEscapes]. rewrite U in H.
  destruct (MsgSource msg) as [source|] eqn:HS.
  - destruct (CS source eq_refl) as [CP CC].
    destruct (negb (IncludeSource options)).
    + apply Some_inj in H. subst colored. f_equal.
      destruct (Kind msg); cbn [kindName]; repeat strip_step; reflexivity.
    + rewrite (detailStruct_width msg
                 {| IsTTY := IsTTY terminalInfo; UseColorEscapes := false;
                    Width := Width terminalInfo |} terminalInfo eq_refl).
      destruct (detailStruct msg terminalInfo) as [d|] eqn:D; [|discriminate H].
      cbn [bind] in *. apply Some_inj in H. subst colored. f_equal.
      destruct (detailStruct_clean _ _ _ _ D HS CT CP CC) as (C1 & C2 & C3 & C4 & C5 & C6).
      destruct (detailStruct_parts _ _ _ D) as
        (src' & ms & me & _ & _ & _ & HK & _ & _ & S1 & S2 & S3 & _).
      destruct (slices_concat _ _ _ _ _ _ S1 S2 S3) as [Hcat _].
      assert (CB : hasEscape (SourceBefore d) = false
                   /\ hasEscape (SourceMarked d) = false
                   /\ hasEscape (SourceAfter d) = false).
      { rewrite <- Hcat, !hasEscape_app in C4. apply orb_false_iff in C4.
        destruct C4 as [A B]. apply orb_false_iff in B. tauto. }
      destruct CB as (B1 & B2 & B3).
      rewrite <- Hcat at 1.
      destruct (Kind msg); repeat strip_step; rewrite <- ?app_assoc; reflexivity.
  - apply Some_inj in H. subst colored. f_equal.
    destruct (Kind msg); cbn [kindName]; repeat strip_step; reflexivity.
Qed.

Lemma color_adds_only_escapes_witness :
  Msg_String (AddError None (mkLoc 0) (str "bad")) (mkOptions false 0 ColorAlways LevelInfo)
    (mkTerminalInfo true false 80)
  = Some (stripEscapes false
            (colorBold ++ colorRed ++ str "error: " ++ colorResetBold ++ str "bad"
             ++ colorReset ++ newline)).
Proof.
  apply (color_adds_only_escapes (AddError None (mkLoc 0) (str "bad"))
           (mkOptions false 0 ColorAlways LevelInfo) (mkTerminalInfo true true 80));
    try reflexivity.
  intros source H. discriminate H.
Defined.

(* ================================================================= *)
(** * Part XV: what tab expansion and the shown line never contain *)
(* ================================================================= *)

Lemma ContainsByte_app (a b : gostring) (x : byte) :
  ContainsByte (a ++ b) x = ContainsByte a x || ContainsByte b x.
Proof. apply existsb_app. Qed.

Lemma ContainsByte_firstn (s : gostring) (x : byte) (n : nat) :
  ContainsByte s x = false -> ContainsByte (firstn n s) x = false.
Proof.
  unfold ContainsByte. revert s. induction n as [|n IH]; intros s H; [reflexivity|].
  destruct s as [|c t]; [reflexivity|]. simpl in H. apply orb_false_iff in H.
  simpl. apply orb_false_iff. split; [tauto|apply IH; tauto].
Qed.

Lemma ContainsByte_slice (s t : gostring) (x : byte) (lo hi : Z) :
  slice s lo hi = Some t -> ContainsByte s x = false -> ContainsByte t x = false.
Proof.
  intros H C. apply slice_inv in H. destruct H as (_ & _ & _ & ->).
  apply ContainsByte_firstn, ContainsByte_skipn, C.
Qed.

Lemma ContainsByte_repeat (x y : byte) (n : nat) :
  x <> y -> ContainsByte (repeat y n) x = false.
Proof.
  intros H. induction n as [|n IH]; [reflexivity|].
  cbn [repeat]. unfold ContainsByte in *. cbn [existsb]. rewrite IH.
  apply byte_eqb_neq in H. rewrite H. reflexivity.
Qed.

Lemma of_Z_not_byte (x : byte) (z : Z) :
  0 <= z < 256 -> z <> byte.unsigned x -> byte_eqb x (byte.of_Z z) = false.
Proof.
  intros H N. unfold byte_eqb. rewrite byte.unsigned_of_Z. unfold byte.wrap.
  rewrite Z.mod_small by lia. apply Z.eqb_neq. lia.
Qed.

(** Writing a code point other than the ASCII code [x] writes no byte [x]. *)
Lemma encodeRune_without (x : byte) (r : rune) :
  byte.unsigned x < 0x80 -> r <> byte.unsigned x ->
  ContainsByte (encodeRune r) x = false.
Proof.
  intros Hx N. pose proof (byte.unsigned_range x) as Rx.
  unfold encodeRune, encode3.
  destruct (r <? 0) eqn:E1.
  { unfold ContainsByte. cbn [existsb].
    rewrite !of_Z_not_byte by (unfold RuneError; Z.to_euclidean_division_equations; lia).
    reflexivity. }
  destruct (r <=? 0x7F) eqn:E2.
  { unfold ContainsByte. cbn [existsb]. rewrite of_Z_not_byte by lia. reflexivity. }
  destruct (r <=? 0x7FF) eqn:E3.
  { unfold ContainsByte. cbn [existsb].
    rewrite !of_Z_not_byte by (Z.to_euclidean_division_equations; lia). reflexivity. }
  destruct ((0x10FFFF <? r) || ((0xD800 <=? r) && (r <=? 0xDFFF))) eqn:E4.
  { unfold ContainsByte. cbn [existsb].
    rewrite !of_Z_not_byte by (unfold RuneError; Z.to_euclidean_division_equations; lia).
    reflexivity. }
  apply orb_false_iff in E4. destruct E4 as [E4 _].
  destruct (r <=? 0xFFFF) eqn:E5;
    unfold ContainsByte; cbn [existsb];
    rewrite !of_Z_not_byte by (Z.to_euclidean_division_equations; lia); reflexivity.
Qed.

(** The loop writes no byte [x] if [x] is ASCII, is not the space, and is
    the code of no code point other than tabs. *)
Lemma tabLoop_without (x : byte) (spacesPerTab : Z) (cs : list rune) :
  byte.unsigned x < 0x80 -> x <> byteSpace ->
  Forall (fun c => c = 9 \/ c <> byte.unsigned x) cs ->
  forall withoutTabs count out,
  ContainsByte withoutTabs x = false ->
  tabLoop spacesPerTab cs withoutTabs count = Some out ->
  ContainsByte out x = false.
Proof.
  intros Hx Hs. induction 1 as [|c cs Hc Hcs IH]; intros withoutTabs count out C H.
  - injection H as <-. exact C.
  - cbn [tabLoop] in H. destruct (c =? 9) eqn:E.
    + destruct (spacesPerTab =? 0); [discriminate|].
      rewrite writeSpaces_spec in H. apply IH in H; [exact H|].
      rewrite ContainsByte_app, C, ContainsByte_repeat by exact Hs. reflexivity.
    + apply Z.eqb_neq in E. destruct Hc as [Hc|Hc]; [contradiction|].
      apply IH in H; [exact H|].
      rewrite ContainsByte_app, C, encodeRune_without by assumption. reflexivity.
Qed.

Lemma renderTabStops_no_tab (s out : gostring) (spacesPerTab : Z) :
  renderTabStops s spacesPerTab = Some out -> ContainsByte out byteTab = false.
Proof.
  intros H. unfold renderTabStops, renderTabStops_loop in H.
  destruct (ContainsByte s byteTab) eqn:T; cbn [negb] in H.
  - apply (tabLoop_without byteTab spacesPerTab (runes s)) with (withoutTabs := [])
      (count := 0); try reflexivity; try exact H; [discriminate|].
    apply Forall_forall. intros c _. change (byte.unsigned byteTab) with 9. lia.
  - injection H as <-. exact T.
Qed.

(** X13: what [renderTabStops] returns holds no tab, so expanding it again
    changes nothing. *)
Theorem renderTabStops_idempotent (s out : gostring) (spacesPerTab : Z) :
  renderTabStops s spacesPerTab = Some out ->
  ContainsByte out byteTab = false
  /\ renderTabStops out spacesPerTab = Some out.
Proof.
  intros H. pose proof (renderTabStops_no_tab _ _ _ H) as C.
  split; [exact C|]. unfold renderTabStops. rewrite C. reflexivity.
Qed.

Lemma renderTabStops_idempotent_witness :
  renderTabStops (str "ab  c") 2 = Some (str "ab  c").
Proof.
  apply (proj2 (renderTabStops_idempotent (str "ab" ++ [byteTab] ++ str "c") (str "ab  c") 2
                  eq_refl)).
Defined.

(** Every byte a decoding step consumes is the ASCII code point it yields,
    or is not ASCII. *)
Lemma decodeRune_bytes (s : gostring) (r : rune) (n : nat) :
  decodeRune s = (r, n) -> s <> [] ->
  Forall (fun x => (byte.unsigned x = r /\ r < 0x80) \/ 0x80 <= byte.unsigned x)
    (firstn n s).
Proof.
  intros D Hs. destruct s as [|b0 t]; [congruence|].
  destruct (Z_lt_le_dec (byte.unsigned b0) 0x80) as [A|A].
  - unfold decodeRune in D. destruct (byte.unsigned b0 <? 128) eqn:E; [|lia].
    injection D as <- <-. cbn [firstn]. repeat constructor; lia.
  - apply decodeRune_cases in D.
    destruct D as [[-> ->]|[(c0 & t' & [= <- <-] & -> & -> & Hr)|
      [(c0 & c1 & t' & [= <- ->] & -> & H0 & H1 & ->)|
      [(c0 & c1 & c2 & t' & [= <- ->] & -> & H0 & H1 & H2 & ->)|
       (c0 & c1 & c2 & c3 & t' & [= <- ->] & -> & H0 & H1 & H2 & H3 & ->)]]]];
      cbn [firstn]; try apply second_range in H1; repeat constructor; lia.
Qed.

Lemma consumed_without (x : byte) (s : gostring) (r : rune) (n : nat) :
  byte.unsigned x < 0x80 -> decodeRune s = (r, n) -> s <> [] ->
  r <> byte.unsigned x -> ContainsByte (firstn n s) x = false.
Proof.
  intros Hx D Hs N. pose proof (decodeRune_bytes s r n D Hs) as F.
  induction F as [|y l Hy Hl IH]; [reflexivity|].
  unfold ContainsByte in *. cbn [existsb]. rewrite IH, orb_false_r.
  unfold byte_eqb. apply Z.eqb_neq. lia.
Qed.

Lemma firstn_add (s : gostring) (n m : nat) :
  firstn (n + m) s = firstn n s ++ firstn m (skipn n s).
Proof.
  revert s. induction n as [|n IH]; intros s; [reflexivity|].
  destruct s as [|c t]; [destruct m; reflexivity|].
  cbn [Nat.add firstn skipn app]. f_equal. apply IH.
Qed.

Lemma findLineEnd_lower (rs : list (Z * rune)) (lineStart lineEnd low : Z) :
  Forall (fun ic => low <= fst ic) rs -> lineStart + low <= lineEnd ->
  lineStart + low <= findLineEnd rs lineStart lineEnd.
Proof.
  induction 1 as [|[i c] rs Hi Hrs IH]; intros H; [exact H|].
  cbn [findLineEnd]. cbn [fst] in Hi. destruct (isLineBreak c); [lia|apply IH; exact H].
Qed.

(** The bytes before the line end the loop of lines 333-340 finds hold no
    line feed and no carriage return. *)
Lemma line_without_breaks (x : byte) (lineStart : Z) :
  byte.unsigned x = 10 \/ byte.unsigned x = 13 ->
  forall s i,
  ContainsByte
    (firstn (Z.to_nat (findLineEnd (rangeFrom (length s) i s) lineStart
                         (lineStart + i + len s) - lineStart - i)) s) x = false.
Proof.
  intros Hx.
  apply (range_ind (fun i s => ContainsByte
    (firstn (Z.to_nat (findLineEnd (rangeFrom (length s) i s) lineStart
                         (lineStart + i + len s) - lineStart - i)) s) x = false)).
  - intros i. destruct (Z.to_nat _); reflexivity.
  - intros i s r n Hs D Hn IH.
    rewrite (rangeFrom_step i s r n Hs D). cbn [findLineEnd].
    destruct (isLineBreak r) eqn:B.
    + replace (lineStart + i - lineStart - i) with 0 by lia. reflexivity.
    + assert (Hlen : len (skipn n s) = len s - Z.of_nat n)
        by (unfold len; rewrite length_skipn; lia).
      replace (lineStart + i + len s)
        with (lineStart + (i + Z.of_nat n) + len (skipn n s)) by lia.
      set (e := findLineEnd (rangeFrom (length (skipn n s)) (i + Z.of_nat n) (skipn n s))
                  lineStart (lineStart + (i + Z.of_nat n) + len (skipn n s))) in *.
      assert (He : lineStart + (i + Z.of_nat n) <= e).
      { apply findLineEnd_lower.
        - eapply Forall_impl; [|apply rangeFrom_offsets]. intros ic. cbn. lia.
        - pose proof (len_nonneg (skipn n s)). lia. }
      replace (Z.to_nat (e - lineStart - i))
        with (n + Z.to_nat (e - lineStart - (i + Z.of_nat n)))%nat by lia.
      rewrite firstn_add, ContainsByte_app, IH, orb_false_r.
      apply (consumed_without x s r n); try assumption; [lia|].
      unfold isLineBreak in B. apply orb_false_iff in B. destruct B as [B _].
      apply orb_false_iff in B. destruct B as [B B'].
      apply orb_false_iff in B. destruct B as [B1 B2].
      apply Z.eqb_neq in B1, B2. lia.
Qed.

Lemma renderTabStops_without (x : byte) (s t : gostring) (spacesPerTab : Z) :
  byte.unsigned x < 0x80 -> x <> byteSpace ->
  renderTabStops s spacesPerTab = Some t ->
  ContainsByte s x = false -> ContainsByte t x = false.
Proof.
  intros Hx Hs H C. unfold renderTabStops, renderTabStops_loop in H.
  destruct (ContainsByte s byteTab); cbn [negb] in H; [|injection H as <-; exact C].
  apply (tabLoop_without x spacesPerTab (runes s) Hx Hs) with (withoutTabs := [])
    (count := 0); try reflexivity; try exact H.
  eapply Forall_impl; [|apply (runes_without_byte x s 0 Hx C)].
  intros c Hc. right. exact Hc.
Qed.

Lemma Repeat_without (x y : byte) (n : Z) (t : gostring) :
  x <> y -> Repeat [y] n = Some t -> ContainsByte t x = false.
Proof.
  intros H. unfold Repeat. destruct (n <? 0); [discriminate|]. intros [= <-].
  induction (Z.to_nat n) as [|k IH]; [reflexivity|].
  cbn [repeat concat]. rewrite ContainsByte_app, IH, orb_false_r.
  unfold ContainsByte. cbn [existsb]. apply byte_eqb_neq in H. rewrite H. reflexivity.
Qed.

Lemma trimToWidth_without (x : byte) (W : Z) (lineText : gostring)
  (markerStart markerEnd : Z) (shown indent : gostring) (markerStart' markerEnd' : Z) :
  x <> Byte.x2e -> x <> byteSpace ->
  trimToWidth W lineText markerStart markerEnd = Some (shown, indent, markerStart', markerEnd') ->
  ContainsByte lineText x = false ->
  ContainsByte shown x = false /\ ContainsByte indent x = false.
Proof.
  intros Hdot Hsp H C. unfold trimToWidth in H.
  assert (Cdots : ContainsByte (str "...") x = false)
    by apply (ContainsByte_repeat x Byte.x2e 3 Hdot).
  bind_inv H. rename g into sl. pose proof (ContainsByte_slice _ _ _ _ _ E C) as C1.
  bind_inv H. destruct p as [sl2 m2].
  assert (C2 : ContainsByte sl2 x = false).
  { destruct ((len sl >? 3) && _) in E0.
    - bind_inv E0. injection E0 as <- _.
      match goal with
      | |- ContainsByte (_ :: _ :: _ :: ?t) x = false =>
        change (ContainsByte (str "..." ++ t) x = false)
      end.
      rewrite ContainsByte_app, Cdots, (ContainsByte_slice _ _ _ _ _ E1 C1). reflexivity.
    - injection E0 as <- _. exact C1. }
  bind_inv H. destruct p as [sl3 e3].
  assert (C3 : ContainsByte sl3 x = false).
  { destruct ((len sl2 >? 3) && _) in E1.
    - bind_inv E1. injection E1 as <- _.
      rewrite ContainsByte_app, (ContainsByte_slice _ _ _ _ _ E2 C2).
      exact Cdots.
    - injection E1 as <- _. exact C2. }
  bind_inv H. injection H as <- <- _ _.
  split; [exact C3|]. apply (Repeat_without x byteSpace _ _ Hsp E2).
Qed.

(** X14: the shown line of a detail, its indent and its marker hold no tab,
    no line feed and no carriage return: the snippet is always the source
    line, one line, and the marker line below it. *)
Theorem detail_is_one_line (msg : Msg) (terminalInfo : TerminalInfo) (d : MsgDetail)
  (x : byte) :
  detailStruct msg terminalInfo = Some d ->
  x = byteTab \/ x = Byte.x0a \/ x = Byte.x0d ->
  ContainsByte (DSource d) x = false
  /\ ContainsByte (Indent d) x = false
  /\ ContainsByte (Marker d) x = false.
Proof.
  intros H Hx.
  assert (Hascii : byte.unsigned x < 0x80) by (destruct Hx as [-> | [-> | ->]]; reflexivity).
  assert (Hsp : x <> byteSpace) by (destruct Hx as [-> | [-> | ->]]; discriminate).
  assert (Hdot : x <> Byte.x2e) by (destruct Hx as [-> | [-> | ->]]; discriminate).
  assert (Htil : x <> Byte.x7e) by (destruct Hx as [-> | [-> | ->]]; discriminate).
  assert (Hcar : ContainsByte (str "^") x = false)
    by (destruct Hx as [-> | [-> | ->]]; reflexivity).
  unfold detailStruct in H.
  bind_inv H. rename s into source.
  bind_inv H. rename g into before.
  destruct (ComputeLineAndColumn before) as [[lineCount columnCount] lineStart] eqn:LC.
  bind_inv H. rename g into rest.
  bind_inv H. rename g into line.
  bind_inv H. rename g into lineText.
  bind_inv H. rename g into toStart.
  bind_inv H. rename g into expandedToStart.
  bind_inv H. rename g into indent.
  bind_inv H. rename z into markerEnd0.
  bind_inv H. destruct p as [[[shown indent'] markerStart'] markerEnd'].
  bind_inv H. rename g into marker.
  bind_inv H. bind_inv H. bind_inv H. injection H as <-.
  cbn [DSource Indent Marker].
  assert (CL : ContainsByte lineText x = false).
  { destruct Hx as [-> | Hx]; [apply (renderTabStops_no_tab _ _ _ E3)|].
    apply (renderTabStops_without x _ _ _ Hascii Hsp E3).
    pose proof (slice_inv _ _ _ _ E1) as (R1 & R2 & R3 & Hrest).
    pose proof (slice_inv _ _ _ _ E2) as (L1 & L2 & L3 & ->).
    assert (Hr : rest = skipn (Z.to_nat lineStart) (Contents source)).
    { rewrite Hrest. apply firstn_all2. rewrite length_skipn. unfold len. lia. }
    rewrite <- Hr.
    pose proof (line_without_breaks x lineStart
                  ltac:(destruct Hx as [-> | ->]; [left|right]; reflexivity) rest 0) as LW.
    assert (Hlen : len rest = len (Contents source) - lineStart).
    { rewrite Hr. apply len_skipn. lia. }
    replace (lineStart + 0 + len rest) with (len (Contents source)) in LW by lia.
    rewrite Z.sub_0_r in LW. exact LW. }
  assert (CI : ContainsByte indent x = false)
    by apply (Repeat_without x byteSpace _ _ Hsp E6).
  assert (CS : ContainsByte shown x = false /\ ContainsByte indent' x = false).
  { destruct ((Width terminalInfo >? 0) && _) in E8.
    - apply (trimToWidth_without x _ _ _ _ _ _ _ _ Hdot Hsp E8 CL).
    - injection E8 as <- <- _ _. split; assumption. }
  split; [tauto|]. split; [tauto|].
  destruct (markerEnd' - markerStart' >? 1) in E9.
  - apply (Repeat_without x Byte.x7e _ _ Htil E9).
  - injection E9 as <-. exact Hcar.
Qed.

Lemma detail_is_one_line_witness :
  option_map (fun d => ContainsByte (DSource d) byteTab)
    (detailStruct (mkMsg (Some (mkSource 0 [] (str "a.js")
                                  ([byteTab] ++ str "x;" ++ [Byte.x0d; Byte.x0a] ++ str "y")))
                     1 1 (str "m") Error)
       (mkTerminalInfo false false 0))
  = Some false.
Proof.
  destruct (detailStruct (mkMsg (Some (mkSource 0 [] (str "a.js")
                                  ([byteTab] ++ str "x;" ++ [Byte.x0d; Byte.x0a] ++ str "y")))
                     1 1 (str "m") Error)
       (mkTerminalInfo false false 0)) as [d|] eqn:E; [|discriminate E].
  cbn [option_map]. f_equal.
  apply (detail_is_one_line _ _ d byteTab E). left. reflexivity.
Defined.

(* ================================================================= *)
(** * Part XVI: text put after valid UTF-8 *)
(* ================================================================= *)

(** A valid encoding at the head of a string is decoded the same whatever
    follows the string. *)
Lemma decodeRune_app (a b : gostring) :
  validAt a = true -> decodeRune (a ++ b) = decodeRune a.
Proof.
  unfold validAt.
  destruct a as [|b0 [|b1 [|b2 [|b3 t]]]]; cbn [app]; unfold decodeRune;
    try (cbn; discriminate);
    repeat match goal with
           | |- context [if ?c then _ else _] => destruct c
           end;
    intros H; first [reflexivity|discriminate H|cbn in H; discriminate H].
Qed.

Lemma rangeFrom_app (b : gostring) :
  forall a i, ValidString a = true ->
  rangeFrom (length (a ++ b)) i (a ++ b)
  = rangeFrom (length a) i a ++ rangeFrom (length b) (i + len a) b.
Proof.
  apply (range_ind (fun i a => ValidString a = true ->
    rangeFrom (length (a ++ b)) i (a ++ b)
    = rangeFrom (length a) i a ++ rangeFrom (length b) (i + len a) b)).
  - intros i _. cbn [app length rangeFrom]. rewrite len_nil, Z.add_0_r. reflexivity.
  - intros i s r n Hs D Hn IH V.
    rewrite (ValidString_step s r n Hs D) in V. apply andb_true_iff in V.
    destruct V as [V1 V2].
    assert (Hs' : s ++ b <> []) by (destruct s; [congruence|discriminate]).
    assert (D' : decodeRune (s ++ b) = (r, n)) by (rewrite decodeRune_app; assumption).
    rewrite (rangeFrom_step i (s ++ b) r n Hs' D'), (rangeFrom_step i s r n Hs D).
    rewrite skipn_app. replace (n - length s)%nat with 0%nat by lia. cbn [skipn].
    rewrite (IH V2). cbn [app].
    replace (i + Z.of_nat n + len (skipn n s)) with (i + len s); [reflexivity|].
    unfold len. rewrite length_skipn. lia.
Qed.

Lemma runes_app (a b : gostring) :
  ValidString a = true -> runes (a ++ b) = runes a ++ runes b.
Proof.
  intros V. unfold runes, go_range. rewrite (rangeFrom_app b a 0 V), map_app. f_equal.
  clear V. generalize (0 + len a). generalize 0.
  apply (range_ind (fun i s => forall j,
    map snd (rangeFrom (length s) j s) = map snd (rangeFrom (length s) i s))).
  - intros i j. rewrite !rangeFrom_nil. reflexivity.
  - intros i s r n Hs D Hn IH j.
    rewrite (rangeFrom_step i s r n Hs D), (rangeFrom_step j s r n Hs D).
    cbn [map snd]. f_equal. apply IH.
Qed.

Lemma expandTabs_app (cs1 cs2 : list rune) :
  forall col,
  expandTabs col (cs1 ++ cs2)
  = expandTabs col cs1 ++ expandTabs (columnAfter col cs1) cs2.
Proof.
  induction cs1 as [|c cs1 IH]; intros col; [reflexivity|].
  cbn [app expandTabs columnAfter]. destruct (c =? 9); rewrite IH, <- app_assoc; reflexivity.
Qed.

Lemma ContainsByte_app_false (a b : gostring) (x : byte) :
  ContainsByte (a ++ b) x = false -> ContainsByte a x = false /\ ContainsByte b x = false.
Proof. rewrite ContainsByte_app. apply orb_false_iff. Qed.

(** X15: for valid UTF-8 [a], the expansion of [a] is the beginning of the
    expansion of [a] followed by anything: what comes after a text never
    changes how the text itself is expanded.  This is why the indent, the
    expanded length of the line up to the location, points into the expanded
    line. *)
Theorem renderTabStops_prefix (a b : gostring) :
  ValidString a = true ->
  exists expandedA expandedAB rest,
    renderTabStops a 2 = Some expandedA
    /\ renderTabStops (a ++ b) 2 = Some expandedAB
    /\ expandedAB = expandedA ++ rest
    /\ len expandedA <= len expandedAB.
Proof.
  intros V.
  destruct (renderTabStops_two a) as (ea & Ea & A0 & A1).
  destruct (renderTabStops_two (a ++ b)) as (eab & Eab & B0 & B1).
  assert (Hpre : exists rest, eab = ea ++ rest).
  { destruct (ContainsByte (a ++ b) byteTab) eqn:T.
    - rewrite (B1 eq_refl), (runes_app a b V), expandTabs_app.
      eexists. f_equal.
      destruct (ContainsByte a byteTab) eqn:Ta; [rewrite (A1 eq_refl); reflexivity|].
      rewrite (A0 eq_refl).
      rewrite expandTabs_no_tab
        by (apply (runes_without_byte byteTab a 0); [reflexivity|exact Ta]).
      unfold runes, go_range. apply encode_runes_valid. exact V.
    - destruct (ContainsByte_app_false _ _ _ T) as [Ta _].
      rewrite (B0 eq_refl), (A0 Ta). eexists. reflexivity. }
  destruct Hpre as (rest & Hpre).
  exists ea, eab, rest. repeat split; try assumption.
  rewrite Hpre, len_app. pose proof (len_nonneg rest). lia.
Qed.

Lemma renderTabStops_prefix_witness :
  exists expandedA expandedAB rest,
    renderTabStops (str "if" ++ [byteTab]) 2 = Some expandedA
    /\ renderTabStops ((str "if" ++ [byteTab]) ++ [byteTab] ++ str "x") 2 = Some expandedAB
    /\ expandedAB = expandedA ++ rest
    /\ len expandedA <= len expandedAB.
Proof.
  apply (renderTabStops_prefix (str "if" ++ [byteTab]) ([byteTab] ++ str "x")).
  reflexivity.
Defined.

(* ================================================================= *)
(** * Part XVII: the last line, and a sink that never panics *)
(* ================================================================= *)

(** After the first byte of an encoding, no byte of it is an ASCII byte. *)
Lemma consumed_tail_without (x : byte) (s : gostring) (r : rune) (n : nat) :
  byte.unsigned x < 0x80 -> decodeRune s = (r, n) -> s <> [] ->
  ContainsByte (skipn 1 (firstn n s)) x = false.
Proof.
  intros Hx D Hs. destruct (Z_lt_le_dec r 0x80) as [A|A].
  - destruct (decodeRune_ascii s r n D A) as (b0 & t & -> & -> & _). reflexivity.
  - apply ContainsByte_skipn. apply (consumed_without x s r n); try assumption. lia.
Qed.

(** The loop of [ComputeLineAndColumn] with [pre] already scanned: no line
    feed and no carriage return lies after the line start it ends with. *)
Lemma lineStep_last_line (x : byte) :
  byte.unsigned x = 10 \/ byte.unsigned x = 13 ->
  forall s i (pre : gostring) (st : Z * Z * rune),
  len pre = i -> 0 <= snd (fst st) <= i ->
  ContainsByte (skipn (Z.to_nat (snd (fst st))) pre) x = false ->
  ContainsByte
    (skipn (Z.to_nat (snd (fst (fold_left lineStep (rangeFrom (length s) i s) st))))
       (pre ++ s)) x = false.
Proof.
  intros Hx.
  apply (range_ind (fun i s => forall (pre : gostring) (st : Z * Z * rune),
    len pre = i -> 0 <= snd (fst st) <= i ->
    ContainsByte (skipn (Z.to_nat (snd (fst st))) pre) x = false ->
    ContainsByte
      (skipn (Z.to_nat (snd (fst (fold_left lineStep (rangeFrom (length s) i s) st))))
         (pre ++ s)) x = false)).
  - intros i pre st _ _ H. rewrite rangeFrom_nil, app_nil_r. exact H.
  - intros i s r n Hs D Hn IH pre [[lineCount lastLineStart] prev] Hp Hb H.
    cbn [fst snd] in Hb, H.
    rewrite (rangeFrom_step i s r n Hs D). cbn [fold_left].
    replace (pre ++ s) with ((pre ++ firstn n s) ++ skipn n s)
      by (rewrite <- app_assoc, firstn_skipn; reflexivity).
    assert (Hl : len (pre ++ firstn n s) = i + Z.of_nat n).
    { rewrite len_app, Hp. unfold len. rewrite length_firstn. lia. }
    assert (Hnew : ContainsByte (skipn (Z.to_nat (i + 1)) (pre ++ firstn n s)) x = false).
    { rewrite skipn_app, (skipn_all2 pre) by (unfold len in Hp; lia).
      replace (Z.to_nat (i + 1) - length pre)%nat with 1%nat by (unfold len in Hp; lia).
      apply (consumed_tail_without x s r n); try assumption. lia. }
    apply IH; [exact Hl| |]; unfold lineStep;
      destruct (r =? 10) eqn:E1; cbn [fst snd]; try lia; try exact Hnew;
      destruct ((r =? 13) || (r =? 8232) || (r =? 8233)) eqn:E2; cbn [fst snd];
      try lia; try exact Hnew.
    rewrite skipn_app.
    replace (Z.to_nat lastLineStart - length pre)%nat with 0%nat by (unfold len in Hp; lia).
    cbn [skipn]. rewrite ContainsByte_app, H. cbn [orb].
    apply (consumed_without x s r n); try assumption; [lia|].
    apply orb_false_iff in E2. destruct E2 as [E2 _].
    apply orb_false_iff in E2. destruct E2 as [E2 _].
    apply Z.eqb_neq in E1, E2. lia.
Qed.

(** X16: what [ComputeLineAndColumn] returns, for any text.  The line count
    is the number of line feeds that do not follow a carriage return, so it
    is not negative; the last line start lies inside the text, the column is
    the number of bytes after it, and those bytes hold no line feed and no
    carriage return: the column is counted on one line. *)
Theorem ComputeLineAndColumn_last_line (text : gostring)
  (lineCount columnCount lastLineStart : Z) :
  ComputeLineAndColumn text = (lineCount, columnCount, lastLineStart) ->
  lineCount = countBareLineFeeds 0 (runes text)
  /\ 0 <= lineCount
  /\ 0 <= lastLineStart <= len text
  /\ columnCount = len text - lastLineStart
  /\ 0 <= columnCount <= len text
  /\ ContainsByte (skipn (Z.to_nat lastLineStart) text) Byte.x0a = false
  /\ ContainsByte (skipn (Z.to_nat lastLineStart) text) Byte.x0d = false.
Proof.
  intros H.
  pose proof (ComputeLineAndColumn_lineCount text) as HC. rewrite H in HC. cbn [fst] in HC.
  pose proof (countBareLineFeeds_nonneg (runes text) 0) as HN.
  pose proof (ComputeLineAndColumn_bounds _ _ _ _ H) as [Hls Hcc].
  assert (HX : forall x, byte.unsigned x = 10 \/ byte.unsigned x = 13 ->
                ContainsByte (skipn (Z.to_nat lastLineStart) text) x = false).
  { intros x Hx.
    pose proof (lineStep_last_line x Hx text 0 [] lineStart0 eq_refl
                  ltac:(cbn; lia) eq_refl) as L.
    unfold ComputeLineAndColumn, go_range in H. cbn [app] in L.
    destruct (fold_left lineStep (rangeFrom (length text) 0 text) lineStart0)
      as [[lc ls] p].
    injection H as <- <- <-. exact L. }
  repeat split; try lia; apply HX; [left|right]; reflexivity.
Qed.

Lemma ComputeLineAndColumn_last_line_witness :
  let text := str "a" ++ [Byte.x0a] ++ str "bc" in
  1 = countBareLineFeeds 0 (runes text)
  /\ 0 <= 1
  /\ 0 <= 2 <= len text
  /\ 2 = len text - 2
  /\ 0 <= 2 <= len text
  /\ ContainsByte (skipn (Z.to_nat 2) text) Byte.x0a = false
  /\ ContainsByte (skipn (Z.to_nat 2) text) Byte.x0d = false.
Proof.
  apply (ComputeLineAndColumn_last_line (str "a" ++ [Byte.x0a] ++ str "bc") 1 2 2).
  reflexivity.
Defined.

(** Rendering a message whose range lies inside its source never panics,
    unless the terminal is 4 columns wide. *)
Lemma Msg_String_total (msg : Msg) (options : StderrOptions) (terminalInfo : TerminalInfo) :
  locatedIn msg -> Width terminalInfo <> 4 ->
  exists text, Msg_String msg options terminalInfo = Some text.
Proof.
  intros L W. unfold Msg_String. unfold locatedIn in L.
  destruct (MsgSource msg) as [source|] eqn:S.
  - destruct (IncludeSource options); cbn [negb].
    + destruct L as (L1 & L2 & L3 & L4).
      destruct (detailStruct_total msg terminalInfo source S L1 L2 L3 L4 W) as (d & -> & _).
      cbn [bind]. destruct (UseColorEscapes terminalInfo); eexists; reflexivity.
    + destruct (UseColorEscapes terminalInfo); eexists; reflexivity.
  - destruct (UseColorEscapes terminalInfo); eexists; reflexivity.
Qed.

Lemma workerStep_total (options : StderrOptions) (terminalInfo : TerminalInfo)
  (st : stderrLogInfo * list gostring) (msg : Msg) :
  locatedIn msg -> Width terminalInfo <> 4 ->
  exists st', workerStep options terminalInfo st msg = Some st'.
Proof.
  intros L W. destruct st as [result stderr]. unfold workerStep.
  cbn [msgs errors warnings errorLimitWasHit].
  destruct (errorLimitWasHit result); [eexists; reflexivity|].
  destruct (Msg_String_total msg options terminalInfo L W) as (text & T).
  destruct (Kind msg);
    match goal with
    | |- context [LogLevel_le ?a ?b] => destruct (LogLevel_le a b) eqn:LE
    end; rewrite ?T; cbn [bind errors];
    match goal with
    | |- context [if ?c then _ else _] => destruct c
    end; try (eexists; reflexivity);
    destruct (LogLevel_le (LogLevelOpt options) LevelError); eexists; reflexivity.
Qed.

Lemma worker_total (options : StderrOptions) (terminalInfo : TerminalInfo)
  (received : list Msg) :
  Forall locatedIn received -> Width terminalInfo <> 4 ->
  forall st, exists st', worker options terminalInfo st received = Some st'.
Proof.
  intros F W. induction F as [|msg received L F IH]; intros st.
  - eexists. reflexivity.
  - cbn [worker]. destruct (workerStep_total options terminalInfo st msg L W) as (st1 & ->).
    cbn [bind]. apply IH.
Qed.

(** X17: a sink that receives only messages whose ranges lie inside their
    sources never panics, on a terminal that is not 4 columns wide, whatever
    its options: it returns every message it received, in order. *)
Theorem NewStderrLog_never_panics (SupportsColorEscapes : bool)
  (GetTerminalInfo : TerminalInfo) (options : StderrOptions) (received : list Msg) :
  Forall locatedIn received ->
  Width GetTerminalInfo <> 4 ->
  exists stderr,
    NewStderrLog SupportsColorEscapes GetTerminalInfo options received
    = Some (stderr, received).
Proof.
  intros F W. unfold NewStderrLog.
  assert (W' : Width (sinkTerminalInfo SupportsColorEscapes GetTerminalInfo options) <> 4)
    by (unfold sinkTerminalInfo; destruct (Color options); exact W).
  destruct (worker_total options _ received F W' startState) as ([result stderr] & E).
  rewrite E. cbn [bind]. pose proof (worker_msgs _ _ _ _ _ E) as M.
  cbn [fst startState msgs app] in M. unfold join. rewrite M. eexists. reflexivity.
Qed.

Lemma NewStderrLog_never_panics_witness :
  exists stderr,
    NewStderrLog true (mkTerminalInfo true true 80)
      (mkOptions true 0 ColorIfTerminal LevelInfo)
      [mkMsg (Some (mkSource 0 (str "/a.js") (str "a.js") (str "let x = 1;")))
         4 1 (str "unused") Warning;
       mkMsg None 0 0 (str "failed") Error]
    = Some (stderr,
      [mkMsg (Some (mkSource 0 (str "/a.js") (str "a.js") (str "let x = 1;")))
         4 1 (str "unused") Warning;
       mkMsg None 0 0 (str "failed") Error]).
Proof.
  apply NewStderrLog_never_panics.
  - repeat constructor; cbn; lia.
  - cbn. lia.
Defined.

(* ================================================================= *)
(** * Part XVIII: the window the trimming block shows *)
(* ================================================================= *)

Lemma firstn_exact (a b : gostring) (n : Z) :
  len a = n -> firstn (Z.to_nat n) (a ++ b) = a.
Proof.
  intros <-. unfold len. rewrite Nat2Z.id, firstn_app, firstn_all, Nat.sub_diag.
  cbn [firstn]. apply app_nil_r.
Qed.

Lemma skipn_exact (a b : gostring) (n : Z) :
  len a = n -> skipn (Z.to_nat n) (a ++ b) = b.
Proof.
  intros <-. unfold len. rewrite Nat2Z.id, skipn_app, skipn_all, Nat.sub_diag.
  reflexivity.
Qed.

Lemma split_at (l : gostring) (n : Z) :
  0 <= n <= len l -> exists a b, l = a ++ b /\ len a = n /\ len b = len l - n.
Proof.
  intros H. exists (firstn (Z.to_nat n) l), (skipn (Z.to_nat n) l).
  rewrite firstn_skipn, len_firstn, len_skipn by lia. repeat split.
Qed.

Lemma slice_exact (pre a post : gostring) (lo hi : Z) :
  len pre = lo -> len a = hi - lo -> slice (pre ++ a ++ post) lo hi = Some a.
Proof.
  intros H1 H2. pose proof (len_nonneg pre). pose proof (len_nonneg a).
  pose proof (len_nonneg post).
  rewrite slice_Some by (rewrite ?len_app; lia).
  rewrite (skipn_exact pre _ lo H1), (firstn_exact a post _ H2). reflexivity.
Qed.

(** X18: the trimming block in closed form, for a terminal at least 6
    columns wide and a marker inside a longer line.  The window starts at
    the offset [s] found by centring and clamping; what is shown is the
    window of the line with its first three bytes replaced by dots when
    something was cut on the left, and its last three when something was cut
    on the right, and nothing else changed; the marker is moved by [s] and
    kept off the dots. *)
Theorem trimToWidth_window (W : Z) (lineText : gostring) (markerStart markerEnd : Z) :
  6 <= W < len lineText ->
  0 <= markerStart <= markerEnd -> markerEnd <= len lineText ->
  let s := specSliceStart W (len lineText) markerStart markerEnd in
  let markerStart' := Z.max (if s >? 0 then 3 else 0) (markerStart - s) in
  let markerEnd' :=
    if s + W <? len lineText
    then Z.max markerStart' (Z.min (W - 3) (markerEnd - s)) else markerEnd - s in
  exists head middle tail,
    slice lineText s (s + 3) = Some head
    /\ slice lineText (s + 3) (s + W - 3) = Some middle
    /\ slice lineText (s + W - 3) (s + W) = Some tail
    /\ trimToWidth W lineText markerStart markerEnd
       = Some ((if s >? 0 then str "..." else head) ++ middle
               ++ (if s + W <? len lineText then str "..." else tail),
               repeat byteSpace (Z.to_nat markerStart'), markerStart', markerEnd')
    /\ markerStart' <= markerEnd' <= W.
Proof.
  intros HW HM HE.
  assert (HW' : 0 < W < len lineText) by lia.
  pose proof (sliceStart_facts W (len lineText) markerStart markerEnd HW' HM HE) as F.
  cbv zeta in F. unfold trimToWidth.
  set (s := if (if (if Z.quot (markerStart + markerEnd - W) 2 >? markerStart - Z.quot W 5
                    then markerStart - Z.quot W 5
                    else Z.quot (markerStart + markerEnd - W) 2) <? 0
                then 0
                else if Z.quot (markerStart + markerEnd - W) 2 >? markerStart - Z.quot W 5
                     then markerStart - Z.quot W 5
                     else Z.quot (markerStart + markerEnd - W) 2) >? len lineText - W
            then len lineText - W
            else if (if Z.quot (markerStart + markerEnd - W) 2 >? markerStart - Z.quot W 5
                     then markerStart - Z.quot W 5
                     else Z.quot (markerStart + markerEnd - W) 2) <? 0
                 then 0
                 else if Z.quot (markerStart + markerEnd - W) 2 >? markerStart - Z.quot W 5
                      then markerStart - Z.quot W 5
                      else Z.quot (markerStart + markerEnd - W) 2) in *.
  destruct F as (Fspec & Fs & Fm & Fm' & Fpos). rewrite <- Fspec. clearbody s.
  clear Fspec. cbv zeta.
  destruct (split_at lineText s ltac:(lia)) as (pre & l1 & E0 & Hpre & Hl1).
  destruct (split_at l1 3 ltac:(lia)) as (h & l2 & E1 & Hh & Hl2).
  destruct (split_at l2 (W - 6) ltac:(lia)) as (m & l3 & E2 & Hm & Hl3).
  destruct (split_at l3 3 ltac:(lia)) as (t & post & E3 & Ht & Hpost).
  assert (Hline : lineText = pre ++ h ++ m ++ t ++ post) by (subst; reflexivity).
  assert (Hpost' : len post = len lineText - s - W) by lia.
  clear E0 E1 E2 E3 Hl1 Hl2 Hl3 Hpost l1 l2 l3.
  exists h, m, t.
  split; [rewrite Hline; apply slice_exact; lia|].
  split.
  { rewrite Hline. replace (pre ++ h ++ m ++ t ++ post) with ((pre ++ h) ++ m ++ t ++ post)
      by (rewrite <- app_assoc; reflexivity).
    apply slice_exact; rewrite ?len_app; lia. }
  split.
  { rewrite Hline.
    replace (pre ++ h ++ m ++ t ++ post) with ((pre ++ h ++ m) ++ t ++ post)
      by (rewrite <- !app_assoc; reflexivity).
    apply slice_exact; rewrite ?len_app; lia. }
  rewrite slice_Some by lia. cbn [bind].
  replace (s + W - s) with W by lia.
  assert (Esl : firstn (Z.to_nat W) (skipn (Z.to_nat s) lineText) = h ++ m ++ t).
  { rewrite Hline, (skipn_exact pre _ s Hpre).
    replace (h ++ m ++ t ++ post) with ((h ++ m ++ t) ++ post)
      by (rewrite <- !app_assoc; reflexivity).
    apply firstn_exact. rewrite !len_app. lia. }
  rewrite Esl. clear Esl.
  assert (Hsl : len (h ++ m ++ t) = W) by (rewrite !len_app; lia).
  rewrite Hsl.
  set (m1 := if markerStart - s <? 0 then 0 else markerStart - s).
  set (e1 := if markerEnd - s >? W then W else markerEnd - s).
  assert (Hm1 : m1 = markerStart - s)
    by (unfold m1; destruct (markerStart - s <? 0) eqn:?; lia).
  assert (He1 : e1 = Z.min W (markerEnd - s))
    by (unfold e1; destruct (markerEnd - s >? W) eqn:?; lia).
  clearbody m1 e1.
  assert (HW3 : (W >? 3) = true) by (apply Z.gtb_lt; lia).
  rewrite HW3. cbn [andb].
  assert (Hdm : len (str "..." ++ m) = W - 3) by (rewrite len_app, len_dots; lia).
  assert (Hhm : len (h ++ m) = W - 3) by (rewrite len_app; lia).
  destruct (s >? 0) eqn:C1.
  - rewrite sliceFrom_Some by lia. cbn [bind].
    rewrite (skipn_exact h (m ++ t) 3 Hh).
    assert (Hl : len (str "..." ++ m ++ t) = W) by (rewrite !len_app, len_dots; lia).
    rewrite Hl, HW3. cbn [andb].
    set (m2 := if m1 <? 3 then 3 else m1).
    assert (Hm2 : m2 = Z.max 3 (markerStart - s))
      by (unfold m2; destruct (m1 <? 3) eqn:?; lia).
    clearbody m2.
    destruct (s + W <? len lineText) eqn:C2.
    + rewrite sliceTo_Some by lia. cbn [bind].
      replace (str "..." ++ m ++ t) with ((str "..." ++ m) ++ t)
        by (rewrite <- app_assoc; reflexivity).
      rewrite (firstn_exact (str "..." ++ m) t (W - 3) Hdm).
      rewrite len_app, Hdm, len_dots.
      replace (W - 3 + 3) with W by lia.
      set (e2 := if (if e1 >? W - 3 then W - 3 else e1) <? m2 then m2
                 else if e1 >? W - 3 then W - 3 else e1).
      assert (He2 : e2 = Z.max m2 (Z.min (W - 3) (markerEnd - s))).
      { unfold e2. destruct (e1 >? W - 3) eqn:?;
          match goal with |- context [if ?x <? m2 then _ else _] =>
            destruct (x <? m2) eqn:? end; lia. }
      clearbody e2. rewrite Repeat_space by lia. cbn [bind].
      rewrite <- Hm2, <- He2, <- app_assoc. split; [reflexivity|]. lia.
    + cbn [bind]. rewrite Repeat_space by lia. cbn [bind].
      assert (HeqL : s + W = len lineText) by lia.
      replace (markerEnd - s) with e1 by lia. rewrite <- Hm2.
      split; [reflexivity|]. specialize (Fpos ltac:(lia)). lia.
  - cbn [bind]. rewrite Hsl, HW3. cbn [andb].
    assert (Hs0 : s = 0) by lia.
    destruct (s + W <? len lineText) eqn:C2.
    + rewrite sliceTo_Some by lia. cbn [bind].
      replace (h ++ m ++ t) with ((h ++ m) ++ t) by (rewrite <- app_assoc; reflexivity).
      rewrite (firstn_exact (h ++ m) t (W - 3) Hhm).
      rewrite len_app, Hhm, len_dots.
      replace (W - 3 + 3) with W by lia.
      set (e2 := if (if e1 >? W - 3 then W - 3 else e1) <? m1 then m1
                 else if e1 >? W - 3 then W - 3 else e1).
      assert (He2 : e2 = Z.max m1 (Z.min (W - 3) (markerEnd - s))).
      { unfold e2. destruct (e1 >? W - 3) eqn:?;
          match goal with |- context [if ?x <? m1 then _ else _] =>
            destruct (x <? m1) eqn:? end; lia. }
      clearbody e2. rewrite Repeat_space by lia. cbn [bind].
      replace (Z.max 0 (markerStart - s)) with m1 by lia.
      rewrite <- He2, <- app_assoc. split; [reflexivity|]. lia.
    + lia.
Qed.

Lemma trimToWidth_window_witness :
  let lineText := str "0123456789" in
  let s := specSliceStart 6 (len lineText) 4 5 in
  let markerStart' := Z.max (if s >? 0 then 3 else 0) (4 - s) in
  let markerEnd' :=
    if s + 6 <? len lineText
    then Z.max markerStart' (Z.min (6 - 3) (5 - s)) else 5 - s in
  exists head middle tail,
    slice lineText s (s + 3) = Some head
    /\ slice lineText (s + 3) (s + 6 - 3) = Some middle
    /\ slice lineText (s + 6 - 3) (s + 6) = Some tail
    /\ trimToWidth 6 lineText 4 5
       = Some ((if s >? 0 then str "..." else head) ++ middle
               ++ (if s + 6 <? len lineText then str "..." else tail),
               repeat byteSpace (Z.to_nat markerStart'), markerStart', markerEnd')
    /\ markerStart' <= markerEnd' <= 6.
Proof.
  apply (trimToWidth_window 6 (str "0123456789") 4 5); cbn; lia.
Defined.

(* ================================================================= *)
(** * Part XIX: reporting a string range; output is only appended *)
(* ================================================================= *)

Lemma RangeOfString_bounds (s : Source) (loc : Loc) :
  0 <= LocStart loc <= len (Contents s) -> len (Contents s) < 2 ^ 31 ->
  exists r, RangeOfString s loc = Some r
    /\ RangeLoc r = loc /\ 0 <= Len r /\ LocStart loc + Len r <= len (Contents s).
Proof.
  intros Hloc H31. unfold RangeOfString. rewrite (sliceFrom_Some _ _ Hloc). cbn [bind].
  assert (Htext : len (skipn (Z.to_nat (LocStart loc)) (Contents s))
                  = len (Contents s) - LocStart loc) by (apply len_skipn; lia).
  assert (Zero : exists r, Some (mkRange loc 0) = Some r
    /\ RangeLoc r = loc /\ 0 <= Len r /\ LocStart loc + Len r <= len (Contents s)).
  { eexists. split; [reflexivity|]. cbn [RangeLoc Len]. repeat split; lia. }
  destruct (skipn (Z.to_nat (LocStart loc)) (Contents s)) as [|q rest]; [exact Zero|].
  destruct (byte_eqb q byteDQuote || byte_eqb q byteSQuote); [|exact Zero].
  destruct (scanQuote q rest 1) as [n|] eqn:E; [|exact Zero].
  destruct (proj1 (scanQuote_complete q rest) _ _ E) as (k & Hk & ->).
  pose proof (ClosingQuote_bound _ _ _ Hk) as B. rewrite len_cons in Htext.
  eexists. split; [reflexivity|]. cbn [RangeLoc Len].
  rewrite int32_small by lia. repeat split; lia.
Qed.

(** X19: the range [RangeOfString] finds at a location inside the contents
    can always be reported.  A message made from it by [AddRangeError] or
    [AddRangeWarning] has its range inside its source, and rendering it with
    the source snippet never panics on a terminal that is not 4 columns
    wide. *)
Theorem string_range_is_reportable (source : Source) (loc : Loc) (text : gostring)
  (options : StderrOptions) (terminalInfo : TerminalInfo) :
  0 <= LocStart loc <= len (Contents source) ->
  len (Contents source) < 2 ^ 31 ->
  Width terminalInfo <> 4 ->
  exists r asError asWarning,
    RangeOfString source loc = Some r
    /\ locatedIn (AddRangeError (Some source) r text)
    /\ locatedIn (AddRangeWarning (Some source) r text)
    /\ Msg_String (AddRangeError (Some source) r text) options terminalInfo = Some asError
    /\ Msg_String (AddRangeWarning (Some source) r text) options terminalInfo
       = Some asWarning.
Proof.
  intros Hloc H31 W.
  destruct (RangeOfString_bounds source loc Hloc H31) as (r & E & R1 & R2 & R3).
  assert (L1 : locatedIn (AddRangeError (Some source) r text))
    by (unfold locatedIn, AddRangeError; cbn [MsgSource Start Length]; rewrite R1; lia).
  assert (L2 : locatedIn (AddRangeWarning (Some source) r text))
    by (unfold locatedIn, AddRangeWarning; cbn [MsgSource Start Length]; rewrite R1; lia).
  destruct (Msg_String_total _ options terminalInfo L1 W) as (o1 & O1).
  destruct (Msg_String_total _ options terminalInfo L2 W) as (o2 & O2).
  exists r, o1, o2.
  split; [exact E|]. split; [exact L1|]. split; [exact L2|]. split; assumption.
Qed.

Lemma string_range_is_reportable_witness :
  exists r asError asWarning,
    RangeOfString (mkSource 0 (str "/a.js") (str "a.js") (str "x = 'ab';")) (mkLoc 4)
    = Some r
    /\ locatedIn (AddRangeError
         (Some (mkSource 0 (str "/a.js") (str "a.js") (str "x = 'ab';"))) r (str "bad"))
    /\ locatedIn (AddRangeWarning
         (Some (mkSource 0 (str "/a.js") (str "a.js") (str "x = 'ab';"))) r (str "bad"))
    /\ Msg_String (AddRangeError
         (Some (mkSource 0 (str "/a.js") (str "a.js") (str "x = 'ab';"))) r (str "bad"))
         (mkOptions true 0 ColorNever LevelInfo) (mkTerminalInfo false false 0)
       = Some asError
    /\ Msg_String (AddRangeWarning
         (Some (mkSource 0 (str "/a.js") (str "a.js") (str "x = 'ab';"))) r (str "bad"))
         (mkOptions true 0 ColorNever LevelInfo) (mkTerminalInfo false false 0)
       = Some asWarning.
Proof.
  apply (string_range_is_reportable
           (mkSource 0 (str "/a.js") (str "a.js") (str "x = 'ab';")) (mkLoc 4) (str "bad")
           (mkOptions true 0 ColorNever LevelInfo) (mkTerminalInfo false false 0));
    cbn; lia.
Defined.

(** One iteration of the worker only appends to what was written, only
    raises the counters, and never clears [errorLimitWasHit]. *)
Lemma workerStep_mono (options : StderrOptions) (ti : TerminalInfo)
  (st st' : stderrLogInfo * list gostring) (msg : Msg) :
  workerStep options ti st msg = Some st' ->
  (exists more, snd st' = snd st ++ more)
  /\ errors (fst st) <= errors (fst st')
  /\ warnings (fst st) <= warnings (fst st')
  /\ (errorLimitWasHit (fst st) = true -> errorLimitWasHit (fst st') = true).
Proof.
  destruct st as [result stderr]. unfold workerStep.
  cbn [errorLimitWasHit msgs errors warnings fst snd].
  destruct (errorLimitWasHit result) eqn:Hit.
  - intros [= <-]. cbn [fst snd errors warnings errorLimitWasHit].
    repeat split; try lia; try assumption. exists []. symmetry. apply app_nil_r.
  - destruct (Kind msg);
      match goal with
      | |- context [LogLevel_le ?a ?b] => destruct (LogLevel_le a b)
      end;
      try (destruct (Msg_String msg options ti) as [text|]; [|discriminate]);
      cbn [bind errors warnings msgs errorLimitWasHit];
      match goal with
      | |- context [if ?c then _ else _] => destruct c
      end;
      try destruct (LogLevel_le (LogLevelOpt options) LevelError);
      intros [= <-]; cbn [fst snd errors warnings errorLimitWasHit];
      (split; [first [exists []; symmetry; apply app_nil_r
                     |eexists; rewrite <- ?app_assoc; reflexivity]|]);
      repeat split; try lia; discriminate.
Qed.

Lemma worker_mono (options : StderrOptions) (ti : TerminalInfo) (received : list Msg) :
  forall st st', worker options ti st received = Some st' ->
  (exists more, snd st' = snd st ++ more)
  /\ errors (fst st) <= errors (fst st')
  /\ warnings (fst st) <= warnings (fst st')
  /\ (errorLimitWasHit (fst st) = true -> errorLimitWasHit (fst st') = true).
Proof.
  induction received as [|msg received IH]; intros st st' H.
  - injection H as <-. repeat split; try lia; try tauto.
    exists []. symmetry. apply app_nil_r.
  - cbn [worker] in H. destruct (workerStep options ti st msg) as [st1|] eqn:E;
      [|discriminate]. cbn [bind] in H.
    destruct (workerStep_mono _ _ _ _ _ E) as ((m1 & A1) & A2 & A3 & A4).
    destruct (IH _ _ H) as ((m2 & B1) & B2 & B3 & B4).
    repeat split; try lia; [|tauto].
    exists (m1 ++ m2). rewrite B1, A1, app_assoc. reflexivity.
Qed.

(** X20: the worker only ever appends.  If it got through the messages
    [before ++ after], it got through [before]; what it had written and
    collected by then is the beginning of what it has written and collected
    at the end, its counters have not gone down, and a limit that was hit
    stays hit. *)
Theorem sink_only_appends (options : StderrOptions) (terminalInfo : TerminalInfo)
  (before after : list Msg) (final : stderrLogInfo * list gostring) :
  worker options terminalInfo startState (before ++ after) = Some final ->
  exists mid more,
    worker options terminalInfo startState before = Some mid
    /\ snd final = snd mid ++ more
    /\ msgs (fst mid) = before
    /\ msgs (fst final) = msgs (fst mid) ++ after
    /\ errors (fst mid) <= errors (fst final)
    /\ warnings (fst mid) <= warnings (fst final)
    /\ (errorLimitWasHit (fst mid) = true -> errorLimitWasHit (fst final) = true).
Proof.
  intros H. rewrite worker_app in H.
  destruct (worker options terminalInfo startState before) as [mid|] eqn:E;
    [|discriminate]. cbn [bind] in H.
  destruct (worker_mono _ _ _ _ _ H) as ((more & A1) & A2 & A3 & A4).
  pose proof (worker_msgs _ _ _ _ _ E) as M1. pose proof (worker_msgs _ _ _ _ _ H) as M2.
  exists mid, more. repeat split; assumption.
Qed.

Lemma sink_only_appends_witness :
  exists mid more,
    worker (mkOptions false 1 ColorNever LevelInfo) (mkTerminalInfo false false 0)
      startState [AddWarning None (mkLoc 0) (str "w")] = Some mid
    /\ snd (mkInfo [AddWarning None (mkLoc 0) (str "w"); AddError None (mkLoc 0) (str "e")]
              1 1 true,
            [str "warning: w" ++ newline; str "error: e" ++ newline;
             str "1 warning and 1 error reached (disable error limit with --error-limit=0)"
             ++ newline])
       = snd mid ++ more
    /\ msgs (fst mid) = [AddWarning None (mkLoc 0) (str "w")]
    /\ msgs (fst (mkInfo [AddWarning None (mkLoc 0) (str "w");
                          AddError None (mkLoc 0) (str "e")] 1 1 true,
                  [str "warning: w" ++ newline; str "error: e" ++ newline;
                   str "1 warning and 1 error reached (disable error limit with --error-limit=0)"
                   ++ newline]))
       = msgs (fst mid) ++ [AddError None (mkLoc 0) (str "e")]
    /\ errors (fst mid) <= 1
    /\ warnings (fst mid) <= 1
    /\ (errorLimitWasHit (fst mid) = true -> true = true).
Proof.
  apply (sink_only_appends (mkOptions false 1 ColorNever LevelInfo)
           (mkTerminalInfo false false 0)
           [AddWarning None (mkLoc 0) (str "w")] [AddError None (mkLoc 0) (str "e")]
           (mkInfo [AddWarning None (mkLoc 0) (str "w"); AddError None (mkLoc 0) (str "e")]
              1 1 true,
            [str "warning: w" ++ newline; str "error: e" ++ newline;
             str "1 warning and 1 error reached (disable error limit with --error-limit=0)"
             ++ newline])).
  reflexivity.
Defined.
